(** * narou_download: the markup-to-Aozora conversion engine and the
      serial-download orchestrator

    A shallow embedding of [html_converter.go] and of the download loop of
    [app.go], with the properties of the specification stated over it.

    Go strings are byte sequences; they are modelled as [list ascii]
    ([gostring]).  String literals of the source are written as Rocq string
    literals, which hold the same UTF-8 bytes. *)

From Stdlib Require Import Ascii String Bool Arith NArith Lia List.
From Stdlib Require Import Sorting.Permutation.
From Stdlib Require DecimalString.
Import ListNotations.

Abbreviation gostring := (list ascii).

(** [b "..."] is the Go string literal ["..."]. *)
Definition b (s : string) : gostring := list_ascii_of_string s.

Definition LF : ascii := "010"%char.
Definition CR : ascii := "013"%char.
Definition DQUOTE : ascii := "034"%char.

(** ** Package [strings] *)
Module strings.

(** [HasPrefix s prefix]. *)
Fixpoint HasPrefix (s prefix : gostring) {struct prefix} : bool :=
  match prefix, s with
  | [], _ => true
  | p :: prefix', c :: s' => Ascii.eqb p c && HasPrefix s' prefix'
  | _ :: _, [] => false
  end.

(** [replaceFrom old new skip s]: the left-to-right scan of
    [strings.ReplaceAll] for a non-empty [old]; [skip] counts the bytes of
    the occurrence being replaced that are still to be dropped, so that
    occurrences never overlap. *)
Fixpoint replaceFrom (old new : gostring) (skip : nat) (s : gostring) : gostring :=
  match s with
  | [] => []
  | c :: s' =>
      match skip with
      | S k => replaceFrom old new k s'
      | O => if HasPrefix s old
             then new ++ replaceFrom old new (length old - 1) s'
             else c :: replaceFrom old new 0 s'
      end
  end.

(** [strings.ReplaceAll(s, old, new)].  Every call site of the source
    passes a non-empty literal as [old]; for an empty [old] (where Go
    inserts [new] around every rune) the model is not meant to be used
    and returns [s]. *)
Definition ReplaceAll (s old new : gostring) : gostring :=
  match old with
  | [] => s
  | _ :: _ => replaceFrom old new 0 s
  end.

End strings.

(** ** Package [regexp]

    The patterns of the source are made of literals, character classes,
    [.] (any character but a line feed: no pattern sets the [s] flag),
    greedy and lazy repetition of one class, an optional item, and at most
    one capture group.  [Regexp] has exactly these constructs, and
    [matchK] is the backtracking matcher with Go's leftmost-first
    preference order.

    Matching is read over bytes.  Every literal of the patterns is ASCII
    and every repetition is delimited by ASCII literals, and an ASCII byte
    never occurs inside a multi-byte UTF-8 sequence, so that the byte
    reading and Go's rune reading choose the same matches. *)
Module regexp.

Inductive Regexp : Type :=
| Eps                                      (* the empty pattern *)
| Lit (c : ascii)                          (* one literal byte *)
| Cls (p : ascii -> bool)                  (* one byte of a class *)
| Seq (r1 r2 : Regexp)                     (* r1 r2 *)
| Alt (r1 r2 : Regexp)                     (* r1 | r2 *)
| Opt (r : Regexp)                         (* r? *)
| Star (greedy : bool) (p : ascii -> bool) (* [p]* when greedy, [p]*? when lazy *)
| Group (r : Regexp).                      (* ( r ), the capture group 1 *)

(** The text of capture group 1, when the group took part in the match. *)
Definition Capture := option gostring.

Section Matcher.
Context {A : Type}.

(** Repetition of a class, in continuation-passing style: the greedy
    form prefers one more byte, the lazy form prefers to stop. *)
Fixpoint starK (greedy : bool) (p : ascii -> bool) (s : gostring)
         (k : gostring -> option A) : option A :=
  if greedy then
    match s with
    | c :: s' =>
        if p c
        then match starK greedy p s' k with
             | Some r => Some r
             | None => k s
             end
        else k s
    | [] => k s
    end
  else
    match k s with
    | Some r => Some r
    | None =>
        match s with
        | c :: s' => if p c then starK greedy p s' k else None
        | [] => None
        end
    end.

(** [matchK r s g k]: match [r] at the head of [s], then hand the rest
    of the input and the capture to [k]; alternatives are tried in
    preference order and the first success wins. *)
Fixpoint matchK (r : Regexp) (s : gostring) (g : Capture)
         (k : gostring -> Capture -> option A) : option A :=
  match r with
  | Eps => k s g
  | Lit c =>
      match s with
      | c' :: s' => if Ascii.eqb c c' then k s' g else None
      | [] => None
      end
  | Cls p =>
      match s with
      | c' :: s' => if p c' then k s' g else None
      | [] => None
      end
  | Seq r1 r2 => matchK r1 s g (fun s' g' => matchK r2 s' g' k)
  | Alt r1 r2 =>
      match matchK r1 s g k with
      | Some x => Some x
      | None => matchK r2 s g k
      end
  | Opt r1 =>
      match matchK r1 s g k with
      | Some x => Some x
      | None => k s g
      end
  | Star greedy p => starK greedy p s (fun s' => k s' g)
  | Group r1 =>
      matchK r1 s g
        (fun s' _ => k s' (Some (firstn (length s - length s') s)))
  end.
End Matcher.

(** The preferred match of [r] anchored at the head of [s]: the rest of
    the input after the match, and the capture. *)
Definition matchAt (r : Regexp) (s : gostring) : option (gostring * Capture) :=
  matchK r s None (fun s' g => Some (s', g)).

(** The text consumed by a match of [s] that left [rest]. *)
Definition consumed (s rest : gostring) : gostring :=
  firstn (length s - length rest) s.

(** [re.NumSubexp()]. *)
Fixpoint NumSubexp (r : Regexp) : nat :=
  match r with
  | Eps | Lit _ | Cls _ | Star _ _ => 0
  | Seq r1 r2 | Alt r1 r2 => NumSubexp r1 + NumSubexp r2
  | Opt r1 => NumSubexp r1
  | Group r1 => 1 + NumSubexp r1
  end.

(** [re.FindStringSubmatch(s)]: the leftmost match, as the matched text and
    the capture; [None] is Go's [nil]. *)
Fixpoint FindStringSubmatch (r : Regexp) (s : gostring) : option (gostring * Capture) :=
  match matchAt r s with
  | Some (rest, g) => Some (consumed s rest, g)
  | None =>
      match s with
      | [] => None
      | _ :: s' => FindStringSubmatch r s'
      end
  end.

(** The loop of [Regexp.replaceAll].  [skip] counts the bytes of the
    current match still to be dropped; [fresh] tells that a match ended
    exactly at this position (Go's [a[1] > lastMatchEnd || a[0] == 0]:
    an empty match right after another match is not replaced).  After an
    empty match the scan advances by one byte. *)
Fixpoint replaceAll (r : Regexp) (repl : gostring -> Capture -> gostring)
         (skip : nat) (fresh : bool) (s : gostring) : gostring :=
  match skip with
  | S k =>
      match s with
      | [] => []
      | _ :: s' => replaceAll r repl k true s'
      end
  | O =>
      match matchAt r s with
      | Some (rest, g) =>
          match length s - length rest with
          | O =>
              (if fresh then [] else repl [] g) ++
              match s with
              | [] => []
              | c :: s' => c :: replaceAll r repl 0 false s'
              end
          | S n =>
              repl (consumed s rest) g ++
              match s with
              | [] => []
              | _ :: s' => replaceAll r repl n true s'
              end
          end
      | None =>
          match s with
          | [] => []
          | c :: s' => c :: replaceAll r repl 0 false s'
          end
      end
  end.

(** [re.ReplaceAllStringFunc(src, f)]. *)
Definition ReplaceAllStringFunc (r : Regexp) (src : gostring)
           (f : gostring -> gostring) : gostring :=
  replaceAll r (fun m _ => f m) 0 false src.

(** A replacement template, already cut at its [$1] references. *)
Inductive TemplateItem := TText (t : gostring) | TGroup1.

Definition Expand (tpl : list TemplateItem) (g : Capture) : gostring :=
  flat_map (fun it => match it with
                      | TText t => t
                      | TGroup1 => match g with Some x => x | None => [] end
                      end) tpl.

(** [re.ReplaceAllString(src, repl)]. *)
Definition ReplaceAllString (r : Regexp) (src : gostring)
           (tpl : list TemplateItem) : gostring :=
  replaceAll r (fun _ g => Expand tpl g) 0 false src.

(** [re.Split(s, 2)] for a pattern that matches no empty string (both
    call sites, [<rt>] and [<rp>]): the input whole when nothing matches,
    else the text before and the text after the leftmost match. *)
Fixpoint Split2 (r : Regexp) (s : gostring) : list gostring :=
  match matchAt r s with
  | Some (rest, _) => [[]; rest]
  | None =>
      match s with
      | [] => [[]]
      | c :: s' =>
          match Split2 r s' with
          | p :: ps => (c :: p) :: ps
          | [] => [[c]]
          end
      end
  end.

(** *** Pattern syntax *)

(** A literal word. *)
Definition lit (w : gostring) : Regexp :=
  fold_right (fun c r => Seq (Lit c) r) Eps w.

Definition isUpper (c : ascii) : bool :=
  (65 <=? nat_of_ascii c) && (nat_of_ascii c <=? 90).
Definition isLower (c : ascii) : bool :=
  (97 <=? nat_of_ascii c) && (nat_of_ascii c <=? 122).
Definition toLower (c : ascii) : ascii :=
  if isUpper c then ascii_of_nat (nat_of_ascii c + 32) else c.
Definition toUpper (c : ascii) : ascii :=
  if isLower c then ascii_of_nat (nat_of_ascii c - 32) else c.

(** One character under the [(?i)] flag.  Go folds case with Unicode
    simple folding: a letter matches both of its ASCII cases, and besides
    [s] matches U+017F (bytes C5 BF) and [k] matches U+212A (bytes
    E2 84 AA). *)
Definition foldLit (c : ascii) : Regexp :=
  let both := Cls (fun x => Ascii.eqb (toLower x) (toLower c)) in
  if Ascii.eqb (toLower c) "s"%char then
    Alt both (Seq (Lit "197"%char) (Lit "191"%char))
  else if Ascii.eqb (toLower c) "k"%char then
    Alt both (Seq (Lit "226"%char) (Seq (Lit "132"%char) (Lit "170"%char)))
  else if isUpper c || isLower c then both
  else Lit c.

(** A literal word under the [(?i)] flag. *)
Definition liti (w : gostring) : Regexp :=
  fold_right (fun c r => Seq (foldLit c) r) Eps w.

(** [.]: any character but a line feed. *)
Definition dot (c : ascii) : bool := negb (Ascii.eqb c LF).
(** [\d] and [[0-9]]. *)
Definition digit (c : ascii) : bool :=
  (48 <=? nat_of_ascii c) && (nat_of_ascii c <=? 57).
(** [[0-9a-fA-F]]. *)
Definition hexdigit (c : ascii) : bool :=
  digit c
  || ((97 <=? nat_of_ascii c) && (nat_of_ascii c <=? 102))
  || ((65 <=? nat_of_ascii c) && (nat_of_ascii c <=? 70)).

(** [x+] and [x+?] for a class [x]. *)
Definition plus (greedy : bool) (p : ascii -> bool) : Regexp :=
  Seq (Cls p) (Star greedy p).

End regexp.

Import regexp.

(** ** html_converter.go *)

(** The value of a decimal or hexadecimal digit. *)
Definition digitValue (c : ascii) : N :=
  let n := N_of_ascii c in
  if digit c then n - 48
  else if (97 <=? n)%N then n - 87
  else n - 55.

Definition parseNumber (base : N) (tok : gostring) : N :=
  fold_left (fun acc c => acc * base + digitValue c)%N tok 0%N.

Definition maxInt64 : N := 9223372036854775807.

(** [fmt.Sscanf(tok, "%d", &code)] and [fmt.Sscanf(tok, "%x", &code)] on
    a token made of digits only: the value, or [None] when it does not
    fit the 64-bit [int] (the scan then returns an error). *)
Definition Sscanf_int (base : N) (tok : gostring) : option N :=
  let v := parseNumber base tok in
  if (v <=? maxInt64)%N then Some v else None.

(** [rune(code)] keeps the low 32 bits, read as a signed number; a rune is
    valid when it is a Unicode scalar value. *)
Definition validRune (code : N) : option N :=
  let r := (code mod 4294967296)%N in
  if (r <=? 1114111)%N && negb ((55296 <=? r)%N && (r <=? 57343)%N)
  then Some r else None.

Definition byteOf (n : N) : ascii := ascii_of_N n.

(** UTF-8 encoding of a valid rune. *)
Definition encodeRune (r : N) : gostring :=
  if (r <? 128)%N then [byteOf r]
  else if (r <? 2048)%N then
    [byteOf (192 + r / 64); byteOf (128 + r mod 64)]
  else if (r <? 65536)%N then
    [byteOf (224 + r / 4096); byteOf (128 + (r / 64) mod 64);
     byteOf (128 + r mod 64)]
  else
    [byteOf (240 + r / 262144); byteOf (128 + (r / 4096) mod 64);
     byteOf (128 + (r / 64) mod 64); byteOf (128 + r mod 64)].

(** [string(rune(code))]: an invalid rune becomes U+FFFD. *)
Definition stringOfRune (code : N) : gostring :=
  match validRune code with
  | Some r => encodeRune r
  | None => encodeRune 65533
  end.

(** The table [replacements] of [restoreHTMLEntity], in the order of the
    source text. *)
Definition replacements : list (gostring * gostring) :=
  [ (b "&amp;",    b "&");
    (b "&lt;",     b "<");
    (b "&gt;",     b ">");
    (b "&quot;",   [DQUOTE]);
    (b "&apos;",   b "'");
    (b "&nbsp;",   b " ");
    (b "&#39;",    b "'");
    (b "&#34;",    [DQUOTE]);
    (b "&hellip;", b "…");
    (b "&mdash;",  b "—");
    (b "&ndash;",  b "–");
    (b "&lsquo;",  b "'");
    (b "&rsquo;",  b "'");
    (b "&ldquo;",  b "“");
    (b "&rdquo;",  b "”") ].

(** [&#(\d+);] *)
Definition reDec : Regexp :=
  Seq (lit (b "&#")) (Seq (Group (plus true digit)) (Lit ";"%char)).
(** [&#x([0-9a-fA-F]+);] *)
Definition reHex : Regexp :=
  Seq (lit (b "&#x")) (Seq (Group (plus true hexdigit)) (Lit ";"%char)).

(** The callback of the two numeric passes: [matches[1]] is scanned in the
    given base; a failed scan returns the match unchanged. *)
Definition numericRef (re : Regexp) (base : N) (match_ : gostring) : gostring :=
  match FindStringSubmatch re match_ with
  | Some (_, Some digits) =>
      match Sscanf_int base digits with
      | Some code => stringOfRune code
      | None => match_
      end
  | _ => match_
  end.

(** [restoreHTMLEntity].  [replacements] is a Go map, and
    [for entity, char := range replacements] visits its entries in an order
    that the language leaves unspecified and the runtime randomises:
    [order] is the order of one run, a permutation of [replacements]. *)
Definition restoreHTMLEntity (order : list (gostring * gostring))
           (text : gostring) : gostring :=
  let result :=
    fold_left (fun result ec => strings.ReplaceAll result (fst ec) (snd ec))
              order text in
  let result := ReplaceAllStringFunc reDec result (numericRef reDec 10) in
  let result := ReplaceAllStringFunc reHex result (numericRef reHex 16) in
  result.

(** [type HTMLConverter struct]; [illustGrepPattern] is a pointer, [None]
    is [nil]. *)
Record HTMLConverter := mkHTMLConverter {
  text : gostring;
  stripDecorationTag : bool;
  illustCurrentURL : gostring;
  illustGrepPattern : option Regexp
}.

(** [<img.+?src="(?P<src>.+?)".*?>] *)
Definition defaultIllustPattern : Regexp :=
  Seq (lit (b "<img"))
  (Seq (plus false dot)
  (Seq (lit (b "src="))
  (Seq (Lit DQUOTE)
  (Seq (Group (plus false dot))
  (Seq (Lit DQUOTE)
  (Seq (Star false dot) (Lit ">"%char))))))).

Definition NewHTMLConverter (text : gostring) : HTMLConverter :=
  {| text := text;
     stripDecorationTag := false;
     illustCurrentURL := [];
     illustGrepPattern := Some defaultIllustPattern |}.

Definition SetStripDecorationTag (h : HTMLConverter) (strip : bool) : HTMLConverter :=
  {| text := text h;
     stripDecorationTag := strip;
     illustCurrentURL := illustCurrentURL h;
     illustGrepPattern := illustGrepPattern h |}.

(** The patterns of the passes. *)
Definition isCRLF (c : ascii) : bool := Ascii.eqb c CR || Ascii.eqb c LF.
(** [[\r\n]+] *)
Definition reNewlines : Regexp := plus true isCRLF.
(** [<br.*?>] *)
Definition reBr : Regexp := Seq (lit (b "<br")) (Seq (Star false dot) (Lit ">"%char)).
(** [(?i)\n?</p>] *)
Definition reP : Regexp := Seq (Opt (Lit LF)) (liti (b "</p>")).
(** [(?i)<ruby>(.+?)</ruby>] *)
Definition reRuby : Regexp :=
  Seq (liti (b "<ruby>")) (Seq (Group (plus false dot)) (liti (b "</ruby>"))).
(** [(?i)<rt>] and [(?i)<rp>] *)
Definition reRt : Regexp := liti (b "<rt>").
Definition reRp : Regexp := liti (b "<rp>").
(** [<em class="emphasisDots">(.+?)</em>] *)
Definition reEm : Regexp :=
  Seq (lit (b "<em class="))
  (Seq (Lit DQUOTE)
  (Seq (lit (b "emphasisDots"))
  (Seq (Lit DQUOTE)
  (Seq (Lit ">"%char)
  (Seq (Group (plus false dot)) (lit (b "</em>"))))))).
(** [<.+?>] *)
Definition reTag : Regexp := Seq (Lit "<"%char) (Seq (plus false dot) (Lit ">"%char)).

Section Converter.

(** [regexp.Compile]: the compiled pattern, or [None] for a pattern
    that is not valid syntax. *)
Variable Compile : gostring -> option Regexp.

(** The two calls of package [net/url] in [imgToAozora],
    [url.Parse(base)] then [baseURL.Parse(src)]: the resolved reference
    [imgURL.String()], or [None] when either call fails. *)
Variable resolveReference : gostring -> gostring -> option gostring.

(** The error of [SetIllustSetting], ["invalid grep pattern: ..."], which
    wraps the compiler's error. *)
Inductive SetIllustError := InvalidGrepPattern (grepPattern : gostring).

(** [SetIllustSetting]: the converter after the call and the returned
    error ([None] is [nil]).  The base URL is assigned first. *)
Definition SetIllustSetting (h : HTMLConverter) (currentURL grepPattern : gostring)
  : HTMLConverter * option SetIllustError :=
  let h1 := {| text := text h;
               stripDecorationTag := stripDecorationTag h;
               illustCurrentURL := currentURL;
               illustGrepPattern := illustGrepPattern h |} in
  match grepPattern with
  | _ :: _ =>
      match Compile grepPattern with
      | None => (h1, Some (InvalidGrepPattern grepPattern))
      | Some pattern =>
          ({| text := text h1;
              stripDecorationTag := stripDecorationTag h1;
              illustCurrentURL := illustCurrentURL h1;
              illustGrepPattern := Some pattern |}, None)
      end
  | [] => (h1, None)
  end.

Definition brToAozora (text : gostring) : gostring :=
  let text := ReplaceAllString reNewlines text [] in
  ReplaceAllString reBr text [TText [LF]].

Definition pToAozora (text : gostring) : gostring :=
  ReplaceAllString reP text [TText [LF]].

Definition deleteTag (text : gostring) : gostring :=
  ReplaceAllString reTag text [].

(** The callback of [rubyToAozora].  It is only called on a match of
    [reRuby], so that [FindStringSubmatch] finds the group again (Go
    would panic on [nil[1]]). *)
Definition rubyReplace (match_ : gostring) : gostring :=
  let rubyContent :=
    match FindStringSubmatch reRuby match_ with
    | Some (_, Some g) => g
    | _ => []
    end in
  match Split2 reRt rubyContent with
  | part0 :: part1 :: _ =>
      let rubyBase := deleteTag (hd [] (Split2 reRp part0)) in
      let rubyText := deleteTag (hd [] (Split2 reRp part1)) in
      b "｜" ++ rubyBase ++ b "《" ++ rubyText ++ b "》"
  | parts => deleteTag (hd [] parts)
  end.

Definition rubyToAozora (text : gostring) : gostring :=
  let text := strings.ReplaceAll text (b "《") (b "≪") in
  let text := strings.ReplaceAll text (b "》") (b "≫") in
  ReplaceAllStringFunc reRuby text rubyReplace.

Definition bToAozora (text : gostring) : gostring :=
  let text := ReplaceAllString (liti (b "<b>")) text [TText (b "［＃太字］")] in
  ReplaceAllString (liti (b "</b>")) text [TText (b "［＃太字終わり］")].

Definition iToAozora (text : gostring) : gostring :=
  let text := ReplaceAllString (liti (b "<i>")) text [TText (b "［＃斜体］")] in
  ReplaceAllString (liti (b "</i>")) text [TText (b "［＃斜体終わり］")].

Definition sToAozora (text : gostring) : gostring :=
  let text := ReplaceAllString (liti (b "<s>")) text [TText (b "［＃取消線］")] in
  ReplaceAllString (liti (b "</s>")) text [TText (b "［＃取消線終わり］")].

(** The callback of [imgToAozora]. *)
Definition imgReplace (h : HTMLConverter) (pattern : Regexp) (match_ : gostring) : gostring :=
  match FindStringSubmatch pattern match_ with
  | Some (_, g) =>
      if NumSubexp pattern <? 1 then match_
      else
        let src := match g with Some x => x | None => [] end in
        let src :=
          match illustCurrentURL h with
          | [] => src
          | _ :: _ =>
              match resolveReference (illustCurrentURL h) src with
              | Some u => u
              | None => src
              end
          end in
        b "［＃挿絵（" ++ src ++ b "）入る］"
  | None => match_
  end.

Definition imgToAozora (h : HTMLConverter) (text : gostring) : gostring :=
  match illustGrepPattern h with
  | None => text
  | Some pattern => ReplaceAllStringFunc pattern text (imgReplace h pattern)
  end.

Definition emToSesame (text : gostring) : gostring :=
  ReplaceAllString reEm text
    [TText (b "［＃傍点］"); TGroup1; TText (b "［＃傍点終わり］")].

(** [ToAozora]; [order] is the iteration order of the entity table in
    this run (see [restoreHTMLEntity]). *)
Definition ToAozora (order : list (gostring * gostring))
           (h : HTMLConverter) (preHTML : bool) : gostring :=
  let text := text h in
  let text := if negb preHTML then brToAozora text else text in
  let text := pToAozora text in
  let text := rubyToAozora text in
  let text := if negb (stripDecorationTag h)
              then sToAozora (iToAozora (bToAozora text))
              else text in
  let text := imgToAozora h text in
  let text := emToSesame text in
  let text := deleteTag text in
  let text := restoreHTMLEntity order text in
  text.

End Converter.

(** ** app.go: file names and skip detection *)

(** Equality of two strings, [x == y]. *)
Fixpoint eqs (x y : gostring) : bool :=
  match x, y with
  | [], [] => true
  | c :: x', d :: y' => Ascii.eqb c d && eqs x' y'
  | _, _ => false
  end.

(** [strings.Split(s, sep)] for a one-byte separator. *)
Fixpoint Split (s : gostring) (sep : ascii) : list gostring :=
  match s with
  | [] => [[]]
  | c :: s' =>
      if Ascii.eqb c sep then [] :: Split s' sep
      else match Split s' sep with
           | p :: ps => (c :: p) :: ps
           | [] => [[c]]
           end
  end.

(** [strings.Join(elems, sep)]. *)
Fixpoint Join (elems : list gostring) (sep : gostring) : gostring :=
  match elems with
  | [] => []
  | [e] => e
  | e :: rest => e ++ sep ++ Join rest sep
  end.

(** [strings.ToUpper] on the ASCII words it is applied to. *)
Definition ToUpper (s : gostring) : gostring := map toUpper s.

(** [fmt.Sprintf("%d", n)] for a non-negative [n]. *)
Definition itoa (n : nat) : gostring :=
  b (DecimalString.NilZero.string_of_uint (Nat.to_uint n)).

Definition alnumLower (c : ascii) : bool := isLower c || digit c.

(** [/n([0-9]+[a-z]+)/] *)
Definition reNovelCode : Regexp :=
  Seq (lit (b "/n"))
  (Seq (Group (Seq (plus true digit) (plus true isLower))) (Lit "/"%char)).

(** [/n[0-9]+[a-z]+/([0-9]+)/?] *)
Definition reEpisode : Regexp :=
  Seq (lit (b "/n"))
  (Seq (plus true digit)
  (Seq (plus true isLower)
  (Seq (Lit "/"%char)
  (Seq (Group (plus true digit)) (Opt (Lit "/"%char)))))).

Definition extractNovelCodeFromURL (url : gostring) : gostring :=
  match FindStringSubmatch reNovelCode url with
  | Some (_, g) => b "N" ++ ToUpper (match g with Some x => x | None => [] end)
  | None =>
      let parts := Split url "/"%char in
      match find (fun part => strings.HasPrefix part (b "n")
                              && (1 <? length part)
                              && forallb alnumLower (tl part)) parts with
      | Some part => ToUpper part
      | None => b "UNKNOWN"
      end
  end.

(** The fallback loop of [extractEpisodeNumberFromURL] over
    [parts[i:]]. *)
Fixpoint episodeFromParts (parts : list gostring) : option gostring :=
  match parts with
  | [] => None
  | part :: rest =>
      let next :=
        match rest with
        | episodeNum :: _ =>
            if strings.HasPrefix part (b "n") && (1 <? length part)
               && negb (eqs episodeNum []) && negb (eqs episodeNum (b "/"))
               && forallb digit episodeNum
            then Some episodeNum else None
        | [] => None
        end in
      match next with
      | Some e => Some e
      | None => episodeFromParts rest
      end
  end.

Definition extractEpisodeNumberFromURL (url : gostring) : gostring :=
  match FindStringSubmatch reEpisode url with
  | Some (_, g) => match g with Some x => x | None => [] end
  | None =>
      match episodeFromParts (Split url "/"%char) with
      | Some e => e
      | None => b "1"
      end
  end.

Definition generateFileName (novelCode episodeNumber : gostring) : gostring :=
  novelCode ++ b "-" ++ episodeNumber.

Module ChapterInfo.
Record t := mk {
  Title : gostring;
  URL : gostring;
  Content : gostring;
  RawHTML : gostring;
  FullPageHTML : gostring;
  RetryCount : nat;
  Failed : bool
}.
End ChapterInfo.

Module ScrapeResult.
Record t := mk {
  PageType : gostring;
  Title : gostring;
  Author : gostring;
  RawHTML : list gostring;
  TextContent : list gostring;
  FullPageHTML : gostring;
  IndexPagesHTML : list gostring;
  Chapters : list ChapterInfo.t;
  Error : gostring
}.
End ScrapeResult.

(** ** The world of the orchestrator *)

(** The payload of a progress notification. *)
Inductive Progress :=
| Percent (n : nat)                 (* a constant *)
| ChapterShare (i total : nat).     (* int(float64(i)/float64(total)*80) *)

(** The effects of the orchestrator on its surroundings. *)
Inductive Event :=
| EmitProgress (p : Progress)       (* EventsEmit(ctx, "progress", p) *)
| EmitProgressText (t : gostring)   (* EventsEmit(ctx, "progressText", t) *)
| EmitLog (t : gostring)            (* EventsEmit(ctx, "log", t) *)
| LogPrintf (t : gostring)          (* log.Printf *)
| Sleep (seconds : nat)             (* time.Sleep *)
| ScrapeOnce (url : gostring) (ok : bool)  (* one scrapeChapterWithHTMLOnce *)
| Scraped (url : gostring) (ok : bool)     (* the return of ScrapeChapterWithHTML *)
| WriteFile (path : gostring) (ok : bool). (* os.WriteFile *)

(** [files p] tells that [os.Stat(p)] succeeds; [requests] and [writes]
    count the calls of [scrapeChapterWithHTMLOnce] and of [os.WriteFile]
    made so far; [trace] lists the effects, latest first. *)
Record World := mkWorld {
  files : gostring -> bool;
  requests : nat;
  writes : nat;
  trace : list Event
}.

(** Effectful code is a function of the world. *)
Definition M (A : Type) : Type := World -> A * World.
Definition ret {A} (x : A) : M A := fun w => (x, w).
Definition bind {A B} (c : M A) (k : A -> M B) : M B :=
  fun w => let (x, w') := c w in k x w'.
Notation "x <- c ;; k" := (bind c (fun x => k))
  (at level 61, c at next level, right associativity).
Notation "c ;;; k" := (bind c (fun _ => k))
  (at level 61, right associativity).

Definition emit (e : Event) : M unit :=
  fun w => (tt, {| files := files w; requests := requests w;
                   writes := writes w; trace := e :: trace w |}).

Definition when (c : bool) (m : M unit) : M unit := if c then m else ret tt.

(** [_, err := os.Stat(path); err == nil]. *)
Definition statOk (path : gostring) : M bool := fun w => (files w path, w).

Definition isOk {A B} (r : A + B) : bool :=
  match r with inl _ => true | inr _ => false end.

(** [const maxFailures = 3] of [downloadRensai], and [const maxRetries = 3]
    of [ScrapeChapterWithHTML] and of [saveTextFileWithRetry]. *)
Definition maxFailures : nat := 3.
Definition maxRetries : nat := 3.

Section Orchestrator.

(** The outside of the core.  [scrapeChapterWithHTMLOnce n url] is the
    result of the [n]-th request of the run (texts, or the error
    message); [osWriteFile n path data] is the error of the [n]-th
    write, if any; [filepathJoin] is [filepath.Join]; [encodeText] is
    the byte encoding chosen by [saveTextFile] (the data, or the
    encoder's error message); the last three are the text formatters of
    [app.go], which rest on Unicode tables ([\p{Han}], [TrimSpace]) and
    whose results the control flow never inspects. *)
Variable scrapeChapterWithHTMLOnce :
  nat -> gostring -> (gostring * gostring * gostring) + gostring.
Variable osWriteFile : nat -> gostring -> gostring -> option gostring.
Variable filepathJoin : list gostring -> gostring.
Variable encodeText : gostring -> gostring -> gostring + gostring.
Variable formatChapterContent : gostring -> gostring -> gostring -> gostring -> gostring.
Variable formatChapterContentForCombined : gostring -> gostring -> gostring.
Variable convertRubyToAozora : gostring -> gostring.

Definition scrapeOnce (url : gostring)
  : M ((gostring * gostring * gostring) + gostring) :=
  fun w =>
    let r := scrapeChapterWithHTMLOnce (requests w) url in
    (r, {| files := files w; requests := S (requests w);
           writes := writes w;
           trace := ScrapeOnce url (isOk r) :: trace w |}).

Definition WriteFileM (path data : gostring) : M (option gostring) :=
  fun w =>
    let r := osWriteFile (writes w) path data in
    let ok := match r with None => true | Some _ => false end in
    (r, {| files := (fun p => (ok && eqs p path) || files w p);
           requests := requests w; writes := S (writes w);
           trace := WriteFile path ok :: trace w |}).

(** The retry loop of [ScrapeChapterWithHTML], from attempt [retry] with
    [fuel] attempts left. *)
Fixpoint scrapeLoop (fuel retry : nat) (chapterURL lastErr : gostring)
  : M ((gostring * gostring * gostring) + gostring) :=
  match fuel with
  | O =>
      ret (inr (b "ChapterのHTML取得に" ++ itoa maxRetries ++ b "回失敗しました: "
                ++ chapterURL ++ b " - 最後のエラー: " ++ lastErr))
  | S fuel' =>
      when (0 <? retry)
        (emit (LogPrintf (b "ChapterのHTML取得をリトライします（" ++ itoa (retry + 1)
                          ++ b "/" ++ itoa maxRetries ++ b "回目）: " ++ chapterURL)) ;;;
         emit (Sleep retry)) ;;;
      r <- scrapeOnce chapterURL ;;
      match r with
      | inl x =>
          when (0 <? retry)
            (emit (LogPrintf (b "ChapterのHTML取得に成功しました（" ++ itoa (retry + 1)
                              ++ b "回目で成功）: " ++ chapterURL))) ;;;
          ret (inl x)
      | inr err =>
          emit (LogPrintf (b "ChapterのHTML取得に失敗しました（" ++ itoa (retry + 1)
                           ++ b "/" ++ itoa maxRetries ++ b "回目）: " ++ chapterURL
                           ++ b " - エラー: " ++ err)) ;;;
          scrapeLoop fuel' (S retry) chapterURL err
      end
  end.

Definition ScrapeChapterWithHTML (chapterURL : gostring)
  : M ((gostring * gostring * gostring) + gostring) :=
  r <- scrapeLoop maxRetries 0 chapterURL [] ;;
  emit (Scraped chapterURL (isOk r)) ;;;
  ret r.

Definition saveTextFile (savePath title content encoding lineEnding : gostring)
  : M (option gostring) :=
  let content := if eqs lineEnding (b "CR+LF")
                 then strings.ReplaceAll content [LF] [CR; LF]
                 else content in
  match encodeText encoding content with
  | inr err =>
      emit (EmitLog (b "Shift-JISエンコードエラー: " ++ err)) ;;;
      ret (Some (b "Shift-JISエンコードエラー: " ++ err))
  | inl txtData =>
      let baseFileName := filepathJoin [savePath; title] in
      r <- WriteFileM (baseFileName ++ b ".txt") txtData ;;
      match r with
      | Some err =>
          emit (EmitLog (b "TXTファイルの保存に失敗しました: " ++ err)) ;;;
          ret (Some (b "TXTファイルの保存に失敗しました: " ++ err))
      | None => ret None
      end
  end.

(** The retry loop of [saveTextFileWithRetry]. *)
Fixpoint saveLoop (fuel retry : nat)
         (savePath title content encoding lineEnding lastErr : gostring)
  : M (option gostring) :=
  match fuel with
  | O =>
      ret (Some (b "ファイル保存に" ++ itoa maxRetries ++ b "回失敗しました: " ++ title
                 ++ b " - 最後のエラー: " ++ lastErr))
  | S fuel' =>
      when (0 <? retry)
        (emit (EmitLog (b "ファイル保存をリトライします（" ++ itoa (retry + 1) ++ b "/"
                        ++ itoa maxRetries ++ b "回目）: " ++ title)) ;;;
         emit (Sleep 2)) ;;;
      r <- saveTextFile savePath title content encoding lineEnding ;;
      match r with
      | None =>
          when (0 <? retry)
            (emit (EmitLog (b "ファイル保存に成功しました（" ++ itoa (retry + 1)
                            ++ b "回目で成功）: " ++ title))) ;;;
          ret None
      | Some err =>
          emit (EmitLog (b "ファイル保存に失敗しました（" ++ itoa (retry + 1) ++ b "/"
                         ++ itoa maxRetries ++ b "回目）: " ++ title
                         ++ b " - エラー: " ++ err)) ;;;
          saveLoop fuel' (S retry) savePath title content encoding lineEnding err
      end
  end.

Definition saveTextFileWithRetry
           (savePath title content encoding lineEnding : gostring)
  : M (option gostring) :=
  saveLoop maxRetries 0 savePath title content encoding lineEnding [].

Definition isFileAlreadySaved (savePath fileName episodeNumber : gostring)
           (createHtml createTxt : bool) : M (bool * bool) :=
  htmlExists <-
    (if createHtml
     then statOk (filepathJoin [savePath; b "html"; episodeNumber ++ b ".html"])
     else ret true) ;;
  txtExists <-
    (if createTxt
     then statOk (filepathJoin [savePath; fileName ++ b ".txt"])
     else ret true) ;;
  ret (htmlExists, txtExists).

Definition shouldSkipEpisode (savePath fileName episodeNumber : gostring)
           (createHtml createTxt : bool) : M bool :=
  he <- isFileAlreadySaved savePath fileName episodeNumber createHtml createTxt ;;
  ret (fst he && snd he).

(** The state of the chapter loop of [downloadRensai]. *)
Record LoopState := mkLoopState {
  chapters : list ChapterInfo.t;        (* result.Chapters *)
  allChapterContents : list gostring;
  failedChapters : nat
}.

(** [result.Chapters[i]] with its three content fields assigned. *)
Fixpoint fillChapter (i : nat) (content rawHTML fullPageHTML : gostring)
         (cs : list ChapterInfo.t) : list ChapterInfo.t :=
  match cs, i with
  | [], _ => []
  | c :: cs', O =>
      ChapterInfo.mk (ChapterInfo.Title c) (ChapterInfo.URL c)
                     content rawHTML fullPageHTML
                     (ChapterInfo.RetryCount c) (ChapterInfo.Failed c) :: cs'
  | c :: cs', S i' => c :: fillChapter i' content rawHTML fullPageHTML cs'
  end.

(** The episode number computed at the head of the loop body: the one
    read from the URL, or the position when that one is empty or is
    ["1"] for a chapter that is not the first. *)
Definition episodeNumberAt (i : nat) (chapter : ChapterInfo.t) : gostring :=
  let episodeNumber := extractEpisodeNumberFromURL (ChapterInfo.URL chapter) in
  if eqs episodeNumber [] || ((0 <? i) && eqs episodeNumber (b "1"))
  then itoa (i + 1) else episodeNumber.

(** One pass through the body of the chapter loop: the state to go on
    with, or the error that [downloadRensai] returns at once. *)
Definition chapterStep (savePath : gostring) (result : ScrapeResult.t)
           (createHtml createTxt : bool) (encoding lineEnding : gostring)
           (novelCode : gostring) (totalChapters : nat)
           (i : nat) (chapter : ChapterInfo.t) (st : LoopState)
  : M (LoopState + gostring) :=
  emit (EmitProgress (ChapterShare i totalChapters)) ;;;
  emit (EmitProgressText (itoa i ++ b "/" ++ itoa totalChapters ++ b "話")) ;;;
  let episodeNumber := episodeNumberAt i chapter in
  let chapterFileName := generateFileName novelCode episodeNumber in
  skip <- shouldSkipEpisode savePath chapterFileName episodeNumber createHtml createTxt ;;
  if skip then
    emit (EmitLog (itoa (i + 1) ++ b "話: " ++ ChapterInfo.Title chapter
                   ++ b " はすでに保存済みです。スキップします。")) ;;;
    ret (inl st)
  else
    emit (EmitLog (itoa (i + 1) ++ b "話: " ++ ChapterInfo.Title chapter
                   ++ b " を取得中...")) ;;;
    r <- ScrapeChapterWithHTML (ChapterInfo.URL chapter) ;;
    match r with
    | inr err =>
        let failedChapters := S (failedChapters st) in
        emit (EmitLog (itoa (i + 1) ++ b "話の取得に失敗しました: " ++ err
                       ++ b " （失敗回数: " ++ itoa failedChapters ++ b "/"
                       ++ itoa maxFailures ++ b "）")) ;;;
        if maxFailures <=? failedChapters then
          ret (inr (b "Chapterの取得に" ++ itoa maxFailures
                    ++ b "回失敗したため、ダウンロードを停止します。最後のエラー: " ++ err))
        else
          ret (inl (mkLoopState (chapters st) (allChapterContents st) failedChapters))
    | inl (content, rawHTML, fullPageHTML) =>
        let chapterContentForCombined :=
          formatChapterContentForCombined (ChapterInfo.Title chapter) content in
        let st' := mkLoopState
                     (fillChapter i content rawHTML fullPageHTML (chapters st))
                     (allChapterContents st ++ [chapterContentForCombined])
                     0 in
        when (i <? totalChapters - 1)
          (emit (EmitLog (itoa (i + 1) ++ b "話取得完了。10秒待機中...")) ;;;
           emit (Sleep 10)) ;;;
        (if createTxt then
           let formattedContent :=
             formatChapterContent (ScrapeResult.Title result) (ScrapeResult.Author result)
                                  (ChapterInfo.Title chapter) content in
           e <- saveTextFileWithRetry savePath chapterFileName formattedContent
                                      encoding lineEnding ;;
           match e with
           | Some err => emit (EmitLog (itoa (i + 1) ++ b "話の保存に失敗しました: " ++ err))
           | None => ret tt
           end
         else ret tt) ;;;
        ret (inl st')
    end.

(** [for i, chapter := range result.Chapters], from index [i]. *)
Fixpoint chapterLoop (savePath : gostring) (result : ScrapeResult.t)
         (createHtml createTxt : bool) (encoding lineEnding : gostring)
         (novelCode : gostring) (totalChapters : nat)
         (i : nat) (rest : list ChapterInfo.t) (st : LoopState)
  : M (LoopState + gostring) :=
  match rest with
  | [] => ret (inl st)
  | chapter :: rest' =>
      r <- chapterStep savePath result createHtml createTxt encoding lineEnding
                       novelCode totalChapters i chapter st ;;
      match r with
      | inl st' =>
          chapterLoop savePath result createHtml createTxt encoding lineEnding
                      novelCode totalChapters (S i) rest' st'
      | inr err => ret (inr err)
      end
  end.

(** [downloadRensai]; the result is the returned error, [None] for
    [nil]. *)
Definition downloadRensai (savePath : gostring) (result : ScrapeResult.t)
           (createHtml createTxt : bool) (encoding lineEnding : gostring)
           (createCombined : bool) : M (option gostring) :=
  match ScrapeResult.Chapters result with
  | [] => ret (Some (b "エピソードが見つかりませんでした"))
  | first :: _ =>
      let totalChapters := length (ScrapeResult.Chapters result) in
      emit (EmitLog (itoa totalChapters ++ b "話を取得しました。ダウンロードを開始します...")) ;;;
      emit (EmitProgressText (b "0/" ++ itoa totalChapters ++ b "話")) ;;;
      let novelCode := extractNovelCodeFromURL (ChapterInfo.URL first) in
      r <- chapterLoop savePath result createHtml createTxt encoding lineEnding
                       novelCode totalChapters 0 (ScrapeResult.Chapters result)
                       (mkLoopState (ScrapeResult.Chapters result) [] 0) ;;
      match r with
      | inr err => ret (Some err)
      | inl st =>
          e <- (if createCombined && (0 <? length (allChapterContents st)) then
                  emit (EmitProgress (Percent 90)) ;;;
                  emit (EmitProgressText (b "連結ファイル作成中")) ;;;
                  emit (EmitLog (b "連結ファイルを作成中...")) ;;;
                  let combinedContent :=
                    convertRubyToAozora (ScrapeResult.Title result) ++ [LF]
                    ++ convertRubyToAozora (ScrapeResult.Author result) ++ [LF; LF; LF]
                    ++ Join (allChapterContents st)
                            ([LF; LF] ++ b "----------------" ++ [LF; LF; LF]) in
                  if createTxt then
                    e <- saveTextFileWithRetry savePath (b "all") combinedContent
                                               encoding lineEnding ;;
                    match e with
                    | Some err => ret (Some (b "連結TXTファイルの保存に失敗しました: " ++ err))
                    | None => ret None
                    end
                  else ret None
                else ret None) ;;
          match e with
          | Some err => ret (Some err)
          | None =>
              emit (EmitProgress (Percent 100)) ;;;
              emit (EmitProgressText (b "完了 (" ++ itoa totalChapters ++ b "/"
                                      ++ itoa totalChapters ++ b "話)")) ;;;
              emit (EmitLog (b "ダウンロードが完了しました")) ;;;
              ret None
          end
      end
  end.

End Orchestrator.

(** ** app.go: names of saved files, short novels and index URLs *)

(** [sanitizeFileName]: nine [strings.ReplaceAll] passes, then the name is
    cut to its first 100 bytes ([fileName[:100]]). *)
Definition sanitizeFileName (fileName : gostring) : gostring :=
  let fileName := strings.ReplaceAll fileName (b "/") (b "_") in
  let fileName := strings.ReplaceAll fileName (b "\") (b "_") in
  let fileName := strings.ReplaceAll fileName (b ":") (b "_") in
  let fileName := strings.ReplaceAll fileName (b "*") (b "_") in
  let fileName := strings.ReplaceAll fileName (b "?") (b "_") in
  let fileName := strings.ReplaceAll fileName [DQUOTE] (b "_") in
  let fileName := strings.ReplaceAll fileName (b "<") (b "_") in
  let fileName := strings.ReplaceAll fileName (b ">") (b "_") in
  let fileName := strings.ReplaceAll fileName (b "|") (b "_") in
  if 100 <? length fileName then firstn 100 fileName else fileName.

Section ShortNovel.

Variable osWriteFile : nat -> gostring -> gostring -> option gostring.
Variable filepathJoin : list gostring -> gostring.
Variable encodeText : gostring -> gostring -> gostring + gostring.
Variable formatChapterContent : gostring -> gostring -> gostring -> gostring -> gostring.

(** [downloadShort]; the result is the returned error, [None] for [nil].
    The block that saved the HTML file is commented out in the source, so
    that [createHtml] only takes part in the skip test. *)
Definition downloadShort (savePath : gostring) (result : ScrapeResult.t)
           (createHtml createTxt : bool) (encoding lineEnding originalURL : gostring)
  : M (option gostring) :=
  emit (EmitProgressText (b "短編小説処理中")) ;;;
  let novelCode := extractNovelCodeFromURL originalURL in
  let fileName := generateFileName novelCode (b "1") in
  skip <- shouldSkipEpisode filepathJoin savePath fileName (b "1") createHtml createTxt ;;
  if skip then
    emit (EmitLog (b "短編小説はすでに保存済みです。スキップします。")) ;;;
    emit (EmitProgress (Percent 100)) ;;;
    emit (EmitProgressText (b "完了（スキップ）")) ;;;
    ret None
  else
    e <- (if createTxt then
            let content := Join (ScrapeResult.TextContent result) [LF] in
            if eqs content [] then
              emit (EmitLog (b "本文を取得できませんでした")) ;;;
              ret (Some (b "本文を取得できませんでした"))
            else
              let formattedContent :=
                formatChapterContent (ScrapeResult.Title result)
                                     (ScrapeResult.Author result) [] content in
              saveTextFileWithRetry osWriteFile filepathJoin encodeText
                                    savePath fileName formattedContent encoding lineEnding
          else ret None) ;;
    match e with
    | Some err => ret (Some err)
    | None =>
        emit (EmitProgress (Percent 100)) ;;;
        emit (EmitProgressText (b "完了")) ;;;
        emit (EmitLog (b "ファイルの保存が完了しました")) ;;;
        ret None
    end.

End ShortNovel.

(** [re.FindStringSubmatch(s)] for a pattern anchored at both ends,
    [^r$]: the match starts at the head of [s], and the alternatives are
    tried in preference order until one ends at the end of [s].  The
    result is the capture of group 1. *)
Definition FindAnchored (r : Regexp) (s : gostring) : option Capture :=
  matchK r s None (fun s' g => match s' with
                               | [] => Some g
                               | _ :: _ => None
                               end).

(** [^(host/n[0-9]+[a-z]+)/([0-9]+)/?$], the pattern of
    [convertToIndexURL] for one host (the dots of the host are escaped in
    the source).  The second group is never read and is written without
    a capture. *)
Definition reEpisodeURL (host : gostring) : Regexp :=
  Seq (Group (Seq (lit host)
             (Seq (lit (b "/n")) (Seq (plus true digit) (plus true isLower)))))
  (Seq (Lit "/"%char) (Seq (plus true digit) (Opt (Lit "/"%char)))).

Definition convertToIndexURL (url : gostring) : gostring :=
  match FindAnchored (reEpisodeURL (b "https://ncode.syosetu.com")) url with
  | Some g => match g with Some x => x | None => [] end ++ b "/"
  | None =>
      match FindAnchored (reEpisodeURL (b "https://novel18.syosetu.com")) url with
      | Some g => match g with Some x => x | None => [] end ++ b "/"
      | None => url
      end
  end.

(** ** scraper.go: removeHTMLTags *)

(** [[^>]] *)
Definition notGt (c : ascii) : bool := negb (Ascii.eqb ">"%char c).

(** [<[^>]*>] *)
Definition reHTMLTag : Regexp :=
  Seq (Lit "<"%char) (Seq (Star true notGt) (Lit ">"%char)).

Definition removeHTMLTags (html : gostring) : gostring :=
  let text := ReplaceAllString reHTMLTag html [] in
  let text := strings.ReplaceAll text (b "&lt;") (b "<") in
  let text := strings.ReplaceAll text (b "&gt;") (b ">") in
  let text := strings.ReplaceAll text (b "&amp;") (b "&") in
  let text := strings.ReplaceAll text (b "&quot;") [DQUOTE] in
  let text := strings.ReplaceAll text (b "&nbsp;") (b " ") in
  text.

(** * Observations and sample inputs used by the statements *)

(** A resolver for runs without a base URL. *)
Definition noResolve (base src : gostring) : option gostring := None.

(** [strings.Contains(s, substr)]. *)
Fixpoint Contains (s substr : gostring) : bool :=
  strings.HasPrefix s substr ||
  match s with
  | [] => false
  | _ :: s' => Contains s' substr
  end.

(** Membership of one byte. *)
Definition hasByte (c : ascii) (s : gostring) : bool :=
  existsb (Ascii.eqb c) s.

(** A character of a pattern word that [(?i)] folds with its ASCII cases
    only: not an upper-case letter, and neither [s] nor [k]. *)
Definition simpleChar (c : ascii) : bool :=
  negb (isUpper c) && negb (Ascii.eqb c "s"%char) && negb (Ascii.eqb c "k"%char).

(** [x] is the tag [w] (a lower-case word) in some letter case. *)
Definition isTag (w x : gostring) : Prop := map toLower x = w.

(** [x] holds no occurrence of the tag [w] in any letter case. *)
Definition lacksTag (w x : gostring) : bool := negb (Contains (map toLower x) w).

(** An optional parenthesis part of a ruby span: nothing, or text that
    starts with [<rp>] in some letter case. *)
Definition rpPart (x : gostring) : bool :=
  match x with
  | [] => true
  | _ :: _ => strings.HasPrefix (map toLower x) (b "<rp>")
  end.

(** Every match of [r] takes at least one byte. *)
Fixpoint consumes (r : Regexp) : bool :=
  match r with
  | Lit _ | Cls _ => true
  | Seq r1 r2 => consumes r1 || consumes r2
  | Alt r1 r2 => consumes r1 && consumes r2
  | Group r1 => consumes r1
  | Eps | Opt _ | Star _ _ => false
  end.

(** Every match of [r] contains the byte [c]. *)
Fixpoint needs (c : ascii) (r : Regexp) : bool :=
  match r with
  | Lit c' => Ascii.eqb c' c
  | Seq r1 r2 => needs c r1 || needs c r2
  | Alt r1 r2 => needs c r1 && needs c r2
  | Group r1 => needs c r1
  | Eps | Cls _ | Opt _ | Star _ _ => false
  end.

(** The five reserved characters and their named entities. *)
Definition reserved : list (ascii * gostring) :=
  [ ("&"%char, b "&amp;"); ("<"%char, b "&lt;"); (">"%char, b "&gt;");
    (DQUOTE, b "&quot;"); ("'"%char, b "&apos;") ].

Definition reservedEntity (c : ascii) : option gostring :=
  option_map snd (find (fun p => Ascii.eqb (fst p) c) reserved).

(** The encoding of the round-trip property, in the words of the
    specification: each reserved character is replaced by its named
    entity. *)
Definition encodeEntities (s : gostring) : gostring :=
  flat_map (fun c => match reservedEntity c with
                     | Some e => e
                     | None => [c]
                     end) s.

(** The encoded text once the entities listed in [done] have been
    restored. *)
Definition partlyRestored (done : list gostring) (s : gostring) : gostring :=
  flat_map (fun c => match reservedEntity c with
                     | Some e => if existsb (eqs e) done then [c] else e
                     | None => [c]
                     end) s.

(** [x] and [old] differ at a position that both have. *)
Fixpoint clash (x old : gostring) : bool :=
  match x, old with
  | c :: x', d :: old' => negb (Ascii.eqb d c) || clash x' old'
  | _, _ => false
  end.

(** No occurrence of [old] can start inside [pre], whatever follows. *)
Fixpoint noStart (pre old : gostring) : bool :=
  match pre with
  | [] => true
  | _ :: pre' => clash pre old && noStart pre' old
  end.

(** A character that is not reserved. *)
Definition plain (c : ascii) : bool :=
  match reservedEntity c with
  | None => true
  | Some _ => false
  end.

(** The facts about one entry of the entity table that the round trip
    rests on: the entity is [&] followed by plain characters, and against
    each reserved character it is either that character's entity, mapped
    back to the character, or unable to start inside that entity. *)
Definition entryOk (ec : gostring * gostring) : bool :=
  match fst ec with
  | "&"%char :: name =>
      forallb plain name
      && forallb (fun p => (eqs (snd p) (fst ec) && eqs (snd ec) [fst p])
                           || (negb (eqs (snd p) (fst ec)) && noStart (snd p) (fst ec)))
                 reserved
  | _ => false
  end.

(** The text holds no entity that [restoreHTMLEntity] would decode: none
    of the table's named entities and no numeric character reference. *)
Definition entityFree (s : gostring) : bool :=
  forallb (fun ec => negb (Contains s (fst ec))) replacements
  && match FindStringSubmatch reDec s with None => true | Some _ => false end
  && match FindStringSubmatch reHex s with None => true | Some _ => false end.

(** The round-trip property as the specification words it. *)
Definition entity_round_trip : Prop :=
  forall (order : list (gostring * gostring)) (s : gostring),
    Permutation replacements order ->
    restoreHTMLEntity order (encodeEntities s) = s.

(** Idempotence on converted text as the specification words it. *)
Definition converted_text_is_stable : Prop :=
  forall (order : list (gostring * gostring)) (source : gostring),
    Permutation replacements order ->
    let converted := ToAozora noResolve order (NewHTMLConverter source) false in
    hasByte "<"%char converted = false ->
    ToAozora noResolve order (NewHTMLConverter converted) false = converted.

(** The world after the effects [evs] (latest first) that touch neither
    the files nor the counters. *)
Definition addTrace (evs : list Event) (w : World) : World :=
  {| files := files w; requests := requests w; writes := writes w;
     trace := evs ++ trace w |}.

(** The effects that led from [w] to [w'], latest first. *)
Definition newEvents (w w' : World) : list Event :=
  firstn (length (trace w') - length (trace w)) (trace w').

(** The results of the calls of [ScrapeChapterWithHTML] in a trace,
    latest first. *)
Fixpoint scrapeOutcomes (tr : list Event) : list bool :=
  match tr with
  | [] => []
  | Scraped _ ok :: tr' => ok :: scrapeOutcomes tr'
  | _ :: tr' => scrapeOutcomes tr'
  end.

(** The error with which [downloadRensai] stops after [maxFailures]
    failures. *)
Definition abortError (lastErr : gostring) : gostring :=
  b "Chapterの取得に" ++ itoa maxFailures
  ++ b "回失敗したため、ダウンロードを停止します。最後のエラー: " ++ lastErr.

(** [m] extends the trace, and its result and the outcomes of the fetches
    it made (latest first) satisfy [Q]. *)
Definition emits {A} (m : M A) (Q : A -> list bool -> Prop) : Prop :=
  forall w, exists evs,
    trace (snd (m w)) = evs ++ trace w /\ Q (fst (m w)) (scrapeOutcomes evs).

(** [m] makes no fetch. *)
Definition tame {A} (m : M A) : Prop := emits m (fun _ o => o = []).

(** What one pass of the loop body may do to the failure counter: skip
    (nothing fetched, state untouched), fetch with success (counter back
    to zero), or fetch with failure (counter incremented, and the run
    aborted when it reaches [maxFailures]). *)
Definition stepOutcome (st : LoopState) (r : LoopState + gostring) (o : list bool) : Prop :=
  (o = [] /\ r = inl st)
  \/ (o = [true] /\ exists st', r = inl st' /\ failedChapters st' = 0)
  \/ (o = [false] /\
      if maxFailures <=? S (failedChapters st)
      then exists lastErr, r = inr (abortError lastErr)
      else r = inl (mkLoopState (chapters st) (allChapterContents st)
                                (S (failedChapters st)))).

(** The number of failures at the head of a list of outcomes. *)
Fixpoint leadingFailures (l : list bool) : nat :=
  match l with
  | false :: l' => S (leadingFailures l')
  | _ => 0
  end.

(** Three failures in a row somewhere in a list of outcomes. *)
Fixpoint hasTriple (l : list bool) : bool :=
  match l with
  | [] => false
  | _ :: l' => (3 <=? leadingFailures l) || hasTriple l'
  end.

(** The effects of a skipped chapter, latest first. *)
Definition skipEvents (totalChapters i : nat) (chapter : ChapterInfo.t) : list Event :=
  [ EmitLog (itoa (i + 1) ++ b "話: " ++ ChapterInfo.Title chapter
             ++ b " はすでに保存済みです。スキップします。");
    EmitProgressText (itoa i ++ b "/" ++ itoa totalChapters ++ b "話");
    EmitProgress (ChapterShare i totalChapters) ].

(** The effects of a run of the loop that skips every chapter. *)
Fixpoint allSkipped (totalChapters i : nat) (rest : list ChapterInfo.t) : list Event :=
  match rest with
  | [] => []
  | chapter :: rest' =>
      allSkipped totalChapters (S i) rest' ++ skipEvents totalChapters i chapter
  end.

(** Sample collaborators: a request that always succeeds, a write that
    always succeeds, paths joined with a slash, the identity encoding and
    plain formatters. *)
Definition sampleScrape (n : nat) (url : gostring)
  : (gostring * gostring * gostring) + gostring := inl (b "text", [], []).
Definition failingScrape (n : nat) (url : gostring)
  : (gostring * gostring * gostring) + gostring := inr (b "timeout").
Definition sampleWrite (n : nat) (path data : gostring) : option gostring := None.
Definition sampleJoin (elems : list gostring) : gostring := Join elems (b "/").
Definition sampleEncode (encoding content : gostring) : gostring + gostring := inl content.
Definition sampleFormat4 (novelTitle author chapterTitle content : gostring) : gostring :=
  chapterTitle ++ [LF; LF] ++ content.
Definition sampleFormat2 (chapterTitle content : gostring) : gostring :=
  chapterTitle ++ [LF; LF] ++ content.
Definition sampleRuby (content : gostring) : gostring := content.

Definition sampleChapter (n : nat) : ChapterInfo.t :=
  ChapterInfo.mk (b "chapter " ++ itoa n)
                 (b "https://ncode.syosetu.com/n1234ab/" ++ itoa n ++ b "/")
                 [] [] [] 0 false.
Definition sampleResult (n : nat) : ScrapeResult.t :=
  ScrapeResult.mk (b "rensai") (b "title") (b "author") [] [] [] []
                  (map sampleChapter (seq 1 n)) [].

(** A world in which only the text file of the first chapter exists. *)
Definition sampleWorld : World :=
  mkWorld (fun p => eqs p (b "out/N1234AB-1.txt")) 0 0 [].

(** A compiler that knows one invalid pattern, [(] (missing closing
    parenthesis), and reads any other pattern as a literal word. *)
Definition sampleCompile (p : gostring) : option Regexp :=
  if eqs p (b "(") then None else Some (lit p).

(** The failed setter call as the specification words it: the error is
    returned and both the stored base URL and the stored pattern are as
    before. *)
Definition failed_setting_keeps_configuration : Prop :=
  forall (Compile : gostring -> option Regexp) (h : HTMLConverter)
         (currentURL grepPattern : gostring),
    Compile grepPattern = None ->
    let (h', err) := SetIllustSetting Compile h currentURL grepPattern in
    (grepPattern <> [] -> err <> None)
    /\ illustGrepPattern h' = illustGrepPattern h
    /\ illustCurrentURL h' = illustCurrentURL h.

(** ** Observations for the further properties *)

(** The bytes that [sanitizeFileName] replaces, and what it makes of one
    byte. *)
Definition unsafeBytes : gostring := b "/\:*?" ++ [DQUOTE] ++ b "<>|".
Definition sanitizeByte (c : ascii) : ascii :=
  if hasByte c unsafeBytes then "_"%char else c.

(** The bytes of the file names that the download loop builds: upper-case
    letters, digits and the hyphen. *)
Definition codeByte (c : ascii) : bool := isUpper c || digit c.
Definition nameByte (c : ascii) : bool := codeByte c || Ascii.eqb c "-"%char.

(** Every byte that a match of [r] consumes is in the class [P]. *)
Fixpoint within (P : ascii -> bool) (r : Regexp) : Prop :=
  match r with
  | Eps => True
  | Lit c => P c = true
  | Cls p | Star _ p => forall x, p x = true -> P x = true
  | Seq r1 r2 | Alt r1 r2 => within P r1 /\ within P r2
  | Opt r1 | Group r1 => within P r1
  end.

(** Every match of [r] begins with the byte [c]. *)
Fixpoint startsWith (c : ascii) (r : Regexp) : bool :=
  match r with
  | Lit c' => Ascii.eqb c' c
  | Seq r1 _ | Group r1 => startsWith c r1
  | Alt r1 r2 => startsWith c r1 && startsWith c r2
  | Eps | Cls _ | Opt _ | Star _ _ => false
  end.

(** A text that does not go on with a byte of the class [p]. *)
Definition stopsAt (p : ascii -> bool) (t : gostring) : bool :=
  match t with
  | [] => true
  | c :: _ => negb (p c)
  end.

(** The two hosts of the site. *)
Definition siteHosts : list gostring :=
  [b "https://ncode.syosetu.com"; b "https://novel18.syosetu.com"].

(** The rest of the text after the first [>], when it is met before any
    line feed. *)
Fixpoint tagEnd (t : gostring) : option gostring :=
  match t with
  | [] => None
  | c :: t' =>
      if Ascii.eqb ">"%char c then Some t'
      else if dot c then tagEnd t' else None
  end.

(** The rest of the text after the first [>]. *)
Fixpoint afterGt (t : gostring) : gostring :=
  match t with
  | [] => []
  | c :: t' => if Ascii.eqb ">"%char c then t' else afterGt t'
  end.

(** No [<] of the text is followed, however far, by a [>]. *)
Fixpoint noTagLeft (x : gostring) : bool :=
  match x with
  | [] => true
  | c :: x' => (negb (Ascii.eqb "<"%char c) || negb (hasByte ">"%char x')) && noTagLeft x'
  end.

(** No byte of [t] is, in lower case, a byte of the word [w]. *)
Definition foreign (w t : gostring) : bool :=
  forallb (fun x => negb (hasByte (toLower x) w)) t.

(** The tags of the decoration passes. *)
Definition decorationTags : list gostring :=
  [b "<b>"; b "</b>"; b "<i>"; b "</i>"; b "<s>"; b "</s>"].

(** The opening tag of an emphasis span. *)
Definition emOpen : gostring :=
  b "<em class=" ++ [DQUOTE] ++ b "emphasisDots" ++ [DQUOTE] ++ b ">".

(** The source of an illustration as [imgReplace] writes it: resolved
    against the base URL when one is set and the resolution succeeds. *)
Definition illustSource (resolveReference : gostring -> gostring -> option gostring)
           (h : HTMLConverter) (src : gostring) : gostring :=
  match illustCurrentURL h with
  | [] => src
  | _ :: _ =>
      match resolveReference (illustCurrentURL h) src with
      | Some u => u
      | None => src
      end
  end.

(** The seconds slept in a trace. *)
Fixpoint sleepSeconds (tr : list Event) : nat :=
  match tr with
  | [] => 0
  | Sleep n :: tr' => n + sleepSeconds tr'
  | _ :: tr' => sleepSeconds tr'
  end.


(** The error of [ScrapeChapterWithHTML] after [maxRetries] failures. *)
Definition scrapeError (chapterURL lastErr : gostring) : gostring :=
  b "ChapterのHTML取得に" ++ itoa maxRetries ++ b "回失敗しました: "
  ++ chapterURL ++ b " - 最後のエラー: " ++ lastErr.

(** The text file that [saveTextFile] writes for a title. *)
Definition textFilePath (filepathJoin : list gostring -> gostring)
           (savePath title : gostring) : gostring :=
  filepathJoin [savePath; title] ++ b ".txt".


(** The files that a download may create: text files of the save
    directory, named [all] or with upper-case letters, digits and
    hyphens only. *)
Definition downloadedFile (filepathJoin : list gostring -> gostring)
           (savePath p : gostring) : Prop :=
  exists name, p = textFilePath filepathJoin savePath name
               /\ (name = b "all" \/ forallb nameByte name = true).

(** What [m] may do to the world: at most [R] requests and [W] writes, no
    file removed, and only files in [created] added. *)
Definition footprint {A} (m : M A) (R W : nat) (created : gostring -> Prop) : Prop :=
  forall w,
    requests w <= requests (snd (m w)) <= requests w + R
    /\ writes w <= writes (snd (m w)) <= writes w + W
    /\ (forall p, files w p = true -> files (snd (m w)) p = true)
    /\ (forall p, files (snd (m w)) p = true -> files w p = true \/ created p).

(** Every result of [m] satisfies [Q]. *)
Definition returns {A} (m : M A) (Q : A -> Prop) : Prop :=
  forall w, Q (fst (m w)).

(** The errors of [downloadRensai]: no chapter in the list, three failed
    fetches in a row, or (with [createCombined] and [createTxt] set) the
    combined file could not be saved. *)
Definition rensaiError (result : ScrapeResult.t) (createTxt createCombined : bool)
           (e : gostring) : Prop :=
  (ScrapeResult.Chapters result = [] /\ e = b "エピソードが見つかりませんでした")
  \/ (exists lastErr, e = abortError lastErr)
  \/ (createTxt = true /\ createCombined = true
      /\ exists err, e = b "連結TXTファイルの保存に失敗しました: " ++ err).

(** The effects of a skipped short novel, latest first. *)
Definition shortSkipEvents : list Event :=
  [ EmitProgressText (b "完了（スキップ）");
    EmitProgress (Percent 100);
    EmitLog (b "短編小説はすでに保存済みです。スキップします。");
    EmitProgressText (b "短編小説処理中") ].

(** Sample inputs: a short novel with one block of text and one without
    text, a world without files, and a converter whose illustration
    pattern has no group. *)
Definition sampleShort : ScrapeResult.t :=
  ScrapeResult.mk (b "short") (b "title") (b "author") [] [b "text"] [] [] [] [].
Definition emptyShort : ScrapeResult.t :=
  ScrapeResult.mk (b "short") (b "title") (b "author") [] [] [] [] [] [].
Definition newWorld : World := mkWorld (fun _ => false) 0 0 [].
Definition sampleShortURL : gostring := b "https://ncode.syosetu.com/n1234ab/".
Definition groupless : HTMLConverter :=
  {| text := []; stripDecorationTag := false; illustCurrentURL := [];
     illustGrepPattern := Some (lit (b "<img>")) |}.

(** * Properties *)

Arguments b : simpl never.
Arguments itoa : simpl never.
Arguments extractEpisodeNumberFromURL : simpl never.
Arguments extractNovelCodeFromURL : simpl never.

(** ** The tests of the repository, run on the model *)

Example test_BrToAozora_basic :
  brToAozora (b "これは<br>テストです<br />") = b "これは" ++ [LF] ++ b "テストです" ++ [LF].
Proof. vm_compute. reflexivity. Qed.

Example test_BrToAozora_newlines :
  brToAozora (b "これは" ++ [LF] ++ b "<br>" ++ [LF] ++ b "テストです" ++ [CR; LF] ++ b "<br>")
  = b "これは" ++ [LF] ++ b "テストです" ++ [LF].
Proof. vm_compute. reflexivity. Qed.

Example test_RubyToAozora_basic :
  rubyToAozora (b "<ruby>漢字<rt>かんじ</rt></ruby>") = b "｜漢字《かんじ》".
Proof. vm_compute. reflexivity. Qed.

Example test_RubyToAozora_rp :
  rubyToAozora (b "<ruby><rb>漢字</rb><rp>（</rp><rt>かんじ</rt><rp>）</rp></ruby>")
  = b "｜漢字《かんじ》".
Proof. vm_compute. reflexivity. Qed.

Example test_RubyToAozora_no_rt :
  rubyToAozora (b "<ruby>漢字</ruby>") = b "漢字".
Proof. vm_compute. reflexivity. Qed.

Example test_RubyToAozora_brackets :
  rubyToAozora (b "これは《テスト》です") = b "これは≪テスト≫です".
Proof. vm_compute. reflexivity. Qed.

Example test_BToAozora_mixed_case :
  bToAozora (b "<B>太字1</B>と<b>太字2</b>")
  = b "［＃太字］太字1［＃太字終わり］と［＃太字］太字2［＃太字終わり］".
Proof. vm_compute. reflexivity. Qed.

Example test_ImgToAozora_basic :
  imgToAozora noResolve (NewHTMLConverter [])
    (b "<img src=" ++ [DQUOTE] ++ b "test.jpg" ++ [DQUOTE] ++ b " alt="
     ++ [DQUOTE] ++ b "テスト画像" ++ [DQUOTE] ++ b ">")
  = b "［＃挿絵（test.jpg）入る］".
Proof. vm_compute. reflexivity. Qed.

Example test_EmToSesame_basic :
  emToSesame (b "<em class=" ++ [DQUOTE] ++ b "emphasisDots" ++ [DQUOTE] ++ b ">重要</em>")
  = b "［＃傍点］重要［＃傍点終わり］".
Proof. vm_compute. reflexivity. Qed.

Example test_DeleteTag_basic :
  deleteTag (b "<p>これは<span>テスト</span>です</p>") = b "これはテストです".
Proof. vm_compute. reflexivity. Qed.

Example test_RestoreHTMLEntity_basic :
  restoreHTMLEntity replacements (b "&amp;&lt;&gt;&quot;&apos;") = b "&<>" ++ [DQUOTE] ++ b "'".
Proof. vm_compute. reflexivity. Qed.

Example test_RestoreHTMLEntity_numeric :
  restoreHTMLEntity replacements (b "&#65;&#66;&#67;") = b "ABC"
  /\ restoreHTMLEntity replacements (b "&#x41;&#x42;&#x43;") = b "ABC".
Proof. split; vm_compute; reflexivity. Qed.

Example test_ToAozora_entities :
  ToAozora noResolve replacements
    (NewHTMLConverter (b "<p>&quot;Hello&quot; &amp; &lt;World&gt;</p>" ++ [LF]
                       ++ b "<ruby>漢字<rt>かんじ</rt></ruby>")) false
  = [DQUOTE] ++ b "Hello" ++ [DQUOTE] ++ b " & <World>" ++ [LF] ++ b "｜漢字《かんじ》".
Proof. vm_compute. reflexivity. Qed.

Example test_ToAozora_strip :
  ToAozora noResolve replacements
    (SetStripDecorationTag (NewHTMLConverter (b "<p><b>太字</b>と<i>斜体</i></p>")) true) false
  = b "太字と斜体" ++ [LF].
Proof. vm_compute. reflexivity. Qed.

(** ** Line-break normalisation *)

(** C3 (the code at the failing input): [brToAozora] compiles [<br.*?>]
    without the [(?i)] flag that the sibling passes carry, so an
    upper-case line-break tag is not rewritten into a newline, while the
    lower-case one is, and while [pToAozora] does rewrite an upper-case
    [</P>]; in the full conversion the upper-case tag is then deleted and
    the line break is lost. *)
Theorem brToAozora_upper_case_tag_kept :
  brToAozora (b "a<BR>b") = b "a<BR>b"
  /\ brToAozora (b "a<br>b") = b "a" ++ [LF] ++ b "b"
  /\ pToAozora (b "a</P>b") = b "a" ++ [LF] ++ b "b"
  /\ ToAozora noResolve replacements (NewHTMLConverter (b "a<BR>b")) false = b "ab".
Proof. repeat split; vm_compute; reflexivity. Qed.

(** ** Determinism *)

(** C2 (the code at the failing input): the entity table is a Go map and
    its iteration order changes from run to run; on ["&amp;lt;"] the run
    that visits [&amp;] before [&lt;] returns ["<"] and the run that
    visits them the other way round returns ["&lt;"]. *)
Theorem ToAozora_depends_on_map_order :
  Permutation replacements (rev replacements)
  /\ ToAozora noResolve replacements (NewHTMLConverter (b "&amp;lt;")) false = b "<"
  /\ ToAozora noResolve (rev replacements) (NewHTMLConverter (b "&amp;lt;")) false = b "&lt;".
Proof.
  split; [apply Permutation_rev|].
  split; vm_compute; reflexivity.
Qed.

(** ** The illustration setting *)

(** C5, as stated, fails: [SetIllustSetting] assigns [illustCurrentURL]
    before it compiles the pattern, so the failed call has already
    replaced the stored base URL when it returns the error. *)
Lemma SetIllustSetting_failed_call_replaces_url :
  ~ failed_setting_keeps_configuration
  /\ (let h := fst (SetIllustSetting sampleCompile (NewHTMLConverter (b "x"))
                                      (b "https://example.com/a/") []) in
      let (h', err) := SetIllustSetting sampleCompile h (b "https://example.com/b/") (b "(") in
      err = Some (InvalidGrepPattern (b "("))
      /\ illustCurrentURL h = b "https://example.com/a/"
      /\ illustCurrentURL h' = b "https://example.com/b/").
Proof.
  split; [|vm_compute; auto].
  intros H.
  specialize (H sampleCompile (NewHTMLConverter (b "x")) (b "https://example.com/b/") (b "(")).
  vm_compute in H. destruct (H eq_refl) as [_ [_ Hurl]]. discriminate.
Qed.

(** C5, amended: a call of [SetIllustSetting] with a pattern that does
    not compile returns the error and leaves the stored compiled pattern
    (and the text and the decoration flag) as they were. *)
Theorem SetIllustSetting_invalid_pattern_keeps_pattern :
  forall (Compile : gostring -> option Regexp) (h : HTMLConverter)
         (currentURL grepPattern : gostring),
    grepPattern <> [] ->
    Compile grepPattern = None ->
    let (h', err) := SetIllustSetting Compile h currentURL grepPattern in
    err = Some (InvalidGrepPattern grepPattern)
    /\ illustGrepPattern h' = illustGrepPattern h
    /\ text h' = text h
    /\ stripDecorationTag h' = stripDecorationTag h.
Proof.
  intros Compile h currentURL grepPattern Hne Hc.
  unfold SetIllustSetting.
  destruct grepPattern as [|c p]; [contradiction|].
  rewrite Hc. simpl. auto.
Qed.

Lemma SetIllustSetting_invalid_pattern_keeps_pattern_witness :
  let h := NewHTMLConverter (b "x") in
  let (h', err) := SetIllustSetting sampleCompile h (b "https://example.com/novel/") (b "(") in
  err = Some (InvalidGrepPattern (b "("))
  /\ illustGrepPattern h' = illustGrepPattern h
  /\ text h' = text h
  /\ stripDecorationTag h' = stripDecorationTag h.
Proof.
  apply (SetIllustSetting_invalid_pattern_keeps_pattern sampleCompile
           (NewHTMLConverter (b "x")) (b "https://example.com/novel/") (b "(")).
  - discriminate.
  - reflexivity.
Defined.

(** ** The matcher and the replacement loops *)

Lemma hasByte_false (c : ascii) (s : gostring) :
  hasByte c s = false <-> ~ In c s.
Proof.
  unfold hasByte. induction s as [|x s IH]; simpl.
  - split; auto.
  - rewrite orb_false_iff, IH. split.
    + intros [Hx Hs] [->|Hin]; [now rewrite Ascii.eqb_refl in Hx | auto].
    + intros H. split.
      * destruct (Ascii.eqb c x) eqn:E; [|reflexivity].
        apply Ascii.eqb_eq in E. subst. exfalso. auto.
      * intros Hin. auto.
Qed.

Lemma hasByte_app (c : ascii) (s t : gostring) :
  hasByte c (s ++ t) = hasByte c s || hasByte c t.
Proof. unfold hasByte. apply existsb_app. Qed.

Lemma HasPrefix_true (s p : gostring) :
  strings.HasPrefix s p = true <-> exists t, s = p ++ t.
Proof.
  revert s. induction p as [|c p IH]; intros s; simpl.
  - split; [intros _; now exists s | reflexivity].
  - destruct s as [|d s].
    + split; [discriminate | intros [t Ht]; discriminate].
    + rewrite andb_true_iff, Ascii.eqb_eq, IH. split.
      * intros [-> [t ->]]. now exists t.
      * intros [t Ht]. injection Ht as -> ->. split; [reflexivity | now exists t].
Qed.

Lemma Contains_false (s old : gostring) :
  Contains s old = false ->
  forall p t, s = p ++ t -> strings.HasPrefix t old = false.
Proof.
  induction s as [|c s IH]; intros H p t E; simpl in H; apply orb_false_iff in H.
  - destruct p; [|discriminate]. simpl in E. subst t. apply H.
  - destruct p as [|d p]; simpl in E.
    + subst t. apply H.
    + injection E as -> E. apply (IH (proj2 H) p t E).
Qed.

Lemma replaceFrom_nomatch (old new s : gostring) :
  (forall p t, s = p ++ t -> strings.HasPrefix t old = false) ->
  strings.replaceFrom old new 0 s = s.
Proof.
  induction s as [|c s IH]; intros H; simpl; [reflexivity|].
  change (match old with
          | [] => true
          | p :: prefix' => Ascii.eqb p c && strings.HasPrefix s prefix'
          end) with (strings.HasPrefix (c :: s) old).
  rewrite (H [] (c :: s) eq_refl). f_equal. apply IH.
  intros p t E. apply (H (c :: p) t). now rewrite E.
Qed.

Lemma ReplaceAll_absent (s old new : gostring) :
  Contains s old = false -> strings.ReplaceAll s old new = s.
Proof.
  intros H. unfold strings.ReplaceAll. destruct old; [reflexivity|].
  apply replaceFrom_nomatch. now apply Contains_false.
Qed.

Section MatcherFacts.

Lemma starK_inv {A} (greedy : bool) (p : ascii -> bool) (s : gostring)
      (k : gostring -> option A) (x : A) :
  starK greedy p s k = Some x ->
  exists u s', s = u ++ s' /\ k s' = Some x.
Proof.
  revert x. induction s as [|c s IH]; intros x H.
  - exists [], []. split; [reflexivity|].
    destruct greedy; simpl in H; [exact H|].
    destruct (k []); [exact H | discriminate].
  - destruct greedy; simpl in H.
    + destruct (p c).
      * destruct (starK true p s k) as [y|] eqn:E.
        -- injection H as ->. destruct (IH x eq_refl) as [u [s' [-> Hk]]].
           exists (c :: u), s'. now split.
        -- exists [], (c :: s). now split.
      * exists [], (c :: s). now split.
    + destruct (k (c :: s)) as [y|] eqn:E.
      * exists [], (c :: s). split; [reflexivity | congruence].
      * destruct (p c); [|discriminate].
        destruct (IH x H) as [u [s' [-> Hk]]].
        exists (c :: u), s'. now split.
Qed.

Lemma matchK_inv {A} (r : Regexp) :
  forall (s : gostring) (g : Capture) (k : gostring -> Capture -> option A) (x : A),
    matchK r s g k = Some x ->
    exists u s' g', s = u ++ s' /\ k s' g' = Some x
                    /\ (consumes r = true -> u <> []).
Proof.
  induction r as [ | c | p | r1 IH1 r2 IH2 | r1 IH1 r2 IH2 | r1 IH1 | gr p | r1 IH1 ];
    intros s g k x H; simpl in H.
  - exists [], s, g. repeat split; auto. discriminate.
  - destruct s as [|c' s]; [discriminate|].
    destruct (Ascii.eqb c c'); [|discriminate].
    exists [c'], s, g. repeat split; auto. discriminate.
  - destruct s as [|c' s]; [discriminate|].
    destruct (p c'); [|discriminate].
    exists [c'], s, g. repeat split; auto. discriminate.
  - destruct (IH1 _ _ _ _ H) as [u1 [s1 [g1 [-> [H1 C1]]]]].
    destruct (IH2 _ _ _ _ H1) as [u2 [s2 [g2 [-> [H2 C2]]]]].
    exists (u1 ++ u2), s2, g2. split; [now rewrite app_assoc|].
    split; [exact H2|]. simpl. intros C. apply orb_true_iff in C.
    intros E. apply app_eq_nil in E. destruct E as [E1 E2].
    destruct C as [C|C]; [now apply C1 | now apply C2].
  - destruct (matchK r1 s g k) as [y|] eqn:E.
    + injection H as ->. destruct (IH1 _ _ _ _ E) as [u [s' [g' [-> [H1 C1]]]]].
      exists u, s', g'. repeat split; auto. simpl. intros C.
      apply andb_true_iff in C. now apply C1.
    + destruct (IH2 _ _ _ _ H) as [u [s' [g' [-> [H2 C2]]]]].
      exists u, s', g'. repeat split; auto. simpl. intros C.
      apply andb_true_iff in C. now apply C2.
  - destruct (matchK r1 s g k) as [y|] eqn:E.
    + injection H as ->. destruct (IH1 _ _ _ _ E) as [u [s' [g' [-> [H1 _]]]]].
      exists u, s', g'. repeat split; auto. discriminate.
    + exists [], s, g. repeat split; auto. discriminate.
  - destruct (starK_inv _ _ _ _ _ H) as [u [s' [-> Hk]]].
    exists u, s', g. repeat split; auto. discriminate.
  - destruct (IH1 _ _ _ _ H) as [u [s' [g' [-> [H1 C1]]]]].
    eexists u, s', _. repeat split; [exact H1 | exact C1].
Qed.

Lemma matchAt_inv (r : Regexp) (s rest : gostring) (g : Capture) :
  matchAt r s = Some (rest, g) ->
  exists u, s = u ++ rest /\ (consumes r = true -> u <> []).
Proof.
  intros H. destruct (matchK_inv _ _ _ _ _ H) as [u [s' [g' [-> [Hk C]]]]].
  injection Hk as -> _. now exists u.
Qed.

(** A pattern that needs a byte matches nothing in a text without it. *)
Lemma starK_none {A} (c : ascii) (greedy : bool) (p : ascii -> bool)
      (k : gostring -> option A) :
  (forall s', ~ In c s' -> k s' = None) ->
  forall s, ~ In c s -> starK greedy p s k = None.
Proof.
  intros Hk s. induction s as [|d s IH]; intros Hs.
  - destruct greedy; simpl; rewrite (Hk [] Hs); reflexivity.
  - assert (Hs' : ~ In c s) by (intros Hin; apply Hs; now right).
    destruct greedy; simpl; rewrite (Hk _ Hs), ?(IH Hs'); now destruct (p d).
Qed.

Lemma matchK_none {A} (c : ascii) (r : Regexp) :
  forall (s : gostring) (g : Capture) (k : gostring -> Capture -> option A),
    ~ In c s ->
    needs c r = true \/ (forall s' g', ~ In c s' -> k s' g' = None) ->
    matchK r s g k = None.
Proof.
  induction r as [ | c' | p | r1 IH1 r2 IH2 | r1 IH1 r2 IH2 | r1 IH1 | gr p | r1 IH1 ];
    intros s g k Hs H; simpl.
  - destruct H as [H|H]; [discriminate | now apply H].
  - destruct s as [|d s]; [reflexivity|].
    destruct (Ascii.eqb c' d) eqn:E; [|reflexivity].
    apply Ascii.eqb_eq in E. subst d. destruct H as [H|H].
    + simpl in H. apply Ascii.eqb_eq in H. subst c'. exfalso. apply Hs. now left.
    + apply H. intros Hin. apply Hs. now right.
  - destruct s as [|d s]; [reflexivity|].
    destruct (p d); [|reflexivity]. destruct H as [H|H]; [discriminate|].
    apply H. intros Hin. apply Hs. now right.
  - destruct H as [H|H].
    + simpl in H. apply orb_true_iff in H. destruct H as [H|H].
      * apply IH1; [exact Hs | now left].
      * apply IH1; [exact Hs | right]. intros s' g' Hs'.
        apply IH2; [exact Hs' | now left].
    + apply IH1; [exact Hs | right]. intros s' g' Hs'.
      apply IH2; [exact Hs' | now right].
  - destruct H as [H|H].
    + simpl in H. apply andb_true_iff in H. destruct H as [H1 H2].
      rewrite IH1; [|exact Hs | now left]. apply IH2; [exact Hs | now left].
    + rewrite IH1; [|exact Hs | now right]. apply IH2; [exact Hs | now right].
  - destruct H as [H|H]; [discriminate|].
    rewrite IH1; [|exact Hs | now right]. now apply H.
  - destruct H as [H|H]; [discriminate|].
    apply starK_none with (c := c); [|exact Hs]. intros s' Hs'. now apply H.
  - apply IH1; [exact Hs|]. destruct H as [H|H]; [now left | right].
    intros s' g' Hs'. now apply H.
Qed.

Lemma matchAt_needs (c : ascii) (r : Regexp) (s : gostring) :
  needs c r = true -> ~ In c s -> matchAt r s = None.
Proof. intros Hn Hs. apply matchK_none with (c := c); auto. Qed.

Variable r : Regexp.
Variable repl : gostring -> Capture -> gostring.

Lemma replaceAll_nomatch_cons (fresh : bool) (c : ascii) (s : gostring) :
  matchAt r (c :: s) = None ->
  replaceAll r repl 0 fresh (c :: s) = c :: replaceAll r repl 0 false s.
Proof. intros H. simpl. now rewrite H. Qed.

Lemma replaceAll_drop (u rest : gostring) (fresh : bool) :
  u <> [] ->
  replaceAll r repl (length u) fresh (u ++ rest) = replaceAll r repl 0 true rest.
Proof.
  revert fresh. induction u as [|c u IH]; intros fresh H; [contradiction|].
  simpl. destruct u as [|d u]; [reflexivity|].
  apply IH. discriminate.
Qed.

Lemma replaceAll_match (fresh : bool) (u rest : gostring) (g : Capture) :
  matchAt r (u ++ rest) = Some (rest, g) ->
  u <> [] ->
  replaceAll r repl 0 fresh (u ++ rest) = repl u g ++ replaceAll r repl 0 true rest.
Proof.
  intros H Hu. destruct u as [|c u]; [contradiction|].
  assert (Hlen : length (c :: u ++ rest) - length rest = S (length u))
    by (change (c :: u ++ rest) with ((c :: u) ++ rest);
        rewrite length_app; cbn [length]; lia).
  change ((c :: u) ++ rest) with (c :: (u ++ rest)) in *.
  cbn [replaceAll]. rewrite H, Hlen. unfold consumed. rewrite Hlen.
  change (S (length u)) with (length (c :: u)).
  change (c :: u ++ rest) with ((c :: u) ++ rest).
  rewrite firstn_app, firstn_all, Nat.sub_diag. simpl firstn. rewrite app_nil_r.
  f_equal.
  destruct u as [|d u]; [reflexivity|].
  apply (replaceAll_drop (d :: u) rest true). discriminate.
Qed.

Lemma replaceAll_fresh (s : gostring) (f1 f2 : bool) :
  consumes r = true ->
  replaceAll r repl 0 f1 s = replaceAll r repl 0 f2 s.
Proof.
  intros C. destruct s as [|c s]; cbn [replaceAll].
  - destruct (matchAt r []) as [[rest g]|] eqn:E; [|reflexivity].
    destruct (matchAt_inv _ _ _ _ E) as [u [Hu Hne]].
    destruct u; [now elim (Hne C) | discriminate].
  - destruct (matchAt r (c :: s)) as [[rest g]|] eqn:E; [|reflexivity].
    destruct (matchAt_inv _ _ _ _ E) as [u [Hu Hne]].
    rewrite Hu, length_app.
    destruct u as [|d u]; [now elim (Hne C)|].
    replace (length (d :: u) + length rest - length rest) with (S (length u))
      by (cbn [length]; lia).
    reflexivity.
Qed.

Lemma replaceAll_prefix (pre rest : gostring) (fresh : bool) :
  consumes r = true ->
  (forall p c t, pre = p ++ c :: t -> matchAt r (c :: t ++ rest) = None) ->
  replaceAll r repl 0 fresh (pre ++ rest) = pre ++ replaceAll r repl 0 fresh rest.
Proof.
  intros C. revert fresh. induction pre as [|c pre IH]; intros fresh H.
  - reflexivity.
  - simpl app. rewrite replaceAll_nomatch_cons by apply (H [] c pre eq_refl).
    f_equal. rewrite IH.
    + f_equal. now apply replaceAll_fresh.
    + intros p d t E. apply (H (c :: p) d t). now rewrite E.
Qed.

Lemma replaceAll_nomatch (s : gostring) (fresh : bool) :
  (forall p t, s = p ++ t -> matchAt r t = None) ->
  replaceAll r repl 0 fresh s = s.
Proof.
  revert fresh. induction s as [|c s IH]; intros fresh H.
  - simpl. now rewrite (H [] [] eq_refl).
  - rewrite replaceAll_nomatch_cons by apply (H [] _ eq_refl).
    f_equal. apply IH. intros p t E. apply (H (c :: p) t). now rewrite E.
Qed.

Lemma replaceAll_without (c : ascii) (s : gostring) (fresh : bool) :
  needs c r = true -> hasByte c s = false ->
  replaceAll r repl 0 fresh s = s.
Proof.
  intros Hn Hs. apply replaceAll_nomatch. intros p t E.
  apply matchAt_needs with (c := c); auto.
  apply hasByte_false. subst s. rewrite hasByte_app in Hs.
  now apply orb_false_iff in Hs.
Qed.

End MatcherFacts.

Lemma ReplaceAllString_without (c : ascii) (r : Regexp) (s : gostring)
      (tpl : list TemplateItem) :
  needs c r = true -> hasByte c s = false -> ReplaceAllString r s tpl = s.
Proof. intros. unfold ReplaceAllString. now apply replaceAll_without with (c := c). Qed.

Lemma ReplaceAllStringFunc_without (c : ascii) (r : Regexp) (s : gostring)
      (f : gostring -> gostring) :
  needs c r = true -> hasByte c s = false -> ReplaceAllStringFunc r s f = s.
Proof. intros. unfold ReplaceAllStringFunc. now apply replaceAll_without with (c := c). Qed.

(** The lazy repetition walks over a stretch of the input at no point of
    which the rest of the pattern matches. *)
Lemma starK_lazy_skip {A} (p : ascii -> bool) (u t : gostring)
      (k : gostring -> option A) :
  (forall v1 c v2, u = v1 ++ c :: v2 -> p c = true /\ k (c :: v2 ++ t) = None) ->
  starK false p (u ++ t) k = starK false p t k.
Proof.
  induction u as [|c u IH]; intros H; [reflexivity|].
  destruct (H [] c u eq_refl) as [Hp Hk].
  simpl app. simpl starK. rewrite Hk, Hp. apply IH.
  intros v1 d v2 E. apply (H (c :: v1) d v2). now rewrite E.
Qed.

Lemma starK_lazy_stop {A} (p : ascii -> bool) (t : gostring)
      (k : gostring -> option A) (x : A) :
  k t = Some x -> starK false p t k = Some x.
Proof. intros H. destruct t; simpl; now rewrite H. Qed.

Lemma hasByte_split (c : ascii) (u v1 v2 : gostring) (d : ascii) :
  hasByte c u = false -> u = v1 ++ d :: v2 -> Ascii.eqb c d = false.
Proof.
  intros H ->. rewrite hasByte_app in H. apply orb_false_iff in H.
  destruct H as [_ H]. unfold hasByte in H. simpl in H.
  now apply orb_false_iff in H.
Qed.

(** ** Residual tag stripping *)

Lemma matchAt_reTag_span (c0 : ascii) (body post : gostring) :
  hasByte LF (c0 :: body) = false ->
  hasByte ">"%char body = false ->
  matchAt reTag ("<"%char :: c0 :: body ++ ">"%char :: post) = Some (post, None).
Proof.
  intros Hlf Hgt. unfold matchAt, reTag, plus. cbn [matchK]. rewrite Ascii.eqb_refl.
  assert (H0 : dot c0 = true).
  { unfold dot. rewrite Ascii.eqb_sym.
    now rewrite (hasByte_split LF (c0 :: body) [] body c0 Hlf eq_refl). }
  rewrite H0.
  rewrite starK_lazy_skip.
  - apply starK_lazy_stop. cbn [matchK]. reflexivity.
  - intros v1 c v2 E. split.
    + unfold dot. rewrite Ascii.eqb_sym.
      now rewrite (hasByte_split LF (c0 :: body) (c0 :: v1) v2 c Hlf (f_equal (cons c0) E)).
    + cbn [matchK]. now rewrite (hasByte_split ">"%char body v1 v2 c Hgt E).
Qed.

Lemma matchAt_reTag_other (c : ascii) (s : gostring) :
  Ascii.eqb "<"%char c = false -> matchAt reTag (c :: s) = None.
Proof. intros H. unfold matchAt, reTag. cbn [matchK]. now rewrite H. Qed.

(** C4, as stated, fails: [.] does not match a line feed (the pattern
    [<.+?>] carries no [s] flag), so a span that crosses a newline is
    left in place. *)
Lemma deleteTag_keeps_span_across_newline :
  deleteTag (b "a<b" ++ [LF] ++ b "c>d") = b "a<b" ++ [LF] ++ b "c>d".
Proof. vm_compute. reflexivity. Qed.

(** C4, amended: [deleteTag] removes every span that starts at a [<],
    goes on with one or more characters other than a line feed, and ends
    at the first [>] met after the first of them; the text before the
    first [<] is copied, and the pass resumes right after the span. *)
Theorem deleteTag_removes_one_line_span :
  forall pre body post : gostring,
    hasByte "<"%char pre = false ->
    body <> [] ->
    hasByte LF body = false ->
    hasByte ">"%char (tl body) = false ->
    deleteTag (pre ++ b "<" ++ body ++ b ">" ++ post) = pre ++ deleteTag post.
Proof.
  intros pre body post Hpre Hne Hlf Hgt.
  destruct body as [|c0 body]; [contradiction|]. simpl tl in Hgt.
  unfold deleteTag, ReplaceAllString.
  rewrite replaceAll_prefix; [f_equal | reflexivity |].
  - replace (b "<" ++ (c0 :: body) ++ b ">" ++ post)
      with (("<"%char :: c0 :: body ++ [">"%char]) ++ post)
      by (unfold b; simpl; now rewrite <- app_assoc).
    rewrite replaceAll_match with (g := None).
    + simpl. now apply replaceAll_fresh.
    + simpl app. rewrite <- app_assoc. simpl app. now apply matchAt_reTag_span.
    + discriminate.
  - intros p c t E. apply matchAt_reTag_other.
    now apply (hasByte_split "<"%char pre p t c).
Qed.

Lemma deleteTag_removes_one_line_span_witness :
  deleteTag (b "これは" ++ b "<" ++ b "span class=x" ++ b ">" ++ b "テスト</span>")
  = b "これは" ++ deleteTag (b "テスト</span>").
Proof.
  apply (deleteTag_removes_one_line_span (b "これは") (b "span class=x") (b "テスト</span>")).
  - reflexivity.
  - discriminate.
  - reflexivity.
  - reflexivity.
Defined.

(** ** Converting plain text again *)

Lemma replaceAll_reNewlines_none (s : gostring) (tpl : list TemplateItem) :
  hasByte CR s = false -> hasByte LF s = false ->
  ReplaceAllString reNewlines s tpl = s.
Proof.
  intros Hcr Hlf. unfold ReplaceAllString. apply replaceAll_nomatch.
  intros p t E. destruct t as [|c t]; [reflexivity|].
  unfold matchAt, reNewlines, plus. cbn [matchK]. unfold isCRLF.
  rewrite (Ascii.eqb_sym c CR), (Ascii.eqb_sym c LF).
  rewrite (hasByte_split CR s p t c Hcr E), (hasByte_split LF s p t c Hlf E).
  reflexivity.
Qed.

Lemma brToAozora_plain (s : gostring) :
  hasByte "<"%char s = false -> hasByte CR s = false -> hasByte LF s = false ->
  brToAozora s = s.
Proof.
  intros Hlt Hcr Hlf. unfold brToAozora.
  rewrite replaceAll_reNewlines_none by assumption.
  now apply ReplaceAllString_without with (c := "<"%char).
Qed.

Lemma named_entities_absent (s : gostring) (order : list (gostring * gostring)) :
  Forall (fun ec => Contains s (fst ec) = false) order ->
  fold_left (fun result ec => strings.ReplaceAll result (fst ec) (snd ec)) order s = s.
Proof.
  induction 1 as [|ec order Hec _ IH]; simpl; [reflexivity|].
  now rewrite ReplaceAll_absent.
Qed.

Lemma FindStringSubmatch_none (r : Regexp) (s : gostring) :
  FindStringSubmatch r s = None ->
  forall p t, s = p ++ t -> matchAt r t = None.
Proof.
  induction s as [|c s IH]; intros H p t E; simpl in H.
  - destruct p; [|discriminate]. simpl in E. subst t.
    destruct (matchAt r []) as [[rest g]|]; [discriminate | reflexivity].
  - destruct (matchAt r (c :: s)) as [[rest g]|] eqn:M; [discriminate|].
    destruct p as [|d p]; simpl in E.
    + now subst t.
    + injection E as -> E. now apply (IH H p t).
Qed.

Lemma entityFree_parts (s : gostring) :
  entityFree s = true ->
  (forall ec, In ec replacements -> Contains s (fst ec) = false)
  /\ FindStringSubmatch reDec s = None
  /\ FindStringSubmatch reHex s = None.
Proof.
  unfold entityFree. intros H.
  apply andb_true_iff in H. destruct H as [H Hhex].
  apply andb_true_iff in H. destruct H as [Hnamed Hdec].
  rewrite forallb_forall in Hnamed. repeat split.
  - intros ec Hin. apply negb_true_iff. now apply Hnamed.
  - now destruct (FindStringSubmatch reDec s).
  - now destruct (FindStringSubmatch reHex s).
Qed.

Lemma numeric_references_absent (s : gostring) :
  FindStringSubmatch reDec s = None ->
  FindStringSubmatch reHex s = None ->
  ReplaceAllStringFunc reHex
    (ReplaceAllStringFunc reDec s (numericRef reDec 10)) (numericRef reHex 16) = s.
Proof.
  intros Fd Fh. unfold ReplaceAllStringFunc.
  rewrite (replaceAll_nomatch reDec _ s false (FindStringSubmatch_none reDec s Fd)).
  apply (replaceAll_nomatch reHex _ s false (FindStringSubmatch_none reHex s Fh)).
Qed.

Lemma restoreHTMLEntity_entity_free (order : list (gostring * gostring)) (s : gostring) :
  Permutation replacements order ->
  entityFree s = true ->
  restoreHTMLEntity order s = s.
Proof.
  intros Hp Hfree. destruct (entityFree_parts s Hfree) as [Hnamed [Fd Fh]].
  unfold restoreHTMLEntity. rewrite named_entities_absent.
  - now apply numeric_references_absent.
  - apply (Permutation_Forall Hp). now apply Forall_forall.
Qed.

(** C1, as stated, fails: the conversion of a ruby span holds no tag any
    more, but converting it again turns its gloss brackets into [≪ ≫];
    likewise a newline made from [<br>] is deleted by the second run. *)
Lemma ToAozora_not_stable_on_converted_text :
  ~ converted_text_is_stable.
Proof.
  intros H.
  specialize (H replacements (b "<ruby>漢字<rt>かんじ</rt></ruby>") (Permutation_refl _)).
  vm_compute in H. specialize (H eq_refl). discriminate.
Qed.

(** C1, amended: a text without [<], without any entity that
    [restoreHTMLEntity] decodes, without the glyphs [《] and [》] and,
    unless the caller passes [preHTML], without carriage return and line
    feed, comes out of [ToAozora] unchanged, whatever the decoration
    flag, the base URL and the order in which the entity table is
    visited, when the illustration pattern is the default one. *)
Theorem ToAozora_plain_text_unchanged :
  forall (resolveReference : gostring -> gostring -> option gostring)
         (order : list (gostring * gostring)) (h : HTMLConverter) (preHTML : bool),
    Permutation replacements order ->
    illustGrepPattern h = Some defaultIllustPattern ->
    hasByte "<"%char (text h) = false ->
    entityFree (text h) = true ->
    Contains (text h) (b "《") = false ->
    Contains (text h) (b "》") = false ->
    (preHTML = false -> hasByte CR (text h) = false /\ hasByte LF (text h) = false) ->
    ToAozora resolveReference order h preHTML = text h.
Proof.
  intros resolveReference order h preHTML Hp Hpat Hlt Hamp Hl Hr Hnl.
  unfold ToAozora.
  assert (E1 : (if negb preHTML then brToAozora (text h) else text h) = text h).
  { destruct preHTML; [reflexivity|]. destruct (Hnl eq_refl). now apply brToAozora_plain. }
  rewrite E1.
  assert (E2 : pToAozora (text h) = text h)
    by now apply ReplaceAllString_without with (c := "<"%char).
  rewrite E2.
  assert (E3 : rubyToAozora (text h) = text h).
  { unfold rubyToAozora.
    rewrite (ReplaceAll_absent (text h) (b "《")) by assumption.
    rewrite (ReplaceAll_absent (text h) (b "》")) by assumption.
    now apply ReplaceAllStringFunc_without with (c := "<"%char). }
  rewrite E3.
  assert (E4 : (if negb (stripDecorationTag h)
                then sToAozora (iToAozora (bToAozora (text h))) else text h) = text h).
  { destruct (stripDecorationTag h); [reflexivity|]. simpl negb. cbv iota.
    unfold sToAozora, iToAozora, bToAozora.
    repeat rewrite ReplaceAllString_without with (c := "<"%char) (s := text h)
      by (assumption || reflexivity).
    reflexivity. }
  rewrite E4.
  assert (E5 : imgToAozora resolveReference h (text h) = text h).
  { unfold imgToAozora. rewrite Hpat.
    now apply ReplaceAllStringFunc_without with (c := "<"%char). }
  rewrite E5.
  assert (E6 : emToSesame (text h) = text h)
    by now apply ReplaceAllString_without with (c := "<"%char).
  rewrite E6.
  assert (E7 : deleteTag (text h) = text h)
    by now apply ReplaceAllString_without with (c := "<"%char).
  rewrite E7.
  now apply restoreHTMLEntity_entity_free.
Qed.

Lemma ToAozora_plain_text_unchanged_witness :
  ToAozora noResolve (rev replacements)
           (NewHTMLConverter (b "［＃太字］吾輩は猫である［＃太字終わり］。R&D")) false
  = b "［＃太字］吾輩は猫である［＃太字終わり］。R&D".
Proof.
  apply (ToAozora_plain_text_unchanged noResolve (rev replacements)
           (NewHTMLConverter (b "［＃太字］吾輩は猫である［＃太字終わり］。R&D")) false).
  - apply Permutation_rev.
  - reflexivity.
  - reflexivity.
  - reflexivity.
  - reflexivity.
  - reflexivity.
  - intros _. split; reflexivity.
Defined.

(** ** Entity restoration after encoding *)

Lemma eqs_true (x y : gostring) : eqs x y = true <-> x = y.
Proof.
  revert y. induction x as [|c x IH]; intros [|d y]; simpl;
    try (split; [discriminate | discriminate]); [split; reflexivity|].
  rewrite andb_true_iff, Ascii.eqb_eq, IH. split.
  - now intros [-> ->].
  - intros E. injection E as -> ->. now split.
Qed.

Lemma replaceFrom_cons_nomatch (old new : gostring) (c : ascii) (s : gostring) :
  strings.HasPrefix (c :: s) old = false ->
  strings.replaceFrom old new 0 (c :: s) = c :: strings.replaceFrom old new 0 s.
Proof. intros H. cbn [strings.replaceFrom]. now rewrite H. Qed.

Lemma replaceFrom_drop (old new u rest : gostring) :
  strings.replaceFrom old new (length u) (u ++ rest) = strings.replaceFrom old new 0 rest.
Proof.
  induction u as [|c u IH]; [reflexivity|].
  simpl. exact IH.
Qed.

Lemma replaceFrom_match (o : ascii) (old new rest : gostring) :
  strings.replaceFrom (o :: old) new 0 ((o :: old) ++ rest)
  = new ++ strings.replaceFrom (o :: old) new 0 rest.
Proof.
  assert (H : strings.HasPrefix ((o :: old) ++ rest) (o :: old) = true)
    by (apply HasPrefix_true; now exists rest).
  change ((o :: old) ++ rest) with (o :: (old ++ rest)) in *.
  cbn [strings.replaceFrom]. rewrite H. f_equal.
  replace (length (o :: old) - 1) with (length old) by (simpl; lia).
  apply replaceFrom_drop.
Qed.

Lemma clash_HasPrefix (x old : gostring) :
  clash x old = true -> forall rest, strings.HasPrefix (x ++ rest) old = false.
Proof.
  revert old. induction x as [|c x IH]; intros old H rest; [discriminate|].
  destruct old as [|d old]; [discriminate|].
  simpl in H. simpl. destruct (Ascii.eqb d c); simpl in *; [|reflexivity].
  now apply IH.
Qed.

Lemma replaceFrom_skip (old new pre rest : gostring) :
  noStart pre old = true ->
  strings.replaceFrom old new 0 (pre ++ rest) = pre ++ strings.replaceFrom old new 0 rest.
Proof.
  induction pre as [|c pre IH]; intros H; [reflexivity|].
  simpl in H. apply andb_true_iff in H. destruct H as [Hc Hn].
  simpl app. rewrite replaceFrom_cons_nomatch.
  - f_equal. now apply IH.
  - apply (clash_HasPrefix (c :: pre) old Hc rest).
Qed.

Lemma entries_ok : forallb entryOk replacements = true.
Proof. vm_compute. reflexivity. Qed.

Lemma reservedEntity_In (c : ascii) (e : gostring) :
  reservedEntity c = Some e -> In (c, e) reserved.
Proof.
  unfold reservedEntity. intros H.
  destruct (find (fun p => Ascii.eqb (fst p) c) reserved) as [[c' e']|] eqn:F;
    [|discriminate].
  apply find_some in F. destruct F as [Hin Heq]. simpl in Heq.
  apply Ascii.eqb_eq in Heq. simpl in H. injection H as <-. now subst c'.
Qed.

Lemma reservedEntity_not_amp (c : ascii) :
  reservedEntity c = None -> Ascii.eqb "&"%char c = false.
Proof.
  unfold reservedEntity, reserved. cbn [find fst].
  destruct (Ascii.eqb "&"%char c); [discriminate | reflexivity].
Qed.

Lemma reserved_amp (c : ascii) (e : gostring) :
  In (c, e) reserved -> exists name, e = "&"%char :: name.
Proof.
  intros H. simpl in H.
  repeat (destruct H as [H|H]; [injection H as <- <-; eexists; reflexivity|]).
  contradiction.
Qed.

Lemma plain_prefix (done : list gostring) (name : gostring) :
  forallb plain name = true ->
  forall r, strings.HasPrefix (partlyRestored done r) name = true ->
            strings.HasPrefix r name = true.
Proof.
  induction name as [|n name IH]; intros Hp r H; [reflexivity|].
  simpl in Hp. apply andb_true_iff in Hp. destruct Hp as [Hn Hp].
  destruct r as [|c r]; [discriminate|].
  unfold partlyRestored in H. cbn [flat_map] in H. fold (partlyRestored done r) in H.
  assert (Hone : strings.HasPrefix ((c :: nil) ++ partlyRestored done r) (n :: name) = true
                 -> strings.HasPrefix (c :: r) (n :: name) = true).
  { simpl. intros H1. apply andb_true_iff in H1. destruct H1 as [H1 H2].
    rewrite H1. simpl. now apply IH. }
  destruct (reservedEntity c) as [ent|] eqn:Er; [|now apply Hone].
  destruct (existsb (eqs ent) done); [now apply Hone|].
  destruct (reserved_amp c ent (reservedEntity_In c ent Er)) as [nm ->].
  simpl in H. apply andb_true_iff in H. destruct H as [H _].
  apply Ascii.eqb_eq in H. subst n. discriminate.
Qed.

Lemma restore_step (done : list gostring) (ec : gostring * gostring) (s : gostring) :
  entryOk ec = true ->
  (forall p t, s = p ++ t -> strings.HasPrefix t (fst ec) = false) ->
  strings.ReplaceAll (partlyRestored done s) (fst ec) (snd ec)
  = partlyRestored (fst ec :: done) s.
Proof.
  destruct ec as [e ch]. unfold entryOk. cbn [fst snd]. intros Hok.
  destruct e as [|a name]; [discriminate|].
  destruct (Ascii.eqb a "&"%char) eqn:Ea;
    [apply Ascii.eqb_eq in Ea; subst a
    | exfalso; destruct a as [[] [] [] [] [] [] [] []]; simpl in Ea; discriminate].
  apply andb_true_iff in Hok. destruct Hok as [Hplain Hres].
  rewrite forallb_forall in Hres.
  unfold strings.ReplaceAll.
  induction s as [|c s IH]; intros Hclean; [reflexivity|].
  assert (Hclean' : forall p t, s = p ++ t ->
                                strings.HasPrefix t ("&"%char :: name) = false).
  { intros p t E. apply (Hclean (c :: p) t). now rewrite E. }
  specialize (IH Hclean').
  unfold partlyRestored. cbn [flat_map].
  fold (partlyRestored done s). fold (partlyRestored (("&"%char :: name) :: done) s).
  assert (Hone : Ascii.eqb "&"%char c = false ->
                 strings.replaceFrom ("&"%char :: name) ch 0
                                     ((c :: nil) ++ partlyRestored done s)
                 = (c :: nil) ++ partlyRestored (("&"%char :: name) :: done) s).
  { intros Hc. simpl app. rewrite replaceFrom_cons_nomatch.
    - now rewrite IH.
    - cbn [strings.HasPrefix]. now rewrite Hc. }
  destruct (reservedEntity c) as [ent|] eqn:Er.
  - pose proof (Hres (c, ent) (reservedEntity_In c ent Er)) as Hce. cbn [fst snd] in Hce.
    cbn [existsb].
    destruct (existsb (eqs ent) done) eqn:Ed.
    + rewrite orb_true_r.
      destruct (Ascii.eqb "&"%char c) eqn:Ec; [|now apply Hone].
      simpl app. rewrite replaceFrom_cons_nomatch; [now rewrite IH|].
      destruct (strings.HasPrefix (c :: partlyRestored done s) ("&"%char :: name)) eqn:Hp;
        [|reflexivity].
      cbn [strings.HasPrefix] in Hp. rewrite Ec in Hp. cbn [andb] in Hp.
      apply (plain_prefix done name Hplain) in Hp.
      pose proof (Hclean [] (c :: s) eq_refl) as Hc. cbn [strings.HasPrefix] in Hc.
      rewrite Ec, Hp in Hc. discriminate.
    + rewrite orb_false_r.
      destruct (eqs ent ("&"%char :: name)) eqn:Ee.
      * simpl in Hce. rewrite orb_false_r in Hce.
        apply eqs_true in Ee. apply eqs_true in Hce. subst ent ch.
        rewrite replaceFrom_match. now rewrite IH.
      * simpl in Hce. rewrite replaceFrom_skip by exact Hce. now rewrite IH.
  - apply Hone. now apply reservedEntity_not_amp.
Qed.

Lemma restore_fold (s : gostring) (order : list (gostring * gostring)) :
  Forall (fun ec => entryOk ec = true
                    /\ forall p t, s = p ++ t -> strings.HasPrefix t (fst ec) = false)
         order ->
  forall done,
    fold_left (fun result ec => strings.ReplaceAll result (fst ec) (snd ec))
              order (partlyRestored done s)
    = partlyRestored (rev (map fst order) ++ done) s.
Proof.
  induction 1 as [|ec order [Hok Hcl] _ IH]; intros done; [reflexivity|].
  simpl fold_left. rewrite restore_step by assumption.
  rewrite IH. simpl. now rewrite <- app_assoc.
Qed.

Lemma partlyRestored_all (done : list gostring) (s : gostring) :
  (forall c e, In (c, e) reserved -> existsb (eqs e) done = true) ->
  partlyRestored done s = s.
Proof.
  intros H. induction s as [|c s IH]; [reflexivity|].
  unfold partlyRestored. cbn [flat_map]. fold (partlyRestored done s). rewrite IH.
  destruct (reservedEntity c) as [ent|] eqn:Er; [|reflexivity].
  now rewrite (H c ent (reservedEntity_In c ent Er)).
Qed.

Lemma reserved_in_table (c : ascii) (e : gostring) :
  In (c, e) reserved -> In e (map fst replacements).
Proof.
  intros H. simpl in H.
  repeat (destruct H as [H|H]; [injection H as <- <-; simpl; tauto|]).
  contradiction.
Qed.

(** C8, as stated, fails: the text ["&#65;"] is encoded as
    ["&amp;#65;"], and restoring decodes twice, first [&amp;] and then
    the numeric reference so uncovered, in the source order of the table
    as in the reverse order. *)
Lemma entity_round_trip_fails :
  ~ entity_round_trip
  /\ restoreHTMLEntity replacements (encodeEntities (b "&#65;")) = b "A"
  /\ restoreHTMLEntity (rev replacements) (encodeEntities (b "&#65;")) = b "A".
Proof.
  split; [|split; vm_compute; reflexivity].
  intros H. specialize (H replacements (b "&#65;") (Permutation_refl _)).
  vm_compute in H. discriminate.
Qed.

(** C8, amended: for every string that holds none of the table's named
    entities and no decimal or hexadecimal character reference, replacing
    the five reserved characters by their named entities and then
    applying [restoreHTMLEntity] gives the string back, in whatever order
    the entity table is visited. *)
Theorem entity_round_trip_on_entity_free_text :
  forall (order : list (gostring * gostring)) (s : gostring),
    Permutation replacements order ->
    entityFree s = true ->
    restoreHTMLEntity order (encodeEntities s) = s.
Proof.
  intros order s Hp Hfree. destruct (entityFree_parts s Hfree) as [Hnamed [Fd Fh]].
  unfold restoreHTMLEntity.
  change (encodeEntities s) with (partlyRestored [] s).
  rewrite restore_fold.
  - rewrite partlyRestored_all; [now apply numeric_references_absent|].
    intros c e Hin. apply existsb_exists. exists e. split; [|now apply eqs_true].
    rewrite app_nil_r. apply -> in_rev.
    apply (Permutation_in e (Permutation_map fst Hp)).
    now apply (reserved_in_table c).
  - apply (Permutation_Forall Hp). apply Forall_forall. intros ec Hin. split.
    + pose proof entries_ok as Hall. rewrite forallb_forall in Hall. now apply Hall.
    + apply Contains_false. now apply Hnamed.
Qed.

Lemma entity_round_trip_on_entity_free_text_witness :
  restoreHTMLEntity (rev replacements)
                    (encodeEntities (b "if a < b && c > 'd' then R&D"))
  = b "if a < b && c > 'd' then R&D".
Proof.
  apply (entity_round_trip_on_entity_free_text (rev replacements)
           (b "if a < b && c > 'd' then R&D")).
  - apply Permutation_rev.
  - vm_compute. reflexivity.
Defined.

(** ** Ruby spans *)

Lemma toLower_not_upper (c : ascii) : isUpper c = false -> toLower c = c.
Proof. intros H. unfold toLower. now rewrite H. Qed.

Lemma toLower_upper_isLower (x : ascii) :
  isUpper x = true -> isLower (toLower x) = true.
Proof.
  intros H. unfold toLower. rewrite H. unfold isUpper in H. unfold isLower.
  apply andb_true_iff in H. destruct H as [H1 H2].
  apply Nat.leb_le in H1. apply Nat.leb_le in H2.
  rewrite nat_ascii_embedding by lia.
  apply andb_true_iff. split; apply Nat.leb_le; lia.
Qed.

Lemma eqb_toLower_nonletter (c x : ascii) :
  isUpper c = false -> isLower c = false ->
  Ascii.eqb c x = Ascii.eqb c (toLower x).
Proof.
  intros Hu Hl. destruct (isUpper x) eqn:U.
  - destruct (Ascii.eqb c x) eqn:E1.
    + apply Ascii.eqb_eq in E1. subst x. congruence.
    + destruct (Ascii.eqb c (toLower x)) eqn:E2; [|reflexivity].
      apply Ascii.eqb_eq in E2. apply toLower_upper_isLower in U. congruence.
  - now rewrite (toLower_not_upper x U).
Qed.

Lemma foldLit_simple {A} (c : ascii) (x : gostring) (g : Capture)
      (k : gostring -> Capture -> option A) :
  simpleChar c = true ->
  matchK (foldLit c) x g k
  = match x with
    | [] => None
    | x0 :: x' => if Ascii.eqb c (toLower x0) then k x' g else None
    end.
Proof.
  unfold simpleChar. intros H.
  apply andb_true_iff in H. destruct H as [H Hk].
  apply andb_true_iff in H. destruct H as [Hu Hs].
  apply negb_true_iff in Hu, Hs, Hk.
  unfold foldLit. rewrite (toLower_not_upper c Hu), Hs, Hk, Hu. cbn [orb].
  destruct (isLower c) eqn:Hl; cbn [matchK]; destruct x as [|x0 x']; try reflexivity.
  - now rewrite Ascii.eqb_sym.
  - now rewrite (eqb_toLower_nonletter c x0 Hu Hl).
Qed.

Lemma liti_match {A} (w : gostring) :
  forallb simpleChar w = true ->
  forall (x : gostring) (g : Capture) (k : gostring -> Capture -> option A),
    matchK (liti w) x g k
    = if strings.HasPrefix (map toLower x) w then k (skipn (length w) x) g else None.
Proof.
  induction w as [|c w IH]; intros Hw x g k.
  - reflexivity.
  - cbn [forallb] in Hw. apply andb_true_iff in Hw. destruct Hw as [Hc Hw].
    change (liti (c :: w)) with (Seq (foldLit c) (liti w)). cbn [matchK].
    rewrite foldLit_simple by exact Hc.
    destruct x as [|x0 x']; [reflexivity|].
    cbn [map strings.HasPrefix length skipn].
    destruct (Ascii.eqb c (toLower x0)); [|reflexivity].
    cbn [andb]. now apply IH.
Qed.

Lemma no_straddle_tail (w u v : gostring) :
  hasByte "<"%char w = false ->
  strings.HasPrefix u w = false ->
  strings.HasPrefix (u ++ "<"%char :: v) w = false.
Proof.
  revert w. induction u as [|c u IH]; intros w Hw H.
  - destruct w as [|d w]; [discriminate|].
    cbn [app strings.HasPrefix].
    unfold hasByte in Hw. cbn [existsb] in Hw. apply orb_false_iff in Hw.
    rewrite Ascii.eqb_sym. now rewrite (proj1 Hw).
  - destruct w as [|d w]; [discriminate|].
    cbn [app strings.HasPrefix] in *.
    destruct (Ascii.eqb d c); [|reflexivity]. cbn [andb] in *.
    apply IH; [|exact H].
    unfold hasByte in *. cbn [existsb] in Hw. now apply orb_false_iff in Hw.
Qed.

Lemma no_straddle (w u v : gostring) :
  hasByte "<"%char (tl w) = false ->
  u <> [] ->
  strings.HasPrefix u w = false ->
  strings.HasPrefix (u ++ "<"%char :: v) w = false.
Proof.
  intros Hw Hu H. destruct u as [|c u]; [contradiction|].
  destruct w as [|d w]; [discriminate|].
  cbn [app strings.HasPrefix tl] in *.
  destruct (Ascii.eqb d c); [|reflexivity]. cbn [andb] in *.
  now apply no_straddle_tail.
Qed.

Lemma isTag_head (w' x : gostring) :
  isTag ("<"%char :: w') x -> exists x', x = "<"%char :: x'.
Proof.
  unfold isTag. destruct x as [|x0 x']; [discriminate|].
  cbn [map]. intros H. injection H as H0 _.
  exists x'. f_equal.
  destruct (isUpper x0) eqn:U.
  - apply toLower_upper_isLower in U. rewrite H0 in U. discriminate.
  - now rewrite (toLower_not_upper x0 U) in H0.
Qed.

Lemma isTag_length (w x : gostring) : isTag w x -> length x = length w.
Proof. unfold isTag. intros <-. now rewrite length_map. Qed.

(** No occurrence of a tag starts inside [pre] when [pre] holds none and
    a [<] follows. *)
Lemma tag_not_inside (w pre v : gostring) :
  hasByte "<"%char (tl w) = false ->
  lacksTag w pre = true ->
  forall p c t, pre = p ++ c :: t ->
                strings.HasPrefix (map toLower (c :: t ++ "<"%char :: v)) w = false.
Proof.
  intros Hlt Hno p c t E.
  change (c :: t ++ "<"%char :: v) with ((c :: t) ++ "<"%char :: v).
  rewrite map_app. cbn [map]. rewrite (toLower_not_upper "<"%char eq_refl).
  rewrite no_straddle; auto; [discriminate|].
  unfold lacksTag in Hno. apply negb_true_iff in Hno.
  apply (Contains_false _ _ Hno (map toLower p) (map toLower (c :: t))).
  now rewrite E, map_app.
Qed.

Lemma liti_not_inside (w pre v : gostring) :
  forallb simpleChar w = true ->
  hasByte "<"%char (tl w) = false ->
  lacksTag w pre = true ->
  forall p c t, pre = p ++ c :: t ->
                matchAt (liti w) (c :: t ++ "<"%char :: v) = None.
Proof.
  intros Hw Hlt Hno p c t E. unfold matchAt. rewrite liti_match by exact Hw.
  now rewrite (tag_not_inside w pre v Hlt Hno p c t E).
Qed.

Lemma liti_at_tag (w x rest : gostring) :
  forallb simpleChar w = true ->
  isTag w x ->
  matchAt (liti w) (x ++ rest) = Some (rest, None).
Proof.
  intros Hw Hx. unfold matchAt. rewrite liti_match by exact Hw.
  rewrite map_app, Hx.
  assert (H : strings.HasPrefix (w ++ map toLower rest) w = true)
    by (apply HasPrefix_true; now eexists).
  rewrite H. rewrite <- (isTag_length w x Hx).
  rewrite skipn_app, skipn_all, Nat.sub_diag. reflexivity.
Qed.

Lemma Split2_first (r : Regexp) (pre m post : gostring) (g : Capture) :
  (forall p c t, pre = p ++ c :: t -> matchAt r (c :: t ++ m ++ post) = None) ->
  matchAt r (m ++ post) = Some (post, g) ->
  Split2 r (pre ++ m ++ post) = [pre; post].
Proof.
  induction pre as [|c pre IH]; intros Hno Hm.
  - cbn [app]. destruct (m ++ post) as [|x y] eqn:E; cbn [Split2]; now rewrite Hm.
  - cbn [app Split2]. rewrite (Hno [] c pre eq_refl).
    rewrite IH; [reflexivity | | exact Hm].
    intros p d t E. apply (Hno (c :: p) d t). now rewrite E.
Qed.

Lemma Split2_none (r : Regexp) (s : gostring) :
  (forall p t, s = p ++ t -> matchAt r t = None) ->
  Split2 r s = [s].
Proof.
  induction s as [|c s IH]; intros H.
  - cbn [Split2]. now rewrite (H [] [] eq_refl).
  - cbn [Split2]. rewrite (H [] (c :: s) eq_refl). rewrite IH; [reflexivity|].
    intros p t E. apply (H (c :: p) t). now rewrite E.
Qed.

Lemma tag_prefix_split (w : gostring) :
  forall x, strings.HasPrefix (map toLower x) w = true ->
            exists x1 x2, x = x1 ++ x2 /\ isTag w x1.
Proof.
  induction w as [|d w IH]; intros x H.
  - exists [], x. now split.
  - destruct x as [|x0 x]; [discriminate|].
    cbn [map strings.HasPrefix] in H. apply andb_true_iff in H. destruct H as [H0 H].
    apply Ascii.eqb_eq in H0. destruct (IH x H) as [x1 [x2 [-> Ht]]].
    exists (x0 :: x1), x2. split; [reflexivity|].
    unfold isTag in *. cbn [map]. now rewrite Ht, H0.
Qed.

Lemma FindStringSubmatch_at (r : Regexp) (s rest : gostring) (g : Capture) :
  matchAt r s = Some (rest, g) ->
  FindStringSubmatch r s = Some (consumed s rest, g).
Proof. intros H. destruct s; cbn [FindStringSubmatch]; now rewrite H. Qed.

Lemma hd_Split2_rp (x part : gostring) :
  lacksTag (b "<rp>") x = true ->
  rpPart part = true ->
  hd [] (Split2 reRp (x ++ part)) = x.
Proof.
  intros Hx Hp. destruct part as [|c part].
  - rewrite app_nil_r. rewrite Split2_none; [reflexivity|].
    intros p t E. unfold matchAt, reRp. rewrite liti_match by reflexivity.
    unfold lacksTag in Hx. apply negb_true_iff in Hx.
    rewrite (Contains_false _ _ Hx (map toLower p) (map toLower t));
      [reflexivity | now rewrite E, map_app].
  - unfold rpPart in Hp.
    destruct (tag_prefix_split (b "<rp>") (c :: part) Hp) as [rp [rest [E Hrp]]].
    rewrite E. destruct (isTag_head _ _ Hrp) as [rp' Erp].
    rewrite (Split2_first reRp x rp rest None); [reflexivity | |].
    + intros p d t Ex. subst rp. cbn [app].
      now apply (liti_not_inside (b "<rp>") x (rp' ++ rest) eq_refl eq_refl Hx p d t).
    + now apply liti_at_tag.
Qed.

Lemma matchAt_reRuby_span (o content c : gostring) :
  isTag (b "<ruby>") o ->
  isTag (b "</ruby>") c ->
  content <> [] ->
  hasByte LF content = false ->
  lacksTag (b "</ruby>") content = true ->
  matchAt reRuby (o ++ content ++ c) = Some ([], Some content).
Proof.
  intros Ho Hc Hne Hlf Hno.
  destruct content as [|c0 content]; [contradiction|].
  destruct (isTag_head _ _ Hc) as [c' Ec].
  unfold matchAt, reRuby. cbn [matchK].
  rewrite liti_match by reflexivity.
  rewrite map_app, Ho.
  assert (H1 : strings.HasPrefix (b "<ruby>" ++ map toLower ((c0 :: content) ++ c))
                                 (b "<ruby>") = true)
    by (apply HasPrefix_true; now eexists).
  rewrite H1. rewrite <- (isTag_length _ _ Ho).
  rewrite skipn_app, skipn_all, Nat.sub_diag. cbn [skipn app].
  unfold plus. cbn [matchK].
  assert (H0 : dot c0 = true).
  { unfold dot. rewrite Ascii.eqb_sym.
    now rewrite (hasByte_split LF (c0 :: content) [] content c0 Hlf eq_refl). }
  rewrite H0.
  rewrite starK_lazy_skip.
  - apply starK_lazy_stop. rewrite liti_match by reflexivity.
    assert (H2 : strings.HasPrefix (map toLower c) (b "</ruby>") = true)
      by (apply HasPrefix_true; exists []; now rewrite app_nil_r).
    rewrite H2. rewrite <- (isTag_length _ _ Hc), skipn_all.
    f_equal. f_equal. f_equal.
    change (c0 :: content ++ c) with ((c0 :: content) ++ c).
    rewrite length_app.
    replace (length (c0 :: content) + length c - length c)
      with (length (c0 :: content)) by lia.
    rewrite firstn_app, firstn_all, Nat.sub_diag. cbn [firstn]. apply app_nil_r.
  - intros v1 d v2 E. split.
    + unfold dot. rewrite Ascii.eqb_sym.
      now rewrite (hasByte_split LF (c0 :: content) (c0 :: v1) v2 d Hlf
                     (f_equal (cons c0) E)).
    + rewrite liti_match by reflexivity. rewrite Ec.
      rewrite (tag_not_inside (b "</ruby>") (c0 :: content) c' eq_refl Hno
                 (c0 :: v1) d v2 (f_equal (cons c0) E)).
      reflexivity.
Qed.

(** C6, as stated, fails: a ruby span that goes over a line feed is not
    matched by [<ruby>(.+?)</ruby>] and is returned as it is; and a [《]
    inside a span comes out as [≪]. *)
Lemma rubyToAozora_keeps_span_across_newline :
  rubyToAozora (b "<ruby>漢" ++ [LF] ++ b "字<rt>かんじ</rt></ruby>")
  = b "<ruby>漢" ++ [LF] ++ b "字<rt>かんじ</rt></ruby>"
  /\ rubyToAozora (b "<ruby>《<rt>a</rt></ruby>") = b "｜≪《a》".
Proof. split; vm_compute; reflexivity. Qed.

(** C6, amended: for every ruby span [<ruby> base mid <rt> gloss tail
    </ruby>] written on one line, with the tags in any letter case, where
    [mid] and [tail] are empty or start with [<rp>], the [<rt>] shown is
    the first one, [base] and [gloss] hold no [<rp>], no [</ruby>] occurs
    inside and the glyphs [《 》] do not occur, [rubyToAozora] returns
    exactly [｜B《G》], [B] and [G] being [base] and [gloss] with their
    inner tags removed by [deleteTag]. *)
Theorem rubyToAozora_one_line_span :
  forall o base mid rt gloss tail c : gostring,
    isTag (b "<ruby>") o ->
    isTag (b "<rt>") rt ->
    isTag (b "</ruby>") c ->
    rpPart mid = true ->
    rpPart tail = true ->
    hasByte LF (base ++ mid ++ rt ++ gloss ++ tail) = false ->
    lacksTag (b "<rt>") (base ++ mid) = true ->
    lacksTag (b "<rp>") base = true ->
    lacksTag (b "<rp>") gloss = true ->
    lacksTag (b "</ruby>") (base ++ mid ++ rt ++ gloss ++ tail) = true ->
    Contains (o ++ (base ++ mid ++ rt ++ gloss ++ tail) ++ c) (b "《") = false ->
    Contains (o ++ (base ++ mid ++ rt ++ gloss ++ tail) ++ c) (b "》") = false ->
    rubyToAozora (o ++ (base ++ mid ++ rt ++ gloss ++ tail) ++ c)
    = b "｜" ++ deleteTag base ++ b "《" ++ deleteTag gloss ++ b "》".
Proof.
  intros o base mid rt gloss tail c Ho Hrt Hc Hmid Htail Hlf Hnort Hbase Hgloss
         Hnoend Hl Hr.
  destruct (isTag_head _ _ Hrt) as [rt' Ert].
  set (content := base ++ mid ++ rt ++ gloss ++ tail) in *.
  assert (Hne : content <> []).
  { unfold content. rewrite Ert. intros E.
    apply (f_equal (@length ascii)) in E. rewrite !length_app in E.
    cbn [length] in E. lia. }
  pose proof (matchAt_reRuby_span o content c Ho Hc Hne Hlf Hnoend) as Hm.
  unfold rubyToAozora.
  rewrite (ReplaceAll_absent _ (b "《")) by exact Hl.
  rewrite (ReplaceAll_absent _ (b "》")) by exact Hr.
  unfold ReplaceAllStringFunc.
  rewrite <- (app_nil_r (o ++ content ++ c)) at 1.
  rewrite (replaceAll_match reRuby _ false (o ++ content ++ c) [] (Some content)).
  - change (replaceAll reRuby (fun m _ => rubyReplace m) 0 true []) with (@nil ascii).
    rewrite app_nil_r.
    unfold rubyReplace. rewrite (FindStringSubmatch_at _ _ _ _ Hm).
    assert (Hsplit : Split2 reRt content = [base ++ mid; gloss ++ tail]).
    { unfold content.
      replace (base ++ mid ++ rt ++ gloss ++ tail)
        with ((base ++ mid) ++ rt ++ (gloss ++ tail)) by now rewrite <- app_assoc.
      apply Split2_first with (g := None).
      - intros p d t E. rewrite Ert. cbn [app].
        now apply (liti_not_inside (b "<rt>") (base ++ mid) (rt' ++ gloss ++ tail)
                     eq_refl eq_refl Hnort p d t).
      - now apply liti_at_tag. }
    rewrite Hsplit.
    now rewrite (hd_Split2_rp base mid Hbase Hmid), (hd_Split2_rp gloss tail Hgloss Htail).
  - now rewrite app_nil_r.
  - destruct (isTag_head _ _ Ho) as [o' ->]. discriminate.
Qed.

Lemma rubyToAozora_one_line_span_witness :
  rubyToAozora (b "<RUBY>" ++ (b "<rb>漢字</rb>" ++ b "<rp>（</rp>" ++ b "<rt>"
                               ++ b "かんじ</rt>" ++ b "<rp>）</rp>") ++ b "</ruby>")
  = b "｜" ++ deleteTag (b "<rb>漢字</rb>") ++ b "《" ++ deleteTag (b "かんじ</rt>") ++ b "》".
Proof.
  apply (rubyToAozora_one_line_span (b "<RUBY>") (b "<rb>漢字</rb>") (b "<rp>（</rp>")
           (b "<rt>") (b "かんじ</rt>") (b "<rp>）</rp>") (b "</ruby>"));
    vm_compute; reflexivity.
Defined.

(** ** The download orchestrator *)


Lemma addTrace_app (e1 e2 : list Event) (w : World) :
  addTrace e1 (addTrace e2 w) = addTrace (e1 ++ e2) w.
Proof. unfold addTrace; simpl. now rewrite app_assoc. Qed.

Lemma addTrace_nil (w : World) : addTrace [] w = w.
Proof. now destruct w. Qed.

Lemma newEvents_app (evs : list Event) (w w' : World) :
  trace w' = evs ++ trace w -> newEvents w w' = evs.
Proof.
  intros H. unfold newEvents. rewrite H, length_app.
  replace (length evs + length (trace w) - length (trace w)) with (length evs) by lia.
  rewrite firstn_app, firstn_all, Nat.sub_diag. simpl. apply app_nil_r.
Qed.

Lemma scrapeOutcomes_app (e1 e2 : list Event) :
  scrapeOutcomes (e1 ++ e2) = scrapeOutcomes e1 ++ scrapeOutcomes e2.
Proof.
  induction e1 as [|e e1 IH]; simpl; [reflexivity|].
  destruct e; simpl; now rewrite ?IH.
Qed.

Section OrchestratorFacts.

Variable scrapeChapterWithHTMLOnce :
  nat -> gostring -> (gostring * gostring * gostring) + gostring.
Variable osWriteFile : nat -> gostring -> gostring -> option gostring.
Variable filepathJoin : list gostring -> gostring.
Variable encodeText : gostring -> gostring -> gostring + gostring.
Variable formatChapterContent : gostring -> gostring -> gostring -> gostring -> gostring.
Variable formatChapterContentForCombined : gostring -> gostring -> gostring.
Variable convertRubyToAozora : gostring -> gostring.

Let step := chapterStep scrapeChapterWithHTMLOnce osWriteFile filepathJoin encodeText
                        formatChapterContent formatChapterContentForCombined.
Let loop := chapterLoop scrapeChapterWithHTMLOnce osWriteFile filepathJoin encodeText
                        formatChapterContent formatChapterContentForCombined.
Let run := downloadRensai scrapeChapterWithHTMLOnce osWriteFile filepathJoin encodeText
                          formatChapterContent formatChapterContentForCombined
                          convertRubyToAozora.

(** *** Skipping *)

Lemma chapterStep_skip savePath result createHtml createTxt encoding lineEnding
      novelCode totalChapters i chapter st w :
  (createTxt = true ->
   files w (filepathJoin [savePath;
                          generateFileName novelCode (episodeNumberAt i chapter) ++ b ".txt"])
   = true) ->
  (createHtml = true ->
   files w (filepathJoin [savePath; b "html"; episodeNumberAt i chapter ++ b ".html"])
   = true) ->
  step savePath result createHtml createTxt encoding lineEnding novelCode totalChapters
       i chapter st w
  = (inl st, addTrace (skipEvents totalChapters i chapter) w).
Proof.
  intros Ht Hh.
  unfold step. destruct w as [fl rq wr tr]. cbn [files] in Ht, Hh.
  destruct createHtml, createTxt;
    try specialize (Ht eq_refl); try specialize (Hh eq_refl);
    cbv beta iota zeta delta [chapterStep shouldSkipEpisode isFileAlreadySaved bind emit
                               statOk ret files requests writes trace fst snd addTrace];
    rewrite ?Ht, ?Hh;
    cbv beta iota zeta delta [andb files requests writes trace];
    reflexivity.
Qed.

Lemma chapterLoop_all_skipped savePath result encoding lineEnding novelCode
      totalChapters rest :
  forall i st w,
    loop savePath result false false encoding lineEnding novelCode totalChapters
         i rest st w
    = (inl st, addTrace (allSkipped totalChapters i rest) w).
Proof.
  induction rest as [|chapter rest IH]; intros i st w.
  - simpl. unfold ret. now rewrite addTrace_nil.
  - unfold loop. simpl. unfold bind at 1.
    fold (step savePath result false false encoding lineEnding novelCode totalChapters
               i chapter st w).
    rewrite chapterStep_skip by discriminate.
    fold loop. rewrite IH. now rewrite addTrace_app.
Qed.

Lemma downloadRensai_all_skipped savePath result encoding lineEnding createCombined w :
  run savePath result false false encoding lineEnding createCombined w
  = match ScrapeResult.Chapters result with
    | [] => (Some (b "エピソードが見つかりませんでした"), w)
    | _ :: _ =>
        let total := length (ScrapeResult.Chapters result) in
        (None,
         addTrace
           ([ EmitLog (b "ダウンロードが完了しました");
              EmitProgressText (b "完了 (" ++ itoa total ++ b "/" ++ itoa total ++ b "話)");
              EmitProgress (Percent 100) ]
            ++ allSkipped total 0 (ScrapeResult.Chapters result)
            ++ [ EmitProgressText (b "0/" ++ itoa total ++ b "話");
                 EmitLog (itoa total ++ b "話を取得しました。ダウンロードを開始します...") ])
           w)
    end.
Proof.
  unfold run, downloadRensai.
  destruct (ScrapeResult.Chapters result) as [|first rest] eqn:E; [reflexivity|].
  unfold bind at 1. unfold emit at 1. unfold bind at 1. unfold emit at 1.
  unfold bind at 1.
  fold (loop savePath result false false encoding lineEnding
             (extractNovelCodeFromURL (ChapterInfo.URL first))
             (length (first :: rest)) 0 (first :: rest)
             (mkLoopState (first :: rest) [] 0)).
  rewrite chapterLoop_all_skipped.
  cbv beta iota. unfold allChapterContents.
  rewrite andb_false_r. unfold bind, emit, ret, addTrace. simpl trace.
  cbv beta iota. simpl files. simpl requests. simpl writes.
  f_equal. f_equal. simpl. rewrite <- !app_assoc. reflexivity.
Qed.

(** C10: with [createHtml] and [createTxt] both false, both existence
    flags of [isFileAlreadySaved] are true and [shouldSkipEpisode]
    answers true, whatever the chapter, the save path and the files; and
    [downloadRensai] makes no request and no write and leaves the files
    as they are: all it does is emit the progress and log lines of a run
    in which every chapter is skipped, and it returns no error unless
    there is no chapter at all. *)
Theorem downloadRensai_no_output_requested :
  forall savePath fileName episodeNumber result encoding lineEnding createCombined w,
    isFileAlreadySaved filepathJoin savePath fileName episodeNumber false false w
    = ((true, true), w)
    /\ shouldSkipEpisode filepathJoin savePath fileName episodeNumber false false w
       = (true, w)
    /\ (let (r, w') := run savePath result false false encoding lineEnding
                           createCombined w in
        requests w' = requests w
        /\ writes w' = writes w
        /\ files w' = files w
        /\ scrapeOutcomes (newEvents w w') = []
        /\ match ScrapeResult.Chapters result with
           | [] => r = Some (b "エピソードが見つかりませんでした") /\ newEvents w w' = []
           | _ :: _ =>
               let total := length (ScrapeResult.Chapters result) in
               r = None
               /\ newEvents w w'
                  = [ EmitLog (b "ダウンロードが完了しました");
                      EmitProgressText (b "完了 (" ++ itoa total ++ b "/" ++ itoa total
                                        ++ b "話)");
                      EmitProgress (Percent 100) ]
                    ++ allSkipped total 0 (ScrapeResult.Chapters result)
                    ++ [ EmitProgressText (b "0/" ++ itoa total ++ b "話");
                         EmitLog (itoa total
                                  ++ b "話を取得しました。ダウンロードを開始します...") ]
           end).
Proof.
  intros. split; [reflexivity|]. split; [reflexivity|].
  rewrite downloadRensai_all_skipped.
  destruct (ScrapeResult.Chapters result) as [|first rest].
  - repeat split; try reflexivity;
      unfold newEvents; now rewrite Nat.sub_diag.
  - cbv beta iota zeta.
    set (evs := [EmitLog (b "ダウンロードが完了しました");
                 EmitProgressText _; EmitProgress (Percent 100)] ++ _ ++ _).
    assert (Hn : newEvents w (addTrace evs w) = evs)
      by (apply newEvents_app; reflexivity).
    rewrite Hn. repeat split; try reflexivity.
    clear Hn. subst evs. rewrite !scrapeOutcomes_app.
    assert (Hs : forall total i l, scrapeOutcomes (allSkipped total i l) = []).
    { intros total i l. revert i. induction l as [|c l IH]; intros i; [reflexivity|].
      simpl allSkipped. rewrite scrapeOutcomes_app, IH. reflexivity. }
    rewrite Hs. reflexivity.
Qed.

(** C9, amended: a chapter all of whose requested output files exist
    (the text file named after its identifier when [createTxt] is set,
    and the HTML file named after its episode number when [createHtml]
    is set) is skipped: the pass through the loop body emits the
    progress lines and the skip line only, makes no request, no write
    and no sleep, leaves the state untouched, and the loop goes on with
    the next chapter. *)
Theorem saved_chapter_is_skipped :
  forall savePath result createHtml createTxt encoding lineEnding
         novelCode totalChapters i chapter rest st w,
    (createTxt = true ->
     files w (filepathJoin [savePath;
                            generateFileName novelCode (episodeNumberAt i chapter)
                            ++ b ".txt"])
     = true) ->
    (createHtml = true ->
     files w (filepathJoin [savePath; b "html"; episodeNumberAt i chapter ++ b ".html"])
     = true) ->
    step savePath result createHtml createTxt encoding lineEnding novelCode
         totalChapters i chapter st w
    = (inl st, addTrace (skipEvents totalChapters i chapter) w)
    /\ loop savePath result createHtml createTxt encoding lineEnding novelCode
            totalChapters i (chapter :: rest) st w
       = loop savePath result createHtml createTxt encoding lineEnding novelCode
              totalChapters (S i) rest st
              (addTrace (skipEvents totalChapters i chapter) w).
Proof.
  intros * Ht Hh. split; [now apply chapterStep_skip|].
  unfold loop. simpl. unfold bind at 1.
  fold (step savePath result createHtml createTxt encoding lineEnding novelCode
             totalChapters i chapter st w).
  now rewrite chapterStep_skip.
Qed.

(** *** The failure counter *)

Lemma emits_ret {A} (x : A) (Q : A -> list bool -> Prop) :
  Q x [] -> emits (ret x) Q.
Proof. intros H w. exists []. now split. Qed.

Lemma emits_weaken {A} (m : M A) (P Q : A -> list bool -> Prop) :
  emits m P -> (forall x o, P x o -> Q x o) -> emits m Q.
Proof.
  intros Hm HPQ w. destruct (Hm w) as [evs [Ht HP]]. exists evs. auto.
Qed.

Lemma emits_bind {A B} (m : M A) (k : A -> M B)
      (P : A -> list bool -> Prop) (Q : B -> list bool -> Prop) :
  emits m P ->
  (forall x o1, P x o1 -> emits (k x) (fun y o2 => Q y (o2 ++ o1))) ->
  emits (bind m k) Q.
Proof.
  intros Hm Hk w. unfold bind.
  destruct (Hm w) as [e1 [Ht1 HP]].
  destruct (m w) as [x w1]. simpl in *.
  destruct (Hk x _ HP w1) as [e2 [Ht2 HQ]].
  exists (e2 ++ e1). split.
  - now rewrite Ht2, Ht1, app_assoc.
  - now rewrite scrapeOutcomes_app.
Qed.

Lemma tame_bind {A B} (m : M A) (k : A -> M B) (Q : B -> list bool -> Prop) :
  tame m -> (forall x, emits (k x) Q) -> emits (bind m k) Q.
Proof.
  intros Hm Hk. eapply emits_bind; [exact Hm|].
  intros x o1 ->. eapply emits_weaken; [apply Hk|].
  intros y o H. now rewrite app_nil_r.
Qed.

Lemma tame_ret {A} (x : A) : tame (ret x).
Proof. now apply emits_ret. Qed.

Lemma tame_emit (e : Event) : scrapeOutcomes [e] = [] -> tame (emit e).
Proof. intros H w. exists [e]. now split. Qed.

Lemma tame_when (c : bool) (m : M unit) : tame m -> tame (when c m).
Proof. destruct c; simpl; [auto | intros _; apply tame_ret]. Qed.

Lemma tame_statOk (p : gostring) : tame (statOk p).
Proof. intros w. exists []. now split. Qed.

Lemma tame_scrapeOnce (url : gostring) : tame (scrapeOnce scrapeChapterWithHTMLOnce url).
Proof.
  intros w.
  exists [ScrapeOnce url (isOk (scrapeChapterWithHTMLOnce (requests w) url))].
  now split.
Qed.

Lemma tame_WriteFileM (path data : gostring) : tame (WriteFileM osWriteFile path data).
Proof.
  intros w. unfold WriteFileM. simpl.
  eexists [WriteFile path _]. split; reflexivity.
Qed.

Ltac tame_step :=
  first [ apply tame_ret
        | apply tame_emit; reflexivity
        | apply tame_when
        | apply tame_statOk
        | apply tame_scrapeOnce
        | apply tame_WriteFileM
        | apply tame_bind; [|intros ?] ].

Lemma tame_scrapeLoop (fuel : nat) :
  forall retry url lastErr,
    tame (scrapeLoop scrapeChapterWithHTMLOnce fuel retry url lastErr).
Proof.
  induction fuel as [|fuel IH]; intros retry url lastErr; simpl.
  - apply tame_ret.
  - repeat tame_step.
    destruct x0 as [x0|err]; repeat tame_step. apply IH.
Qed.

Lemma ScrapeChapterWithHTML_emits (url : gostring) :
  emits (ScrapeChapterWithHTML scrapeChapterWithHTMLOnce url)
        (fun r o => o = [isOk r]).
Proof.
  unfold ScrapeChapterWithHTML.
  eapply emits_bind; [apply tame_scrapeLoop|].
  intros r o1 ->.
  intros w. exists [Scraped url (isOk r)]. simpl. now split.
Qed.

Lemma tame_saveTextFile savePath title content encoding lineEnding :
  tame (saveTextFile osWriteFile filepathJoin encodeText
                     savePath title content encoding lineEnding).
Proof.
  unfold saveTextFile.
  destruct (encodeText _ _) as [data|err]; repeat tame_step.
  destruct x as [err|]; repeat tame_step.
Qed.

Lemma tame_saveLoop (fuel : nat) :
  forall retry savePath title content encoding lineEnding lastErr,
    tame (saveLoop osWriteFile filepathJoin encodeText fuel retry
                   savePath title content encoding lineEnding lastErr).
Proof.
  induction fuel as [|fuel IH]; intros; simpl.
  - apply tame_ret.
  - apply tame_bind; [repeat tame_step | intros _].
    apply tame_bind; [apply tame_saveTextFile | intros r].
    destruct r as [err|]; repeat tame_step. apply IH.
Qed.

Lemma tame_shouldSkipEpisode savePath fileName episodeNumber createHtml createTxt :
  tame (shouldSkipEpisode filepathJoin savePath fileName episodeNumber
                          createHtml createTxt).
Proof.
  unfold shouldSkipEpisode, isFileAlreadySaved.
  destruct createHtml, createTxt; repeat tame_step.
Qed.

Lemma chapterStep_outcome savePath result createHtml createTxt encoding lineEnding
      novelCode totalChapters i chapter st :
  emits (step savePath result createHtml createTxt encoding lineEnding novelCode
              totalChapters i chapter st)
        (stepOutcome st).
Proof.
  unfold step, chapterStep.
  apply tame_bind; [repeat tame_step | intros _].
  apply tame_bind; [repeat tame_step | intros _].
  apply tame_bind; [apply tame_shouldSkipEpisode | intros skip].
  destruct skip.
  - apply tame_bind; [repeat tame_step | intros _].
    apply emits_ret. left. now split.
  - apply tame_bind; [repeat tame_step | intros _].
    eapply emits_bind; [apply ScrapeChapterWithHTML_emits|].
    intros r o1 ->. destruct r as [[[content rawHTML] fullPageHTML]|err]; simpl isOk.
    + apply tame_bind; [repeat tame_step | intros _].
      apply tame_bind.
      { destruct createTxt; [|apply tame_ret].
        apply tame_bind; [apply tame_saveLoop | intros e].
        destruct e; repeat tame_step. }
      intros _. apply emits_ret. right. left. split; [reflexivity|].
      eexists. split; reflexivity.
    + apply tame_bind; [repeat tame_step | intros _].
      destruct (maxFailures <=? S (failedChapters st)) eqn:E;
        apply emits_ret; right; right; (split; [reflexivity|]); rewrite E.
      * now exists err.
      * reflexivity.
Qed.

Lemma leadingFailures_firstn (l : list bool) :
  3 <= leadingFailures l -> firstn 3 l = [false; false; false].
Proof.
  destruct l as [|[] [|[] [|[] l]]]; simpl; intros H; try lia; reflexivity.
Qed.

Lemma firstn_leadingFailures (l : list bool) :
  firstn 3 l = [false; false; false] -> 3 <= leadingFailures l.
Proof.
  destruct l as [|[] [|[] [|[] l]]]; simpl; intros H; try discriminate; lia.
Qed.

Lemma hasTriple_false_head (l : list bool) :
  hasTriple l = false -> leadingFailures l < 3.
Proof.
  destruct l as [|x l]; [simpl; lia|].
  intros H. change (hasTriple (x :: l)) with
    ((3 <=? leadingFailures (x :: l)) || hasTriple l) in H.
  apply orb_false_iff in H. destruct H as [H _].
  apply Nat.leb_gt in H. exact H.
Qed.

Lemma hasTriple_false_app (later earlier : list bool) :
  hasTriple (later ++ [false; false; false] ++ earlier) = true.
Proof.
  induction later as [|x later IH].
  - reflexivity.
  - change (hasTriple ((x :: later) ++ [false; false; false] ++ earlier))
      with ((3 <=? leadingFailures ((x :: later) ++ [false; false; false] ++ earlier))
            || hasTriple (later ++ [false; false; false] ++ earlier)).
    rewrite IH. apply orb_true_r.
Qed.

Lemma hasTriple_cons (x : bool) (l : list bool) :
  hasTriple (x :: l) = (3 <=? leadingFailures (x :: l)) || hasTriple l.
Proof. reflexivity. Qed.

(** The loop keeps the counter equal to the number of failures at the
    head of the outcomes, never goes on with three of them, and aborts
    exactly on the third. *)
Lemma chapterLoop_outcome savePath result createHtml createTxt encoding lineEnding
      novelCode totalChapters rest :
  forall i st (h : list bool),
    failedChapters st = leadingFailures h ->
    hasTriple h = false ->
    emits (loop savePath result createHtml createTxt encoding lineEnding novelCode
                totalChapters i rest st)
          (fun r o =>
             match r with
             | inl st' => failedChapters st' = leadingFailures (o ++ h)
                          /\ hasTriple (o ++ h) = false
             | inr err => (exists lastErr, err = abortError lastErr)
                          /\ 3 <= leadingFailures (o ++ h)
                          /\ hasTriple (tl (o ++ h)) = false
             end).
Proof.
  induction rest as [|chapter rest IH]; intros i st h Hc Hh.
  - apply emits_ret. now split.
  - unfold loop. simpl. eapply emits_bind.
    { fold step. apply chapterStep_outcome. }
    intros r o1 Hstep.
    assert (Hlt : leadingFailures h < 3) by now apply hasTriple_false_head.
    destruct Hstep as [[-> ->] | [[-> [st' [-> Hz]]] | [-> Hf]]].
    + fold loop. eapply emits_weaken; [apply (IH (S i) st h Hc Hh)|].
      intros y o Hy. now rewrite app_nil_r.
    + fold loop.
      eapply emits_weaken; [apply (IH (S i) st' (true :: h))|]; auto.
      intros y o Hy. now rewrite <- app_assoc.
    + unfold maxFailures in Hf.
      destruct (3 <=? S (failedChapters st)) eqn:E.
      * destruct Hf as [lastErr ->]. apply emits_ret.
        apply Nat.leb_le in E. simpl. split; [now exists lastErr|].
        split; [lia | exact Hh].
      * subst r. apply Nat.leb_gt in E. fold loop.
        eapply emits_weaken; [apply (IH (S i) _ (false :: h))|].
        -- simpl. now rewrite Hc.
        -- rewrite hasTriple_cons, Hh, orb_false_r.
           apply Nat.leb_gt. simpl. lia.
        -- intros y o Hy. now rewrite <- app_assoc.
Qed.

Lemma abortError_not_save (lastErr err : gostring) :
  abortError lastErr <> b "連結TXTファイルの保存に失敗しました: " ++ err.
Proof.
  intros H. apply (f_equal (hd "000"%char)) in H. vm_compute in H. discriminate.
Qed.

Lemma abortError_not_empty_list (lastErr : gostring) :
  abortError lastErr <> b "エピソードが見つかりませんでした".
Proof.
  intros H. apply (f_equal (hd "000"%char)) in H. vm_compute in H. discriminate.
Qed.

Lemma downloadRensai_outcome savePath result createHtml createTxt encoding lineEnding
      createCombined :
  emits (run savePath result createHtml createTxt encoding lineEnding createCombined)
        (fun r o =>
           ((exists lastErr, r = Some (abortError lastErr))
            <-> firstn 3 o = [false; false; false])
           /\ hasTriple (tl o) = false).
Proof.
  unfold run, downloadRensai.
  destruct (ScrapeResult.Chapters result) as [|first rest] eqn:E.
  - apply emits_ret. split; [|reflexivity]. split.
    + intros [e He]. exfalso. apply (abortError_not_empty_list e). congruence.
    + discriminate.
  - apply tame_bind; [repeat tame_step | intros _].
    apply tame_bind; [repeat tame_step | intros _].
    eapply emits_bind.
    { fold loop. apply (chapterLoop_outcome savePath result createHtml createTxt
                          encoding lineEnding _ _ (first :: rest) 0 _ []);
        reflexivity. }
    intros r o1 Hloop. cbv beta in Hloop.
    destruct r as [st'|err]; rewrite !app_nil_r in Hloop.
    + destruct Hloop as [_ Hno].
      assert (Hnot : firstn 3 o1 <> [false; false; false]).
      { intros Hf. apply firstn_leadingFailures in Hf.
        apply hasTriple_false_head in Hno. lia. }
      assert (Htl : hasTriple (tl o1) = false).
      { destruct o1 as [|x o1]; [reflexivity|].
        rewrite hasTriple_cons in Hno. now apply orb_false_iff in Hno. }
      eapply emits_bind with
        (P := fun (e : option gostring) o =>
                o = [] /\ forall lastErr, e <> Some (abortError lastErr)).
      { destruct (createCombined && (0 <? length (allChapterContents st'))).
        - apply tame_bind; [repeat tame_step | intros _].
          apply tame_bind; [repeat tame_step | intros _].
          apply tame_bind; [repeat tame_step | intros _].
          destruct createTxt.
          + eapply emits_bind; [apply tame_saveLoop|].
            intros e o2 ->. destruct e as [err|]; apply emits_ret.
            * split; [reflexivity|]. intros lastErr He.
              apply (abortError_not_save lastErr err). congruence.
            * split; [reflexivity | discriminate].
          + apply emits_ret. split; [reflexivity | discriminate].
        - apply emits_ret. split; [reflexivity | discriminate]. }
      intros e o2 [-> Hne]. destruct e as [err|].
      * apply emits_ret. simpl. split; [|exact Htl]. split.
        -- intros [lastErr He]. now apply Hne in He.
        -- intros Hf. contradiction.
      * apply tame_bind; [repeat tame_step | intros _].
        apply tame_bind; [repeat tame_step | intros _].
        apply tame_bind; [repeat tame_step | intros _].
        apply emits_ret. simpl. split; [|exact Htl]. split.
        -- intros [lastErr He]. discriminate.
        -- intros Hf. contradiction.
    + destruct Hloop as [[lastErr ->] [Hge Htl]].
      apply emits_ret. simpl. split; [|exact Htl]. split.
      * intros _. now apply leadingFailures_firstn.
      * intros _. now exists lastErr.
Qed.

(** C7: in every run of [downloadRensai], whatever the chapters, the
    files and the results of the requests, (1) the run ends with the
    fatal error that quotes the count [maxFailures = 3] exactly when the
    three latest fetches of the run have failed, (2) no fetch is ever
    made after three failures in a row, and (3) each pass through the
    loop body either skips (state untouched), or fetches with success
    and leaves the failure counter at zero, or fetches with failure and
    increments the counter, aborting when it reaches 3. *)
Theorem downloadRensai_circuit_breaker :
  forall savePath result createHtml createTxt encoding lineEnding createCombined w,
    (let (r, w') := run savePath result createHtml createTxt encoding lineEnding
                        createCombined w in
     let o := scrapeOutcomes (newEvents w w') in
     ((exists lastErr, r = Some (abortError lastErr))
      <-> firstn 3 o = [false; false; false])
     /\ (forall later earlier,
           o = later ++ [false; false; false] ++ earlier -> later = []))
    /\ (forall novelCode totalChapters i chapter st w1,
          let (r1, w1') := step savePath result createHtml createTxt encoding lineEnding
                                novelCode totalChapters i chapter st w1 in
          stepOutcome st r1 (scrapeOutcomes (newEvents w1 w1'))).
Proof.
  intros. split.
  - destruct (downloadRensai_outcome savePath result createHtml createTxt encoding
                lineEnding createCombined w) as [evs [Ht [Hiff Htl]]].
    destruct (run savePath result createHtml createTxt encoding lineEnding
                  createCombined w) as [r w'].
    simpl in Ht, Hiff, Htl. rewrite (newEvents_app _ _ _ Ht). cbv zeta.
    split; [exact Hiff|].
    intros later earlier Ho. destruct later as [|x later]; [reflexivity|].
    rewrite Ho in Htl.
    change (hasTriple (later ++ [false; false; false] ++ earlier) = false) in Htl.
    now rewrite hasTriple_false_app in Htl.
  - intros.
    destruct (chapterStep_outcome savePath result createHtml createTxt encoding
                lineEnding novelCode totalChapters i chapter st w1) as [evs [Ht Ho]].
    destruct (step savePath result createHtml createTxt encoding lineEnding
                   novelCode totalChapters i chapter st w1) as [r1 w1'].
    simpl in Ht, Ho. now rewrite (newEvents_app _ _ _ Ht).
Qed.

End OrchestratorFacts.

(** C9, as stated, fails: with both outputs requested, the text file of
    the first chapter exists under its identifier [N1234AB-1], yet the run
    fetches that chapter again, because [html/1.html] does not exist
    ([downloadRensai] itself never writes it). *)
Lemma text_file_alone_does_not_skip :
  files sampleWorld
        (sampleJoin [b "out";
                     generateFileName (extractNovelCodeFromURL
                                         (ChapterInfo.URL (sampleChapter 1)))
                                      (episodeNumberAt 0 (sampleChapter 1))
                     ++ b ".txt"]) = true
  /\ let (r, w') :=
       downloadRensai sampleScrape sampleWrite sampleJoin sampleEncode
                      sampleFormat4 sampleFormat2 sampleRuby
                      (b "out") (sampleResult 1) true true (b "UTF-8") (b "LF") false
                      sampleWorld in
     scrapeOutcomes (newEvents sampleWorld w') = [true] /\ requests w' = 1.
Proof. vm_compute. auto. Qed.

Lemma saved_chapter_is_skipped_witness :
  chapterStep sampleScrape sampleWrite sampleJoin sampleEncode
              sampleFormat4 sampleFormat2
              (b "out") (sampleResult 2) false true (b "UTF-8") (b "LF")
              (b "N1234AB") 2 0 (sampleChapter 1)
              (mkLoopState (ScrapeResult.Chapters (sampleResult 2)) [] 0) sampleWorld
  = (inl (mkLoopState (ScrapeResult.Chapters (sampleResult 2)) [] 0),
     addTrace (skipEvents 2 0 (sampleChapter 1)) sampleWorld)
  /\ chapterLoop sampleScrape sampleWrite sampleJoin sampleEncode
                 sampleFormat4 sampleFormat2
                 (b "out") (sampleResult 2) false true (b "UTF-8") (b "LF")
                 (b "N1234AB") 2 0 [sampleChapter 1; sampleChapter 2]
                 (mkLoopState (ScrapeResult.Chapters (sampleResult 2)) [] 0) sampleWorld
     = chapterLoop sampleScrape sampleWrite sampleJoin sampleEncode
                   sampleFormat4 sampleFormat2
                   (b "out") (sampleResult 2) false true (b "UTF-8") (b "LF")
                   (b "N1234AB") 2 1 [sampleChapter 2]
                   (mkLoopState (ScrapeResult.Chapters (sampleResult 2)) [] 0)
                   (addTrace (skipEvents 2 0 (sampleChapter 1)) sampleWorld).
Proof.
  apply (saved_chapter_is_skipped sampleScrape sampleWrite sampleJoin sampleEncode
           sampleFormat4 sampleFormat2
           (b "out") (sampleResult 2) false true (b "UTF-8") (b "LF")
           (b "N1234AB") 2 0 (sampleChapter 1) [sampleChapter 2]
           (mkLoopState (ScrapeResult.Chapters (sampleResult 2)) [] 0) sampleWorld).
  - intros _. vm_compute. reflexivity.
  - discriminate.
Defined.

(** A run of five chapters in which every request fails: the first
    chapter is skipped, the next three fail, and the run stops there with
    the error that quotes the count. *)
Lemma downloadRensai_circuit_breaker_witness :
  let (r, w') :=
    downloadRensai failingScrape sampleWrite sampleJoin sampleEncode
                   sampleFormat4 sampleFormat2 sampleRuby
                   (b "out") (sampleResult 5) false true (b "UTF-8") (b "LF") true
                   sampleWorld in
  ((exists lastErr, r = Some (abortError lastErr))
   <-> firstn 3 (scrapeOutcomes (newEvents sampleWorld w')) = [false; false; false])
  /\ scrapeOutcomes (newEvents sampleWorld w') = [false; false; false].
Proof.
  pose proof (downloadRensai_circuit_breaker failingScrape sampleWrite sampleJoin
                sampleEncode sampleFormat4 sampleFormat2 sampleRuby
                (b "out") (sampleResult 5) false true (b "UTF-8") (b "LF") true
                sampleWorld) as [H _].
  destruct (downloadRensai failingScrape sampleWrite sampleJoin sampleEncode
              sampleFormat4 sampleFormat2 sampleRuby
              (b "out") (sampleResult 5) false true (b "UTF-8") (b "LF") true
              sampleWorld) as [r w'] eqn:E.
  destruct H as [Hiff _]. split; [exact Hiff|].
  apply (f_equal snd) in E. simpl in E. subst w'. vm_compute. reflexivity.
Defined.

(** * Further properties of the code *)

(** ** Names of saved files *)

Lemma replaceFrom_byte (c d : ascii) (s : gostring) :
  strings.replaceFrom [c] [d] 0 s = map (fun x => if Ascii.eqb c x then d else x) s.
Proof.
  induction s as [|x s IH]; [reflexivity|].
  cbn [strings.replaceFrom strings.HasPrefix length Nat.sub map app].
  rewrite andb_true_r. destruct (Ascii.eqb c x); cbn [app]; now rewrite IH.
Qed.

(** The nine passes amount to one substitution byte by byte. *)
Lemma sanitize_passes (s : gostring) :
  sanitizeFileName s = firstn 100 (map sanitizeByte s).
Proof.
  unfold sanitizeFileName, strings.ReplaceAll.
  change (b "/") with ["/"%char]. change (b "\") with ["\"%char].
  change (b ":") with [":"%char]. change (b "*") with ["*"%char].
  change (b "?") with ["?"%char]. change (b "<") with ["<"%char].
  change (b ">") with [">"%char]. change (b "|") with ["|"%char].
  change (b "_") with ["_"%char].
  cbv zeta. rewrite !replaceFrom_byte, !map_map.
  match goal with
  | |- (if 100 <? length ?l then _ else _) = _ =>
      assert (E : l = map sanitizeByte s)
  end.
  { apply map_ext. intros a. unfold sanitizeByte, hasByte, unsafeBytes.
    destruct a as [[] [] [] [] [] [] [] []]; reflexivity. }
  rewrite E. destruct (100 <? length (map sanitizeByte s)) eqn:L; [reflexivity|].
  apply Nat.ltb_ge in L. now rewrite firstn_all2.
Qed.

Lemma firstn_In {A} (n : nat) (l : list A) (x : A) :
  In x (firstn n l) -> In x l.
Proof.
  revert l. induction n as [|n IH]; intros l H; [contradiction|].
  destruct l as [|y l]; [contradiction|].
  simpl in H. destruct H as [->|H]; [now left | right; now apply IH].
Qed.

Lemma sanitizeByte_safe (x c : ascii) :
  hasByte c unsafeBytes = true -> sanitizeByte x <> c.
Proof.
  intros Hc E. unfold sanitizeByte in E. destruct (hasByte x unsafeBytes) eqn:Hx.
  - subst c. discriminate.
  - congruence.
Qed.

Lemma forallb_impl {A} (p q : A -> bool) (l : list A) :
  (forall x, p x = true -> q x = true) -> forallb p l = true -> forallb q l = true.
Proof.
  intros H. rewrite !forallb_forall. intros Hp x Hx. now apply H, Hp.
Qed.

(** X1: the name that [sanitizeFileName] returns has the length of the
    given name, cut at 100 bytes, holds none of the nine bytes
    that it replaces (slash, backslash, colon, asterisk, question mark,
    double quote, angle brackets and bar), and is left as it is by a second call. *)
Theorem sanitizeFileName_safe (s : gostring) :
  length (sanitizeFileName s) = Nat.min 100 (length s)
  /\ forallb (fun c => negb (hasByte c (sanitizeFileName s))) unsafeBytes = true
  /\ sanitizeFileName (sanitizeFileName s) = sanitizeFileName s.
Proof.
  rewrite !sanitize_passes. split; [|split].
  - now rewrite length_firstn, length_map.
  - rewrite forallb_forall. intros c Hc. apply negb_true_iff.
    apply hasByte_false. intros Hin.
    apply firstn_In in Hin. apply in_map_iff in Hin.
    destruct Hin as [x [E _]]. apply (sanitizeByte_safe x c); [|exact E].
    unfold hasByte. apply existsb_exists. exists c. split; [exact Hc|].
    apply Ascii.eqb_refl.
  - rewrite <- firstn_map, map_map, firstn_firstn. f_equal.
    apply map_ext. intros a. unfold sanitizeByte.
    destruct (hasByte a unsafeBytes) eqn:E; [reflexivity | now rewrite E].
Qed.

(** X2: a name of at most 100 bytes that holds none of the nine bytes is
    returned unchanged. *)
Theorem sanitizeFileName_keeps_safe_name (s : gostring) :
  forallb (fun c => negb (hasByte c unsafeBytes)) s = true ->
  length s <= 100 ->
  sanitizeFileName s = s.
Proof.
  intros Hs Hl. rewrite sanitize_passes.
  rewrite firstn_all2 by now rewrite length_map.
  rewrite <- (map_id s) at 2. apply map_ext_in. intros a Ha.
  rewrite forallb_forall in Hs. specialize (Hs a Ha).
  apply negb_true_iff in Hs. unfold sanitizeByte. now rewrite Hs.
Qed.

Lemma sanitizeFileName_keeps_safe_name_witness :
  sanitizeFileName (b "N1234AB-1") = b "N1234AB-1".
Proof.
  apply (sanitizeFileName_keeps_safe_name (b "N1234AB-1")).
  - reflexivity.
  - vm_compute. lia.
Defined.

(** *** The shape of a match *)

Lemma starK_within {A} (P : ascii -> bool) (greedy : bool) (p : ascii -> bool) :
  (forall x, p x = true -> P x = true) ->
  forall (s : gostring) (k : gostring -> option A) (x : A),
    starK greedy p s k = Some x ->
    exists u s', s = u ++ s' /\ k s' = Some x /\ forallb P u = true.
Proof.
  intros HP s. induction s as [|c s IH]; intros k x H.
  - exists [], []. split; [reflexivity|]. split; [|reflexivity].
    destruct greedy; simpl in H; [exact H|].
    destruct (k []); [exact H | discriminate].
  - destruct greedy; simpl in H.
    + destruct (p c) eqn:Hc.
      * destruct (starK true p s k) as [y|] eqn:E.
        -- injection H as ->. destruct (IH k x E) as [u [s' [-> [Hk Hu]]]].
           exists (c :: u), s'. repeat split; auto. simpl. now rewrite (HP c Hc).
        -- exists [], (c :: s). now repeat split.
      * exists [], (c :: s). now repeat split.
    + destruct (k (c :: s)) as [y|] eqn:E.
      * exists [], (c :: s). repeat split; auto. congruence.
      * destruct (p c) eqn:Hc; [|discriminate].
        destruct (IH k x H) as [u [s' [-> [Hk Hu]]]].
        exists (c :: u), s'. repeat split; auto. simpl. now rewrite (HP c Hc).
Qed.

(** The shape of a successful match: the bytes taken are in [P], a
    consuming pattern takes at least one, and a pattern without a group
    hands the capture on as it got it. *)
Lemma matchK_shape {A} (P : ascii -> bool) (r : Regexp) :
  within P r ->
  forall (s : gostring) (g : Capture) (k : gostring -> Capture -> option A) (x : A),
    matchK r s g k = Some x ->
    exists u s' g', s = u ++ s' /\ k s' g' = Some x
                    /\ forallb P u = true
                    /\ (consumes r = true -> u <> [])
                    /\ (NumSubexp r = 0 -> g' = g).
Proof.
  induction r as [ | c | p | r1 IH1 r2 IH2 | r1 IH1 r2 IH2 | r1 IH1 | gr p | r1 IH1 ];
    intros W s g k x H; simpl in H, W.
  - exists [], s, g. repeat split; auto. discriminate.
  - destruct s as [|c' s]; [discriminate|].
    destruct (Ascii.eqb c c') eqn:E; [|discriminate].
    apply Ascii.eqb_eq in E. subst c'.
    exists [c], s, g. repeat split; auto; [simpl; now rewrite W | discriminate].
  - destruct s as [|c' s]; [discriminate|].
    destruct (p c') eqn:E; [|discriminate].
    exists [c'], s, g. repeat split; auto; [simpl; now rewrite (W c' E) | discriminate].
  - destruct W as [W1 W2].
    destruct (IH1 W1 _ _ _ _ H) as [u1 [s1 [g1 [-> [H1 [P1 [C1 N1]]]]]]].
    destruct (IH2 W2 _ _ _ _ H1) as [u2 [s2 [g2 [-> [H2 [P2 [C2 N2]]]]]]].
    exists (u1 ++ u2), s2, g2. split; [now rewrite app_assoc|].
    split; [exact H2|]. split; [now rewrite forallb_app, P1, P2|]. split.
    + simpl. intros C. apply orb_true_iff in C.
      intros E. apply app_eq_nil in E. destruct E as [E1 E2].
      destruct C as [C|C]; [now apply C1 | now apply C2].
    + simpl. intros N. rewrite N2, N1; [reflexivity | lia | lia].
  - destruct W as [W1 W2]. destruct (matchK r1 s g k) as [y|] eqn:E.
    + injection H as ->.
      destruct (IH1 W1 _ _ _ _ E) as [u [s' [g' [-> [H1 [P1 [C1 N1]]]]]]].
      exists u, s', g'. repeat split; auto; simpl.
      * intros C. apply andb_true_iff in C. now apply C1.
      * intros N. apply N1. lia.
    + destruct (IH2 W2 _ _ _ _ H) as [u [s' [g' [-> [H2 [P2 [C2 N2]]]]]]].
      exists u, s', g'. repeat split; auto; simpl.
      * intros C. apply andb_true_iff in C. now apply C2.
      * intros N. apply N2. lia.
  - destruct (matchK r1 s g k) as [y|] eqn:E.
    + injection H as ->.
      destruct (IH1 W _ _ _ _ E) as [u [s' [g' [-> [H1 [P1 [_ N1]]]]]]].
      exists u, s', g'. repeat split; auto. discriminate.
    + exists [], s, g. repeat split; auto. discriminate.
  - destruct (starK_within P gr p W _ _ _ H) as [u [s' [-> [Hk Hu]]]].
    exists u, s', g. repeat split; auto. discriminate.
  - destruct (IH1 W _ _ _ _ H) as [u [s' [g' [-> [H1 [P1 [C1 _]]]]]]].
    exists u, s', (Some (firstn (length (u ++ s') - length s') (u ++ s'))).
    split; [reflexivity|]. split; [exact H1|]. split; [exact P1|].
    split; [exact C1 | discriminate].
Qed.

Lemma firstn_consumed (u v : gostring) :
  firstn (length (u ++ v) - length v) (u ++ v) = u.
Proof.
  rewrite length_app.
  replace (length u + length v - length v) with (length u) by lia.
  now rewrite firstn_app, firstn_all, Nat.sub_diag, app_nil_r.
Qed.

Lemma matchK_group {A} (P : ascii -> bool) (G : Regexp) :
  within P G ->
  forall (s : gostring) (g : Capture) (k : gostring -> Capture -> option A) (x : A),
    matchK (Group G) s g k = Some x ->
    exists u s', s = u ++ s' /\ k s' (Some u) = Some x
                 /\ forallb P u = true /\ (consumes G = true -> u <> []).
Proof.
  intros W s g k x H. cbn [matchK] in H.
  destruct (matchK_shape P G W _ _ _ _ H) as [u [s' [g' [-> [Hk [Pu [C _]]]]]]].
  exists u, s'. repeat split; auto. now rewrite firstn_consumed in Hk.
Qed.

Lemma within_true (r : Regexp) : within (fun _ => true) r.
Proof. induction r; simpl; auto. Qed.

(** The capture of a pattern [pre (G) post] whose only group is [G]. *)
Lemma matchAt_capture (P : ascii -> bool) (pre G post : Regexp)
      (s rest : gostring) (g : Capture) :
  NumSubexp pre = 0 -> NumSubexp post = 0 -> within P G ->
  matchAt (Seq pre (Seq (Group G) post)) s = Some (rest, g) ->
  exists u, g = Some u /\ forallb P u = true /\ (consumes G = true -> u <> []).
Proof.
  intros N1 N2 W H. unfold matchAt in H. cbn [matchK] in H.
  destruct (matchK_shape _ pre (within_true pre) _ _ _ _ H)
    as [u1 [s1 [g1 [-> [H1 [_ [_ E1]]]]]]].
  change (matchK (Group G) s1 g1
            (fun s' g' => matchK post s' g' (fun s'' g'' => Some (s'', g'')))
          = Some (rest, g)) in H1.
  destruct (matchK_group P G W _ _ _ _ H1) as [u [s2 [-> [H2 [Pu C]]]]].
  destruct (matchK_shape _ post (within_true post) _ _ _ _ H2)
    as [u3 [s3 [g3 [-> [H3 [_ [_ E3]]]]]]].
  rewrite (E3 N2) in H3. injection H3 as _ <-. now exists u.
Qed.

Lemma FindStringSubmatch_some (r : Regexp) (s m : gostring) (g : Capture) :
  FindStringSubmatch r s = Some (m, g) ->
  exists pre t rest, s = pre ++ t /\ matchAt r t = Some (rest, g) /\ m = consumed t rest.
Proof.
  induction s as [|c s IH]; cbn [FindStringSubmatch]; intros H.
  - destruct (matchAt r []) as [[rest g']|] eqn:E; [|discriminate].
    injection H as <- <-. now exists [], [], rest.
  - destruct (matchAt r (c :: s)) as [[rest g']|] eqn:E.
    + injection H as <- <-. now exists [], (c :: s), rest.
    + destruct (IH H) as [pre [t [rest [-> [Hm Hc]]]]].
      now exists (c :: pre), t, rest.
Qed.

(** *** Novel codes and episode numbers *)

Lemma toUpper_code (c : ascii) : alnumLower c = true -> codeByte (toUpper c) = true.
Proof.
  unfold alnumLower, codeByte, toUpper. intros H.
  destruct (isLower c) eqn:L.
  - unfold isLower in L. apply andb_true_iff in L. destruct L as [L1 L2].
    apply Nat.leb_le in L1. apply Nat.leb_le in L2.
    unfold isUpper. rewrite nat_ascii_embedding by lia.
    apply orb_true_iff. left. apply andb_true_iff. split; apply Nat.leb_le; lia.
  - cbn [orb] in H. rewrite H. apply orb_true_r.
Qed.

Lemma episodeFromParts_digits (parts : list gostring) (e : gostring) :
  episodeFromParts parts = Some e -> e <> [] /\ forallb digit e = true.
Proof.
  induction parts as [|part rest IH]; cbn [episodeFromParts]; [discriminate|].
  destruct rest as [|episodeNum rest']; [exact IH|].
  destruct (strings.HasPrefix part (b "n") && (1 <? length part)
            && negb (eqs episodeNum []) && negb (eqs episodeNum (b "/"))
            && forallb digit episodeNum) eqn:C; [|exact IH].
  intros H. injection H as <-.
  apply andb_true_iff in C. destruct C as [C Hd].
  apply andb_true_iff in C. destruct C as [C _].
  apply andb_true_iff in C. destruct C as [_ Hne].
  split; [|exact Hd]. intros ->. discriminate.
Qed.

Lemma episode_number_digits (url : gostring) :
  extractEpisodeNumberFromURL url <> []
  /\ forallb digit (extractEpisodeNumberFromURL url) = true.
Proof.
  unfold extractEpisodeNumberFromURL.
  destruct (FindStringSubmatch reEpisode url) as [[m g]|] eqn:E.
  - destruct (FindStringSubmatch_some _ _ _ _ E) as [pre [t [rest [_ [Hm _]]]]].
    change (matchAt (Seq (Seq (lit (b "/n"))
                         (Seq (plus true digit) (Seq (plus true isLower) (Lit "/"%char))))
                    (Seq (Group (plus true digit)) (Opt (Lit "/"%char)))) t
            = Some (rest, g)) in Hm.
    apply matchAt_capture with (P := digit) in Hm;
      [| reflexivity | reflexivity | split; intros x Hx; exact Hx].
    destruct Hm as [u [-> [Hd Hne]]].
    split; [now apply Hne | exact Hd].
  - destruct (episodeFromParts (Split url "/"%char)) as [e|] eqn:F.
    + now apply episodeFromParts_digits in F.
    + split; [discriminate | reflexivity].
Qed.

Lemma string_of_uint_digits (d : Decimal.uint) :
  forallb digit (b (DecimalString.NilEmpty.string_of_uint d)) = true.
Proof.
  unfold b.
  induction d;
    cbn [DecimalString.NilEmpty.string_of_uint list_ascii_of_string forallb];
    [reflexivity | ..]; rewrite IHd; reflexivity.
Qed.

Lemma itoa_digits (n : nat) : itoa n <> [] /\ forallb digit (itoa n) = true.
Proof.
  unfold itoa, DecimalString.NilZero.string_of_uint.
  destruct (Nat.to_uint n) eqn:E;
    (split; [discriminate | try reflexivity; rewrite <- E at 1; apply string_of_uint_digits]).
Qed.

Lemma episodeNumberAt_digits (i : nat) (chapter : ChapterInfo.t) :
  forallb digit (episodeNumberAt i chapter) = true.
Proof.
  unfold episodeNumberAt. destruct (eqs _ [] || _);
    [apply itoa_digits | apply episode_number_digits].
Qed.

(** X3: the episode number read from a URL is never empty and is made
    of decimal digits only, whatever the URL; so is the episode number
    that the chapter loop uses, which falls back on the position of the
    chapter. *)
Theorem episode_numbers_are_digits (url : gostring) (i : nat) (chapter : ChapterInfo.t) :
  (extractEpisodeNumberFromURL url <> []
   /\ forallb digit (extractEpisodeNumberFromURL url) = true)
  /\ (episodeNumberAt i chapter <> []
      /\ forallb digit (episodeNumberAt i chapter) = true).
Proof.
  split; [apply episode_number_digits|].
  unfold episodeNumberAt.
  destruct (eqs (extractEpisodeNumberFromURL (ChapterInfo.URL chapter)) []
            || (0 <? i) && eqs (extractEpisodeNumberFromURL (ChapterInfo.URL chapter))
                               (b "1")).
  - apply itoa_digits.
  - apply episode_number_digits.
Qed.

(** The novel code is [UNKNOWN], or [N] followed by one or more
    upper-case letters and digits. *)
Lemma novel_code_shape (url : gostring) :
  extractNovelCodeFromURL url = b "UNKNOWN"
  \/ exists rest, extractNovelCodeFromURL url = "N"%char :: rest
                  /\ rest <> [] /\ forallb codeByte rest = true.
Proof.
  unfold extractNovelCodeFromURL.
  destruct (FindStringSubmatch reNovelCode url) as [[m g]|] eqn:E.
  - right. destruct (FindStringSubmatch_some _ _ _ _ E) as [pre [t [rest [_ [Hm _]]]]].
    assert (W : within alnumLower (Seq (plus true digit) (plus true isLower))).
    { unfold alnumLower. cbn. repeat split; intros x Hx; rewrite Hx;
        auto using orb_true_r. }
    apply matchAt_capture with (P := alnumLower) in Hm;
      [| reflexivity | reflexivity | exact W].
    destruct Hm as [u [-> [Hd Hne]]]. specialize (Hne eq_refl).
    exists (ToUpper u). split; [reflexivity|]. split.
    + destruct u; [contradiction | discriminate].
    + unfold ToUpper. rewrite forallb_forall. intros x Hx.
      apply in_map_iff in Hx. destruct Hx as [y [<- Hy]].
      apply toUpper_code. rewrite forallb_forall in Hd. now apply Hd.
  - destruct (find _ (Split url "/"%char)) as [part|] eqn:F; [right | now left].
    apply find_some in F. destruct F as [_ F].
    apply andb_true_iff in F. destruct F as [F Ha].
    apply andb_true_iff in F. destruct F as [Hp Hl].
    apply HasPrefix_true in Hp. destruct Hp as [t ->].
    change (b "n" ++ t) with ("n"%char :: t) in *. cbn [tl length] in *.
    apply Nat.ltb_lt in Hl. exists (ToUpper t). split; [reflexivity|]. split.
    + destruct t; [cbn [length] in Hl; lia | discriminate].
    + unfold ToUpper. rewrite forallb_forall. intros x Hx.
      apply in_map_iff in Hx. destruct Hx as [y [<- Hy]].
      apply toUpper_code. rewrite forallb_forall in Ha. now apply Ha.
Qed.

(** X4: the novel code read from a URL has at least two bytes, all of
    them upper-case letters or digits, and is either [UNKNOWN] or starts
    with [N]. *)
Theorem extractNovelCodeFromURL_code (url : gostring) :
  2 <= length (extractNovelCodeFromURL url)
  /\ forallb codeByte (extractNovelCodeFromURL url) = true
  /\ (extractNovelCodeFromURL url = b "UNKNOWN"
      \/ exists rest, extractNovelCodeFromURL url = "N"%char :: rest).
Proof.
  destruct (novel_code_shape url) as [E|[rest [E [Hne Hc]]]]; rewrite E.
  - split; [vm_compute; lia|]. split; [reflexivity | now left].
  - split; [|split].
    + destruct rest; [contradiction | cbn [length]; lia].
    + cbn [forallb]. now rewrite Hc.
    + right. now exists rest.
Qed.

Lemma nameByte_safe (c : ascii) :
  nameByte c = true -> hasByte c unsafeBytes = false.
Proof.
  destruct c as [[] [] [] [] [] [] [] []]; intros H; try reflexivity; discriminate H.
Qed.

(** A file name built from a URL and a number holds name bytes only. *)
Lemma file_name_bytes (url e : gostring) :
  forallb digit e = true ->
  forallb nameByte (generateFileName (extractNovelCodeFromURL url) e) = true.
Proof.
  intros He. unfold generateFileName. rewrite !forallb_app.
  apply andb_true_iff. split; [|apply andb_true_iff; split].
  - destruct (novel_code_shape url) as [E|[rest [E [_ Hc]]]]; rewrite E; [reflexivity|].
    cbn [forallb]. change (nameByte "N"%char) with true. cbn [andb].
    revert Hc. apply forallb_impl. intros x Hx. unfold nameByte. now rewrite Hx.
  - reflexivity.
  - revert He. apply forallb_impl. intros x Hx. unfold nameByte, codeByte.
    rewrite Hx. now rewrite orb_true_r.
Qed.

(** X5: the file name that the chapter loop gives to a chapter (the
    novel code, a hyphen, the episode number) is made of upper-case
    letters, digits and hyphens only; in particular it holds no path
    separator and none of the bytes that [sanitizeFileName] replaces,
    although the loop never passes it to that function. *)
Theorem chapter_file_name_safe (firstURL : gostring) (i : nat) (chapter : ChapterInfo.t) :
  let name := generateFileName (extractNovelCodeFromURL firstURL)
                               (episodeNumberAt i chapter) in
  forallb nameByte name = true
  /\ forallb (fun c => negb (hasByte c name)) unsafeBytes = true.
Proof.
  cbv zeta.
  pose proof (file_name_bytes firstURL _ (episodeNumberAt_digits i chapter)) as Hn.
  split; [exact Hn|].
  rewrite forallb_forall. intros c Hc. apply negb_true_iff. apply hasByte_false.
  intros Hin. rewrite forallb_forall in Hn. apply Hn in Hin.
  apply nameByte_safe in Hin. apply hasByte_false in Hin. contradiction.
Qed.

(** *** Canonical URLs *)

Lemma starK_greedy_all {A} (p : ascii -> bool) (u t : gostring)
      (k : gostring -> option A) (x : A) :
  forallb p u = true ->
  starK true p t k = Some x ->
  starK true p (u ++ t) k = Some x.
Proof.
  induction u as [|c u IH]; intros Hu H; [exact H|].
  cbn [forallb] in Hu. apply andb_true_iff in Hu. destruct Hu as [Hc Hu].
  cbn [app starK]. rewrite Hc. now rewrite (IH Hu H).
Qed.

Lemma starK_greedy_stop {A} (p : ascii -> bool) (t : gostring)
      (k : gostring -> option A) :
  stopsAt p t = true -> starK true p t k = k t.
Proof.
  destruct t as [|c t]; [reflexivity|]. cbn [stopsAt starK]. intros H.
  apply negb_true_iff in H. now rewrite H.
Qed.

(** The greedy [p+] takes a whole stretch of the class when the rest of
    the pattern matches after it. *)
Lemma matchK_plus_greedy {A} (p : ascii -> bool) (u t : gostring) (g : Capture)
      (k : gostring -> Capture -> option A) (x : A) :
  u <> [] -> forallb p u = true -> stopsAt p t = true ->
  k t g = Some x ->
  matchK (plus true p) (u ++ t) g k = Some x.
Proof.
  intros Hne Hu Ht Hk. destruct u as [|c u]; [contradiction|].
  cbn [forallb] in Hu. apply andb_true_iff in Hu. destruct Hu as [Hc Hu].
  unfold plus. cbn [matchK app]. rewrite Hc.
  apply starK_greedy_all; [exact Hu|]. now rewrite starK_greedy_stop.
Qed.

Lemma matchK_lit {A} (w t : gostring) (g : Capture)
      (k : gostring -> Capture -> option A) :
  matchK (lit w) (w ++ t) g k = k t g.
Proof.
  induction w as [|c w IH]; [reflexivity|].
  change (lit (c :: w)) with (Seq (Lit c) (lit w)).
  cbn [matchK app]. now rewrite Ascii.eqb_refl.
Qed.

Lemma FindStringSubmatch_skip (r : Regexp) (c : ascii) (s : gostring) :
  matchAt r (c :: s) = None ->
  FindStringSubmatch r (c :: s) = FindStringSubmatch r s.
Proof. intros H. cbn [FindStringSubmatch]. now rewrite H. Qed.

Lemma lower_not_digit (c : ascii) : isLower c = true -> digit c = false.
Proof.
  unfold isLower, digit. intros H. apply andb_true_iff in H. destruct H as [H _].
  apply Nat.leb_le in H. apply andb_false_iff. right. apply Nat.leb_gt. lia.
Qed.

Lemma stopsAt_lower (ls t : gostring) :
  ls <> [] -> forallb isLower ls = true -> stopsAt digit (ls ++ t) = true.
Proof.
  intros Hne H. destruct ls as [|c ls]; [contradiction|].
  cbn [forallb] in H. apply andb_true_iff in H. destruct H as [H _].
  cbn [app stopsAt]. now rewrite (lower_not_digit c H).
Qed.

Lemma matchAt_reNovelCode (ds ls t : gostring) :
  ds <> [] -> forallb digit ds = true ->
  ls <> [] -> forallb isLower ls = true ->
  matchAt reNovelCode (b "/n" ++ ds ++ ls ++ "/"%char :: t) = Some (t, Some (ds ++ ls)).
Proof.
  intros Hd1 Hd2 Hl1 Hl2. unfold matchAt, reNovelCode. cbn [matchK].
  rewrite matchK_lit.
  apply matchK_plus_greedy; [exact Hd1 | exact Hd2 | now apply stopsAt_lower |].
  apply matchK_plus_greedy; [exact Hl1 | exact Hl2 | reflexivity |].
  cbn [matchK]. rewrite Ascii.eqb_refl.
  rewrite (app_assoc ds ls). now rewrite firstn_consumed.
Qed.

Lemma matchAt_reEpisode (ds ls ep t : gostring) :
  ds <> [] -> forallb digit ds = true ->
  ls <> [] -> forallb isLower ls = true ->
  ep <> [] -> forallb digit ep = true -> stopsAt digit t = true ->
  exists rest,
    matchAt reEpisode (b "/n" ++ ds ++ ls ++ "/"%char :: ep ++ t) = Some (rest, Some ep).
Proof.
  intros Hd1 Hd2 Hl1 Hl2 He1 He2 Ht.
  exists (match t with
          | c :: t' => if Ascii.eqb "/"%char c then t' else t
          | [] => t
          end).
  unfold matchAt, reEpisode. cbn [matchK].
  rewrite matchK_lit.
  apply matchK_plus_greedy; [exact Hd1 | exact Hd2 | now apply stopsAt_lower |].
  apply matchK_plus_greedy; [exact Hl1 | exact Hl2 | reflexivity |].
  cbn [matchK]. rewrite Ascii.eqb_refl.
  apply matchK_plus_greedy; [exact He1 | exact He2 | exact Ht |].
  rewrite firstn_consumed.
  destruct t as [|c t']; [reflexivity|]. now destruct (Ascii.eqb "/"%char c).
Qed.

Lemma ToUpper_digits (ds : gostring) : forallb digit ds = true -> ToUpper ds = ds.
Proof.
  unfold ToUpper. intros H. rewrite <- (map_id ds) at 2. apply map_ext_in.
  intros c Hc. rewrite forallb_forall in H. specialize (H c Hc).
  unfold toUpper. destruct (isLower c) eqn:L; [|reflexivity].
  apply lower_not_digit in L. congruence.
Qed.

(** X6: for an episode URL of the site, [host/n<digits><letters>/<episode>]
    followed by nothing or by something that does not start with a
    digit, the novel code is [N], the digits and the letters in upper
    case, and the episode number is the episode. *)
Theorem canonical_episode_url (host ds ls ep t : gostring) :
  In host siteHosts ->
  ds <> [] -> forallb digit ds = true ->
  ls <> [] -> forallb isLower ls = true ->
  ep <> [] -> forallb digit ep = true -> stopsAt digit t = true ->
  extractNovelCodeFromURL (host ++ b "/n" ++ ds ++ ls ++ b "/" ++ ep ++ t)
  = b "N" ++ ds ++ ToUpper ls
  /\ extractEpisodeNumberFromURL (host ++ b "/n" ++ ds ++ ls ++ b "/" ++ ep ++ t) = ep.
Proof.
  intros Hh Hd1 Hd2 Hl1 Hl2 He1 He2 Ht.
  pose proof (matchAt_reNovelCode ds ls (ep ++ t) Hd1 Hd2 Hl1 Hl2) as HN.
  destruct (matchAt_reEpisode ds ls ep t Hd1 Hd2 Hl1 Hl2 He1 He2 Ht) as [rest HE].
  change (b "/" ++ ep ++ t) with ("/"%char :: ep ++ t).
  unfold extractNovelCodeFromURL, extractEpisodeNumberFromURL.
  set (u := b "/n" ++ ds ++ ls ++ "/"%char :: ep ++ t) in *.
  assert (HF : FindStringSubmatch reNovelCode (host ++ u) = FindStringSubmatch reNovelCode u
               /\ FindStringSubmatch reEpisode (host ++ u) = FindStringSubmatch reEpisode u).
  { destruct Hh as [<-|[<-|[]]];
      cbv [b list_ascii_of_string app];
      (split; repeat (rewrite FindStringSubmatch_skip by reflexivity); reflexivity). }
  destruct HF as [-> ->].
  rewrite (FindStringSubmatch_at _ _ _ _ HN), (FindStringSubmatch_at _ _ _ _ HE).
  split; [|reflexivity].
  unfold ToUpper. rewrite map_app. fold (ToUpper ds). fold (ToUpper ls).
  now rewrite ToUpper_digits.
Qed.

Lemma canonical_episode_url_witness :
  extractNovelCodeFromURL
    (b "https://ncode.syosetu.com" ++ b "/n" ++ b "3161" ++ b "kd" ++ b "/" ++ b "12"
     ++ b "/")
  = b "N" ++ b "3161" ++ ToUpper (b "kd")
  /\ extractEpisodeNumberFromURL
       (b "https://ncode.syosetu.com" ++ b "/n" ++ b "3161" ++ b "kd" ++ b "/" ++ b "12"
        ++ b "/")
     = b "12".
Proof.
  apply (canonical_episode_url (b "https://ncode.syosetu.com") (b "3161") (b "kd")
                               (b "12") (b "/")).
  - simpl. auto.
  - discriminate.
  - reflexivity.
  - discriminate.
  - reflexivity.
  - discriminate.
  - reflexivity.
  - reflexivity.
Defined.

(** *** Index URLs *)

Lemma class_without (p : ascii -> bool) (c : ascii) (tok : gostring) :
  p c = false -> forallb p tok = true -> hasByte c tok = false.
Proof.
  intros Hc H. apply hasByte_false. intros Hin.
  rewrite forallb_forall in H. rewrite (H c Hin) in Hc. discriminate.
Qed.

Lemma FindAnchored_episode (host ds ls ep slash : gostring) :
  ds <> [] -> forallb digit ds = true ->
  ls <> [] -> forallb isLower ls = true ->
  ep <> [] -> forallb digit ep = true ->
  slash = [] \/ slash = b "/" ->
  FindAnchored (reEpisodeURL host) (host ++ b "/n" ++ ds ++ ls ++ b "/" ++ ep ++ slash)
  = Some (Some (host ++ b "/n" ++ ds ++ ls)).
Proof.
  intros Hd1 Hd2 Hl1 Hl2 He1 He2 Hs.
  unfold FindAnchored, reEpisodeURL. cbn [matchK].
  rewrite matchK_lit, matchK_lit.
  apply matchK_plus_greedy; [exact Hd1 | exact Hd2 | now apply stopsAt_lower |].
  apply matchK_plus_greedy; [exact Hl1 | exact Hl2 | reflexivity |].
  change (b "/" ++ ep ++ slash) with ("/"%char :: ep ++ slash).
  cbn [matchK]. rewrite Ascii.eqb_refl.
  apply matchK_plus_greedy;
    [exact He1 | exact He2 | destruct Hs as [->| ->]; reflexivity |].
  replace (host ++ b "/n" ++ ds ++ ls ++ "/"%char :: ep ++ slash)
    with ((host ++ b "/n" ++ ds ++ ls) ++ "/"%char :: ep ++ slash)
    by now rewrite <- !app_assoc.
  rewrite firstn_consumed.
  destruct Hs as [->| ->]; reflexivity.
Qed.

Lemma split_at_byte (c : ascii) (a a' x x' : gostring) :
  hasByte c a = false -> hasByte c a' = false ->
  a ++ c :: x = a' ++ c :: x' -> x = x'.
Proof.
  revert a'. induction a as [|y a IH]; intros a' Ha Ha' E.
  - destruct a' as [|y' a']; cbn [app] in E; [congruence|].
    injection E as E _. subst y'. unfold hasByte in Ha'. cbn [existsb] in Ha'.
    now rewrite Ascii.eqb_refl in Ha'.
  - destruct a' as [|y' a']; cbn [app] in E.
    + injection E as E _. subst y. unfold hasByte in Ha. cbn [existsb] in Ha.
      now rewrite Ascii.eqb_refl in Ha.
    + injection E as _ E. unfold hasByte in Ha, Ha'. cbn [existsb] in Ha, Ha'.
      apply orb_false_iff in Ha. apply orb_false_iff in Ha'.
      apply (IH a'); [apply Ha | apply Ha' | exact E].
Qed.

(** The URL of an index page is no episode URL. *)
Lemma FindAnchored_index (host ds ls : gostring) :
  forallb digit ds = true -> forallb isLower ls = true ->
  FindAnchored (reEpisodeURL host) (host ++ b "/n" ++ ds ++ ls ++ b "/") = None.
Proof.
  intros Hd Hl. unfold FindAnchored, reEpisodeURL. cbn [matchK].
  rewrite matchK_lit, matchK_lit.
  match goal with |- ?m = None => destruct m as [x|] eqn:M; [exfalso | reflexivity] end.
  apply (matchK_shape digit) in M; [|split; intros y Hy; exact Hy].
  destruct M as [u1 [s1 [g1 [E1 [M [P1 _]]]]]].
  apply (matchK_shape isLower) in M; [|split; intros y Hy; exact Hy].
  destruct M as [u2 [s2 [g2 [E2 [M [P2 _]]]]]].
  cbn [matchK] in M. destruct s2 as [|c s3]; [discriminate|].
  destruct (Ascii.eqb "/"%char c) eqn:Ec; [|discriminate].
  apply Ascii.eqb_eq in Ec. subst c.
  apply (matchK_shape digit (plus true digit)) in M; [|split; intros y Hy; exact Hy].
  destruct M as [u3 [s4 [g3 [E3 [_ [_ [N3 _]]]]]]]. specialize (N3 eq_refl).
  subst s1 s3.
  assert (E : (ds ++ ls) ++ "/"%char :: [] = (u1 ++ u2) ++ "/"%char :: u3 ++ s4)
    by (rewrite <- !app_assoc; exact E1).
  apply split_at_byte in E.
  - symmetry in E. apply app_eq_nil in E. now destruct E.
  - rewrite hasByte_app, (class_without digit "/"%char ds eq_refl Hd),
      (class_without isLower "/"%char ls eq_refl Hl). reflexivity.
  - rewrite hasByte_app, (class_without digit "/"%char u1 eq_refl P1),
      (class_without isLower "/"%char u2 eq_refl P2). reflexivity.
Qed.

(** X7: [convertToIndexURL] turns the URL of an episode of the site,
    with or without its closing slash, into the URL of the novel's index
    page, and returns the URL of an index page as it is; so converting
    twice gives the same as converting once. *)
Theorem convertToIndexURL_episode (host ds ls ep slash : gostring) :
  In host siteHosts ->
  ds <> [] -> forallb digit ds = true ->
  ls <> [] -> forallb isLower ls = true ->
  ep <> [] -> forallb digit ep = true ->
  slash = [] \/ slash = b "/" ->
  convertToIndexURL (host ++ b "/n" ++ ds ++ ls ++ b "/" ++ ep ++ slash)
  = host ++ b "/n" ++ ds ++ ls ++ b "/"
  /\ convertToIndexURL (host ++ b "/n" ++ ds ++ ls ++ b "/")
     = host ++ b "/n" ++ ds ++ ls ++ b "/".
Proof.
  intros Hh Hd1 Hd2 Hl1 Hl2 He1 He2 Hs. unfold convertToIndexURL.
  destruct Hh as [<-|[<-|[]]].
  - rewrite (FindAnchored_episode _ ds ls ep slash Hd1 Hd2 Hl1 Hl2 He1 He2 Hs).
    rewrite (FindAnchored_index _ ds ls Hd2 Hl2).
    split; [now rewrite <- !app_assoc|].
    assert (N : forall x, FindAnchored (reEpisodeURL (b "https://novel18.syosetu.com"))
                            (b "https://ncode.syosetu.com" ++ x) = None)
      by (intros x; reflexivity).
    now rewrite N.
  - assert (N : forall x, FindAnchored (reEpisodeURL (b "https://ncode.syosetu.com"))
                            (b "https://novel18.syosetu.com" ++ x) = None)
      by (intros x; reflexivity).
    rewrite !N.
    rewrite (FindAnchored_episode _ ds ls ep slash Hd1 Hd2 Hl1 Hl2 He1 He2 Hs).
    rewrite (FindAnchored_index _ ds ls Hd2 Hl2).
    split; [now rewrite <- !app_assoc | reflexivity].
Qed.

Lemma convertToIndexURL_episode_witness :
  convertToIndexURL
    (b "https://novel18.syosetu.com" ++ b "/n" ++ b "3161" ++ b "kd" ++ b "/" ++ b "12"
     ++ [])
  = b "https://novel18.syosetu.com" ++ b "/n" ++ b "3161" ++ b "kd" ++ b "/"
  /\ convertToIndexURL
       (b "https://novel18.syosetu.com" ++ b "/n" ++ b "3161" ++ b "kd" ++ b "/")
     = b "https://novel18.syosetu.com" ++ b "/n" ++ b "3161" ++ b "kd" ++ b "/".
Proof.
  apply (convertToIndexURL_episode (b "https://novel18.syosetu.com") (b "3161") (b "kd")
                                   (b "12") []).
  - simpl. auto.
  - discriminate.
  - reflexivity.
  - discriminate.
  - reflexivity.
  - discriminate.
  - reflexivity.
  - now left.
Defined.

(** ** The passes of the converter *)

(** *** Illustration patterns without a group *)

Lemma replaceAll_identity (r : Regexp) (repl : gostring -> Capture -> gostring) :
  (forall m g, repl m g = m) ->
  forall s skip fresh, replaceAll r repl skip fresh s = skipn skip s.
Proof.
  intros Hid. induction s as [|c s IH]; intros skip fresh.
  - destruct skip; cbn [replaceAll skipn]; [|reflexivity].
    destruct (matchAt r []) as [[rest g]|]; [|reflexivity].
    destruct (length [] - length rest); rewrite ?Hid; now destruct fresh.
  - destruct skip as [|k]; cbn [replaceAll skipn]; [|apply IH].
    destruct (matchAt r (c :: s)) as [[rest g]|]; [|now rewrite IH].
    destruct (length (c :: s) - length rest) as [|n] eqn:L.
    + rewrite Hid, IH. now destruct fresh.
    + rewrite Hid, IH. unfold consumed. rewrite L. cbn [firstn app].
      now rewrite firstn_skipn.
Qed.

(** X8: when the illustration pattern of the converter has no capture
    group, [imgToAozora] returns the text unchanged: every match is
    written back as it was found, so no illustration note is produced. *)
Theorem imgToAozora_without_group (resolveReference : gostring -> gostring -> option gostring)
      (h : HTMLConverter) (pattern : Regexp) (s : gostring) :
  illustGrepPattern h = Some pattern ->
  NumSubexp pattern = 0 ->
  imgToAozora resolveReference h s = s.
Proof.
  intros Hp Hn. unfold imgToAozora, ReplaceAllStringFunc. rewrite Hp.
  apply (replaceAll_identity pattern). intros m _.
  unfold imgReplace. rewrite Hn. now destruct (FindStringSubmatch pattern m) as [[? ?]|].
Qed.

Lemma imgToAozora_without_group_witness :
  imgToAozora noResolve groupless (b "a<img>b") = b "a<img>b".
Proof.
  apply (imgToAozora_without_group noResolve groupless (lit (b "<img>"))).
  - reflexivity.
  - reflexivity.
Defined.

(** *** Residual tags *)

Lemma starK_tagEnd (t : gostring) :
  starK false dot t
    (fun s' => matchK (Lit ">"%char) s' None (fun s'' g => Some (s'', g)))
  = option_map (fun rest => (rest, None)) (tagEnd t).
Proof.
  induction t as [|c t IH]; [reflexivity|].
  cbn [starK matchK tagEnd]. destruct (Ascii.eqb ">"%char c); [reflexivity|].
  destruct (dot c); [exact IH | reflexivity].
Qed.

Lemma matchAt_reTag (s : gostring) :
  matchAt reTag s
  = match s with
    | c :: c0 :: t =>
        if Ascii.eqb "<"%char c && dot c0
        then option_map (fun rest => (rest, None)) (tagEnd t)
        else None
    | _ => None
    end.
Proof.
  unfold matchAt, reTag, plus. cbn [matchK].
  destruct s as [|c [|c0 t]]; [reflexivity | now destruct (Ascii.eqb "<"%char c) |].
  destruct (Ascii.eqb "<"%char c); [|reflexivity]. cbn [andb].
  destruct (dot c0); [|reflexivity]. apply starK_tagEnd.
Qed.

Lemma deleteTag_nil : deleteTag [] = [].
Proof. reflexivity. Qed.

Lemma deleteTag_cons (c : ascii) (s : gostring) :
  deleteTag (c :: s)
  = match matchAt reTag (c :: s) with
    | Some (rest, _) => deleteTag rest
    | None => c :: deleteTag s
    end.
Proof.
  unfold deleteTag, ReplaceAllString.
  destruct (matchAt reTag (c :: s)) as [[rest g]|] eqn:E.
  - destruct (matchAt_inv _ _ _ _ E) as [u [Hu Hne]]. specialize (Hne eq_refl).
    rewrite Hu in E |- *. rewrite (replaceAll_match _ _ false u rest g E Hne).
    cbn [Expand flat_map app]. now apply replaceAll_fresh.
  - now rewrite replaceAll_nomatch_cons.
Qed.

Lemma tagEnd_none_no_match (c : ascii) (t : gostring) :
  tagEnd (c :: t) = None -> matchAt reTag (c :: t) = None.
Proof.
  intros H. rewrite matchAt_reTag. destruct t as [|c0 t]; [reflexivity|].
  destruct (Ascii.eqb "<"%char c && dot c0) eqn:E; [|reflexivity].
  apply andb_true_iff in E. destruct E as [Ec E0].
  apply Ascii.eqb_eq in Ec. subst c.
  cbn [tagEnd] in H. change (Ascii.eqb ">"%char "<"%char) with false in H.
  change (dot "<"%char) with true in H. cbv iota in H.
  destruct (Ascii.eqb ">"%char c0); [discriminate|]. rewrite E0 in H. now rewrite H.
Qed.

Lemma tagEnd_deleteTag (t : gostring) :
  tagEnd t = None -> tagEnd (deleteTag t) = None.
Proof.
  induction t as [|c t IH]; intros H; [reflexivity|].
  rewrite deleteTag_cons, (tagEnd_none_no_match c t H).
  cbn [tagEnd] in H |- *. destruct (Ascii.eqb ">"%char c); [discriminate|].
  destruct (dot c); [now apply IH | reflexivity].
Qed.

Lemma no_match_deleteTag (c : ascii) (s : gostring) :
  matchAt reTag (c :: s) = None -> matchAt reTag (c :: deleteTag s) = None.
Proof.
  rewrite !matchAt_reTag. destruct s as [|c0 t]; [reflexivity|].
  destruct (Ascii.eqb "<"%char c) eqn:Ec; cbn [andb].
  - destruct (dot c0) eqn:E0.
    + intros H. assert (Ht : tagEnd t = None) by now destruct (tagEnd t).
      assert (H0 : tagEnd (c0 :: t) = None \/ Ascii.eqb ">"%char c0 = true).
      { cbn [tagEnd]. destruct (Ascii.eqb ">"%char c0); [now right | left].
        now rewrite E0. }
      destruct H0 as [H0|H0].
      * rewrite deleteTag_cons, (tagEnd_none_no_match c0 t H0).
        rewrite E0. now rewrite (tagEnd_deleteTag t Ht).
      * assert (Hm : matchAt reTag (c0 :: t) = None).
        { rewrite matchAt_reTag. destruct t as [|c1 t]; [reflexivity|].
          apply Ascii.eqb_eq in H0. subst c0. reflexivity. }
        rewrite deleteTag_cons, Hm, E0. now rewrite (tagEnd_deleteTag t Ht).
    + intros _. rewrite deleteTag_cons.
      assert (Hm : matchAt reTag (c0 :: t) = None).
      { rewrite matchAt_reTag. destruct t as [|c1 t]; [reflexivity|].
        destruct (Ascii.eqb "<"%char c0) eqn:E; [|reflexivity].
        apply Ascii.eqb_eq in E. subst c0. discriminate. }
      rewrite Hm, E0. reflexivity.
  - intros _. now destruct (deleteTag (c0 :: t)) as [|? ?].
Qed.

Lemma deleteTag_clean (n : nat) :
  forall s, length s <= n ->
            forall p t, deleteTag s = p ++ t -> matchAt reTag t = None.
Proof.
  induction n as [|n IH]; intros s Hl p t E.
  - destruct s; [|cbn [length] in Hl; lia].
    rewrite deleteTag_nil in E. symmetry in E. apply app_eq_nil in E.
    destruct E as [_ ->]. reflexivity.
  - destruct s as [|c s].
    + rewrite deleteTag_nil in E. symmetry in E. apply app_eq_nil in E.
      destruct E as [_ ->]. reflexivity.
    + cbn [length] in Hl. rewrite deleteTag_cons in E.
      destruct (matchAt reTag (c :: s)) as [[rest g]|] eqn:M.
      * destruct (matchAt_inv _ _ _ _ M) as [u [Hu Hne]]. specialize (Hne eq_refl).
        apply (IH rest) with (p := p); [|exact E].
        assert (L : length (c :: s) = length u + length rest)
          by now rewrite Hu, length_app.
        cbn [length] in L. destruct u; [contradiction|]. cbn [length] in L. lia.
      * destruct p as [|d p]; cbn [app] in E.
        -- subst t. now apply no_match_deleteTag.
        -- injection E as _ E. apply (IH s) with (p := p); [lia | exact E].
Qed.

Lemma FindStringSubmatch_absent (r : Regexp) (s : gostring) :
  (forall p t, s = p ++ t -> matchAt r t = None) -> FindStringSubmatch r s = None.
Proof.
  induction s as [|c s IH]; intros H; cbn [FindStringSubmatch].
  - now rewrite (H [] [] eq_refl).
  - rewrite (H [] (c :: s) eq_refl). apply IH.
    intros p t E. apply (H (c :: p) t). now rewrite E.
Qed.

(** X9: the text that [deleteTag] returns holds no match of the tag
    pattern any more, although the pass never looks again at what it
    has joined; so a second call changes nothing. *)
Theorem deleteTag_stable (s : gostring) :
  FindStringSubmatch reTag (deleteTag s) = None
  /\ deleteTag (deleteTag s) = deleteTag s.
Proof.
  pose proof (deleteTag_clean (length s) s (le_n _)) as H. split.
  - now apply FindStringSubmatch_absent.
  - unfold deleteTag at 1. unfold ReplaceAllString. now apply replaceAll_nomatch.
Qed.

(** *** Line breaks *)

Lemma replaceAll_bytes (P : ascii -> bool) (r : Regexp)
      (repl : gostring -> Capture -> gostring) :
  (forall m g, forallb P (repl m g) = true) ->
  forall s skip fresh,
    forallb P s = true -> forallb P (replaceAll r repl skip fresh s) = true.
Proof.
  intros Hr. induction s as [|c s IH]; intros skip fresh Hs.
  - destruct skip; cbn [replaceAll]; [|reflexivity].
    destruct (matchAt r []) as [[rest g]|]; [|reflexivity].
    destruct (length [] - length rest); rewrite forallb_app, ?app_nil_r;
      [destruct fresh; [reflexivity | now rewrite Hr] | now rewrite Hr].
  - cbn [forallb] in Hs. apply andb_true_iff in Hs. destruct Hs as [Hc Hs].
    destruct skip as [|k]; cbn [replaceAll]; [|now apply IH].
    destruct (matchAt r (c :: s)) as [[rest g]|].
    + destruct (length (c :: s) - length rest) as [|n].
      * rewrite forallb_app. cbn [forallb]. rewrite Hc, (IH 0 false Hs).
        destruct fresh; [reflexivity | now rewrite Hr].
      * rewrite forallb_app, Hr. now apply IH.
    + cbn [forallb]. rewrite Hc. now apply IH.
Qed.

Lemma newlines_deleted (n : nat) :
  forall s, length s <= n ->
            replaceAll reNewlines (fun _ g => Expand [] g) 0 false s
            = filter (fun c => negb (isCRLF c)) s.
Proof.
  induction n as [|n IH]; intros s Hl.
  - destruct s; [reflexivity | cbn [length] in Hl; lia].
  - destruct s as [|c s]; [reflexivity|]. cbn [length] in Hl.
    destruct (matchAt reNewlines (c :: s)) as [[rest g]|] eqn:M.
    + assert (W : within isCRLF reNewlines) by (split; intros x Hx; exact Hx).
      destruct (matchK_shape isCRLF reNewlines W _ _ _ _ M)
        as [u [s' [g' [Hu [Hk [Pu [Hne _]]]]]]].
      injection Hk as -> _. specialize (Hne eq_refl).
      rewrite Hu in M |- *. rewrite (replaceAll_match _ _ false u rest g M Hne).
      cbn [Expand flat_map app].
      rewrite (replaceAll_fresh reNewlines _ rest true false eq_refl).
      rewrite filter_app.
      assert (Hf : filter (fun c => negb (isCRLF c)) u = []).
      { clear -Pu. induction u as [|x u IHu]; [reflexivity|].
        cbn [forallb] in Pu. apply andb_true_iff in Pu. destruct Pu as [Hx Pu].
        cbn [filter]. rewrite Hx. cbn [negb]. now apply IHu. }
      rewrite Hf. cbn [app]. apply IH.
      assert (L : length (c :: s) = length u + length rest)
        by now rewrite Hu, length_app.
      cbn [length] in L. destruct u; [contradiction|]. cbn [length] in L. lia.
    + rewrite replaceAll_nomatch_cons by exact M.
      assert (Hc : isCRLF c = false).
      { destruct (isCRLF c) eqn:E; [|reflexivity]. exfalso.
        unfold matchAt, reNewlines, plus in M. cbn [matchK] in M. rewrite E in M.
        clear -M. destruct s as [|x s]; cbn [starK] in M; [discriminate|].
        destruct (isCRLF x); [|discriminate].
        now destruct (starK true isCRLF s _). }
      cbn [filter]. rewrite Hc. cbn [negb]. f_equal. apply IH. lia.
Qed.

(** X10: [brToAozora] first drops every carriage return and line
    feed of the source and then turns the line break tags into line
    feeds: its result is the tag pass applied to the text without those
    two bytes, and holds no carriage return. *)
Theorem brToAozora_newlines (s : gostring) :
  brToAozora s
  = ReplaceAllString reBr (filter (fun c => negb (isCRLF c)) s) [TText [LF]]
  /\ hasByte CR (brToAozora s) = false.
Proof.
  assert (E : brToAozora s
              = ReplaceAllString reBr (filter (fun c => negb (isCRLF c)) s) [TText [LF]]).
  { unfold brToAozora. unfold ReplaceAllString at 2.
    now rewrite (newlines_deleted (length s) s (le_n _)). }
  split; [exact E|]. rewrite E.
  assert (H : forallb (fun c => negb (Ascii.eqb CR c))
                (ReplaceAllString reBr (filter (fun c => negb (isCRLF c)) s)
                                  [TText [LF]]) = true).
  { apply replaceAll_bytes; [reflexivity|].
    rewrite forallb_forall. intros x Hx. apply filter_In in Hx. destruct Hx as [_ Hx].
    unfold isCRLF in Hx. rewrite negb_orb in Hx. apply andb_true_iff in Hx.
    rewrite Ascii.eqb_sym. apply Hx. }
  unfold hasByte. destruct (existsb _ _) eqn:X; [|reflexivity].
  apply existsb_exists in X. destruct X as [x [Hin Hx]].
  rewrite forallb_forall in H. specialize (H x Hin). now rewrite Hx in H.
Qed.

(** *** Tags that a pass leaves none of *)

Lemma toLower_idem (c : ascii) : toLower (toLower c) = toLower c.
Proof.
  destruct (isUpper c) eqn:U.
  - apply toLower_not_upper. apply toLower_upper_isLower in U.
    unfold isLower in U. apply andb_true_iff in U. destruct U as [U _].
    apply Nat.leb_le in U. unfold isUpper. apply andb_false_iff. right.
    apply Nat.leb_gt. lia.
  - now rewrite !(toLower_not_upper c U).
Qed.

Lemma toLower_nonletter (c x : ascii) :
  isUpper c = false -> isLower c = false -> toLower x = c -> x = c.
Proof.
  intros Hu Hl E. destruct (isUpper x) eqn:U.
  - apply toLower_upper_isLower in U. congruence.
  - now rewrite (toLower_not_upper x U) in E.
Qed.

Lemma Alt_accepts {A} (r1 r2 : Regexp) (s : gostring) (g : Capture)
      (k : gostring -> Capture -> option A) :
  matchK r1 s g k <> None -> matchK (Alt r1 r2) s g k <> None.
Proof.
  intros H. cbn [matchK]. destruct (matchK r1 s g k); [discriminate | contradiction].
Qed.

(** A word in any letter case is matched by its pattern under [(?i)]. *)
Lemma foldLit_accepts {A} (c x0 : ascii) (x : gostring) (g : Capture)
      (k : gostring -> Capture -> option A) :
  toLower x0 = c -> k x g <> None -> matchK (foldLit c) (x0 :: x) g k <> None.
Proof.
  intros E Hk.
  assert (Hboth : matchK (Cls (fun y => Ascii.eqb (toLower y) (toLower c))) (x0 :: x) g k
                  <> None).
  { cbn [matchK]. rewrite <- E, toLower_idem. now rewrite Ascii.eqb_refl. }
  unfold foldLit.
  destruct (Ascii.eqb (toLower c) "s"%char); [now apply Alt_accepts|].
  destruct (Ascii.eqb (toLower c) "k"%char); [now apply Alt_accepts|].
  destruct (isUpper c || isLower c) eqn:L; [exact Hboth|].
  apply orb_false_iff in L. destruct L as [Lu Ll].
  rewrite (toLower_nonletter c x0 Lu Ll E). cbn [matchK]. now rewrite Ascii.eqb_refl.
Qed.

Lemma liti_accepts {A} (w : gostring) :
  forall (x rest : gostring) (g : Capture) (k : gostring -> Capture -> option A),
    map toLower x = w -> k rest g <> None -> matchK (liti w) (x ++ rest) g k <> None.
Proof.
  induction w as [|c w IH]; intros x rest g k E Hk.
  - destruct x; [exact Hk | discriminate].
  - destruct x as [|x0 x]; [discriminate|]. cbn [map] in E. injection E as E0 E.
    change (liti (c :: w)) with (Seq (foldLit c) (liti w)). cbn [matchK app].
    apply foldLit_accepts; [exact E0|]. now apply IH.
Qed.

Lemma liti_matches (w t : gostring) :
  strings.HasPrefix (map toLower t) w = true -> matchAt (liti w) t <> None.
Proof.
  intros H. destruct (tag_prefix_split w t H) as [x [rest [-> Hx]]].
  unfold matchAt. now apply liti_accepts.
Qed.

Lemma foreign_tl (d : ascii) (v t0 : gostring) :
  foreign (d :: v) t0 = true -> foreign v t0 = true.
Proof.
  unfold foreign. apply forallb_impl. intros x. unfold hasByte. cbn [existsb].
  intros H. apply negb_true_iff in H. apply orb_false_iff in H.
  apply negb_true_iff. apply H.
Qed.

(** A word that begins the result of a replacement by a foreign text
    begins the source as well. *)
Lemma prefix_of_result (r : Regexp) (t0 : gostring) :
  consumes r = true -> t0 <> [] ->
  forall v s fresh,
    foreign v t0 = true ->
    strings.HasPrefix (map toLower (replaceAll r (fun _ _ => t0) 0 fresh s)) v = true ->
    strings.HasPrefix (map toLower s) v = true.
Proof.
  intros C Hne. induction v as [|d v IH]; intros s fresh Hf H; [reflexivity|].
  destruct s as [|c s].
  - cbn [replaceAll] in H. destruct (matchAt r []) as [[rest g]|] eqn:M; [|discriminate].
    destruct (matchAt_inv _ _ _ _ M) as [u [Hu Hu']].
    destruct u; [now elim (Hu' C) | discriminate].
  - destruct (matchAt r (c :: s)) as [[rest g]|] eqn:M.
    + exfalso. destruct (matchAt_inv _ _ _ _ M) as [u [Hu Hu']]. specialize (Hu' C).
      rewrite Hu in M, H. rewrite (replaceAll_match _ _ fresh u rest g M Hu') in H.
      destruct t0 as [|x t0]; [contradiction|].
      cbn [app map strings.HasPrefix] in H. apply andb_true_iff in H.
      destruct H as [H _]. apply Ascii.eqb_eq in H.
      unfold foreign in Hf. cbn [forallb] in Hf. apply andb_true_iff in Hf.
      destruct Hf as [Hf _]. apply negb_true_iff in Hf.
      unfold hasByte in Hf. cbn [existsb] in Hf. apply orb_false_iff in Hf.
      destruct Hf as [Hf _]. rewrite H, Ascii.eqb_refl in Hf. discriminate.
    + rewrite replaceAll_nomatch_cons in H by exact M.
      cbn [map strings.HasPrefix] in H |- *. apply andb_true_iff in H.
      destruct H as [H0 H]. rewrite H0. cbn [andb].
      apply (IH s false); [now apply foreign_tl in Hf | exact H].
Qed.

Lemma Contains_foreign (w t0 y : gostring) :
  w <> [] -> foreign w t0 = true ->
  Contains (map toLower t0 ++ y) w = Contains y w.
Proof.
  intros Hw. induction t0 as [|x t0 IH]; intros Hf; [reflexivity|].
  unfold foreign in Hf. cbn [forallb] in Hf. apply andb_true_iff in Hf.
  destruct Hf as [Hx Hf]. cbn [map app Contains].
  rewrite (IH Hf). destruct w as [|d w]; [contradiction|].
  cbn [strings.HasPrefix]. apply negb_true_iff in Hx.
  unfold hasByte in Hx. cbn [existsb] in Hx. apply orb_false_iff in Hx.
  destruct Hx as [Hx _]. rewrite Ascii.eqb_sym, Hx. reflexivity.
Qed.

(** Replacing by a foreign text leaves no occurrence of a word all of
    whose occurrences in the source are matches of the pattern. *)
Lemma replaceAll_clears (w : gostring) (r : Regexp) (t0 : gostring) :
  consumes r = true -> t0 <> [] -> w <> [] -> foreign w t0 = true ->
  forall n s fresh,
    length s <= n ->
    (forall p t, s = p ++ t ->
                 strings.HasPrefix (map toLower t) w = true -> matchAt r t <> None) ->
    Contains (map toLower (replaceAll r (fun _ _ => t0) 0 fresh s)) w = false.
Proof.
  intros C Hne Hw Hf. induction n as [|n IH]; intros s fresh Hl Hs.
  - destruct s; [|cbn [length] in Hl; lia].
    cbn [replaceAll]. destruct (matchAt r []) as [[rest g]|] eqn:M.
    + destruct (matchAt_inv _ _ _ _ M) as [u [Hu Hu']].
      destruct u; [now elim (Hu' C) | discriminate].
    + destruct w; [contradiction | reflexivity].
  - destruct s as [|c s].
    + cbn [replaceAll]. destruct (matchAt r []) as [[rest g]|] eqn:M.
      * destruct (matchAt_inv _ _ _ _ M) as [u [Hu Hu']].
        destruct u; [now elim (Hu' C) | discriminate].
      * destruct w; [contradiction | reflexivity].
    + cbn [length] in Hl. destruct (matchAt r (c :: s)) as [[rest g]|] eqn:M.
      * destruct (matchAt_inv _ _ _ _ M) as [u [Hu Hu']]. specialize (Hu' C).
        rewrite Hu in M |- *. rewrite (replaceAll_match _ _ fresh u rest g M Hu').
        rewrite map_app, (Contains_foreign w t0 _ Hw Hf).
        apply IH.
        -- assert (L : length (c :: s) = length u + length rest)
             by now rewrite Hu, length_app.
           cbn [length] in L. destruct u; [contradiction|]. cbn [length] in L. lia.
        -- intros p t E. apply (Hs (u ++ p) t). now rewrite Hu, E, app_assoc.
      * rewrite replaceAll_nomatch_cons by exact M.
        cbn [map Contains]. apply orb_false_iff. split.
        -- destruct (strings.HasPrefix _ w) eqn:P; [|reflexivity]. exfalso.
           apply (Hs [] (c :: s) eq_refl); [|exact M].
           apply (prefix_of_result r t0 C Hne w (c :: s) fresh Hf).
           now rewrite replaceAll_nomatch_cons by exact M.
        -- apply IH; [lia|]. intros p t E. apply (Hs (c :: p) t). now rewrite E.
Qed.

Lemma clears_own_tag (w t0 s : gostring) :
  w <> [] -> t0 <> [] -> consumes (liti w) = true -> foreign w t0 = true ->
  lacksTag w (ReplaceAllString (liti w) s [TText t0]) = true.
Proof.
  intros Hw Hne C Hf. unfold lacksTag, ReplaceAllString. apply negb_true_iff.
  replace (fun (_ : gostring) (g : Capture) => Expand [TText t0] g)
    with (fun (_ : gostring) (_ : Capture) => t0)
    by (unfold Expand; cbn [flat_map]; now rewrite app_nil_r).
  apply (replaceAll_clears w (liti w) t0 C Hne Hw Hf (length s)); [apply le_n|].
  intros p t _. apply liti_matches.
Qed.

Lemma keeps_tag_absent (w : gostring) (r : Regexp) (t0 s : gostring) :
  w <> [] -> t0 <> [] -> consumes r = true -> foreign w t0 = true ->
  lacksTag w s = true ->
  lacksTag w (ReplaceAllString r s [TText t0]) = true.
Proof.
  intros Hw Hne C Hf Hs. unfold lacksTag in *. unfold ReplaceAllString.
  apply negb_true_iff in Hs. apply negb_true_iff.
  replace (fun (_ : gostring) (g : Capture) => Expand [TText t0] g)
    with (fun (_ : gostring) (_ : Capture) => t0)
    by (unfold Expand; cbn [flat_map]; now rewrite app_nil_r).
  apply (replaceAll_clears w r t0 C Hne Hw Hf (length s)); [apply le_n|].
  intros p t E H. exfalso.
  rewrite (Contains_false _ _ Hs (map toLower p) (map toLower t)) in H;
    [discriminate | now rewrite E, map_app].
Qed.

Ltac tag_side :=
  solve [ reflexivity | let E := fresh in intros E; vm_compute in E; discriminate E ].

Lemma decoration_pass (w1 w2 t1 t2 s : gostring) :
  w1 <> [] -> w2 <> [] -> t1 <> [] -> t2 <> [] ->
  consumes (liti w1) = true -> consumes (liti w2) = true ->
  foreign w1 t1 = true -> foreign w1 t2 = true -> foreign w2 t2 = true ->
  let out := ReplaceAllString (liti w2) (ReplaceAllString (liti w1) s [TText t1])
                              [TText t2] in
  lacksTag w1 out = true /\ lacksTag w2 out = true.
Proof.
  intros W1 W2 T1 T2 C1 C2 F11 F12 F22 out. split.
  - apply keeps_tag_absent; auto. now apply clears_own_tag.
  - now apply clears_own_tag.
Qed.

Lemma decoration_keeps (w w1 w2 t1 t2 s : gostring) :
  w <> [] -> t1 <> [] -> t2 <> [] ->
  consumes (liti w1) = true -> consumes (liti w2) = true ->
  foreign w t1 = true -> foreign w t2 = true ->
  lacksTag w s = true ->
  lacksTag w (ReplaceAllString (liti w2) (ReplaceAllString (liti w1) s [TText t1])
                               [TText t2]) = true.
Proof. intros. apply keeps_tag_absent; auto. now apply keeps_tag_absent. Qed.

Lemma bToAozora_clears (s : gostring) :
  lacksTag (b "<b>") (bToAozora s) = true /\ lacksTag (b "</b>") (bToAozora s) = true.
Proof. apply decoration_pass; tag_side. Qed.

Lemma iToAozora_clears (s : gostring) :
  lacksTag (b "<i>") (iToAozora s) = true /\ lacksTag (b "</i>") (iToAozora s) = true.
Proof. apply decoration_pass; tag_side. Qed.

Lemma sToAozora_clears (s : gostring) :
  lacksTag (b "<s>") (sToAozora s) = true /\ lacksTag (b "</s>") (sToAozora s) = true.
Proof. apply decoration_pass; tag_side. Qed.

(** X11: after the three decoration passes, in the order in which
    [ToAozora] runs them, none of the tags [<b>], [</b>], [<i>], [</i>],
    [<s>], [</s>] is left in the text, in any letter case. *)
Theorem decoration_tags_cleared (s : gostring) :
  forallb (fun w => lacksTag w (sToAozora (iToAozora (bToAozora s)))) decorationTags
  = true.
Proof.
  destruct (bToAozora_clears s) as [B1 B2].
  destruct (iToAozora_clears (bToAozora s)) as [I1 I2].
  destruct (sToAozora_clears (iToAozora (bToAozora s))) as [S1 S2].
  unfold decorationTags. cbn [forallb]. rewrite S1, S2, !andb_true_r.
  assert (HB1 : lacksTag (b "<b>") (iToAozora (bToAozora s)) = true)
    by (apply decoration_keeps; try tag_side; exact B1).
  assert (HB2 : lacksTag (b "</b>") (iToAozora (bToAozora s)) = true)
    by (apply decoration_keeps; try tag_side; exact B2).
  repeat (apply andb_true_iff; split);
    apply decoration_keeps; try tag_side; assumption.
Qed.

Lemma reP_matches (t : gostring) :
  strings.HasPrefix (map toLower t) (b "</p>") = true -> matchAt reP t <> None.
Proof.
  intros H. destruct (tag_prefix_split _ t H) as [x [rest [-> Hx]]].
  destruct (isTag_head _ _ Hx) as [x' ->].
  unfold matchAt, reP. cbn [matchK app].
  change (Ascii.eqb LF "<"%char) with false. cbv iota.
  change ("<"%char :: x' ++ rest) with (("<"%char :: x') ++ rest).
  now apply liti_accepts.
Qed.

(** X12: the text that [pToAozora] returns holds no closing paragraph
    tag, in any letter case. *)
Theorem pToAozora_clears (s : gostring) : lacksTag (b "</p>") (pToAozora s) = true.
Proof.
  unfold lacksTag, pToAozora, ReplaceAllString. apply negb_true_iff.
  replace (fun (_ : gostring) (g : Capture) => Expand [TText [LF]] g)
    with (fun (_ : gostring) (_ : Capture) => [LF]) by reflexivity.
  apply (replaceAll_clears (b "</p>") reP [LF]) with (n := length s);
    try tag_side. intros p t _. apply reP_matches.
Qed.

(** *** Numeric character references *)

Lemma Contains_without_head (c : ascii) (e s : gostring) :
  hasByte c s = false -> Contains s (c :: e) = false.
Proof.
  induction s as [|x s IH]; intros H; [reflexivity|].
  unfold hasByte in H. cbn [existsb] in H. apply orb_false_iff in H.
  destruct H as [Hx Hs]. cbn [Contains strings.HasPrefix].
  rewrite Hx. cbn [andb orb]. now apply IH.
Qed.

Lemma fold_stays {A B} (f : A -> B -> A) (l : list B) (y : A) :
  (forall e, In e l -> f y e = y) -> fold_left f l y = y.
Proof.
  induction l as [|e l IH]; intros H; [reflexivity|].
  cbn [fold_left]. rewrite (H e (or_introl eq_refl)). apply IH.
  intros e' He'. apply H. now right.
Qed.

Lemma fold_reaches {A B} (f : A -> B -> A) (l : list B) (x y : A) :
  (forall e, In e l -> f y e = y) ->
  (forall e, In e l -> f x e = x \/ f x e = y) ->
  (exists e, In e l /\ f x e = y) ->
  fold_left f l x = y.
Proof.
  induction l as [|e l IH]; intros Hy Hx [e0 [Hin He0]]; [contradiction|].
  cbn [fold_left].
  assert (Hy' : forall e', In e' l -> f y e' = y) by (intros; apply Hy; now right).
  destruct (Hx e (or_introl eq_refl)) as [E|E]; rewrite E.
  - destruct Hin as [->|Hin].
    + rewrite <- He0, E. rewrite E in He0. subst y. now apply fold_stays.
    + apply IH; [exact Hy' | intros; apply Hx; now right | now exists e0].
  - now apply fold_stays.
Qed.

Lemma short_no_hex (t : gostring) : length t <= 4 -> matchAt reHex t = None.
Proof.
  intros H.
  destruct t as [|c1 [|c2 [|c3 [|c4 [|c5 t]]]]]; [| | | | | cbn [length] in H; lia];
    unfold matchAt, reHex, plus; change (lit (b "&#x"))
      with (Seq (Lit "&"%char) (Seq (Lit "#"%char) (Seq (Lit "x"%char) Eps)));
    cbn [matchK starK];
    repeat match goal with
           | |- context [if ?c then _ else _] => destruct c
           end; reflexivity.
Qed.

Lemma stringOfRune_short (code : N) : length (stringOfRune code) <= 4.
Proof.
  unfold stringOfRune, encodeRune.
  destruct (validRune code) as [r|];
    repeat match goal with
           | |- context [if ?c then _ else _] => destruct c
           end; cbn [length]; lia.
Qed.

Lemma hex_pass_on_rune (code : N) :
  ReplaceAllStringFunc reHex (stringOfRune code) (numericRef reHex 16) = stringOfRune code.
Proof.
  unfold ReplaceAllStringFunc. apply replaceAll_nomatch. intros p t E.
  apply short_no_hex. pose proof (stringOfRune_short code) as H.
  rewrite E, length_app in H. lia.
Qed.

Lemma matchAt_reference (prefix : gostring) (p : ascii -> bool) (tok : gostring) :
  tok <> [] -> forallb p tok = true -> p ";"%char = false ->
  matchAt (Seq (lit prefix) (Seq (Group (plus true p)) (Lit ";"%char)))
          (prefix ++ tok ++ [";"%char])
  = Some ([], Some tok).
Proof.
  intros Hne Hp Hs. unfold matchAt. cbn [matchK]. rewrite matchK_lit.
  apply matchK_plus_greedy; [exact Hne | exact Hp | cbn [stopsAt]; now rewrite Hs |].
  cbn [matchK]. rewrite Ascii.eqb_refl. now rewrite firstn_consumed.
Qed.

Lemma reference_pass (prefix : gostring) (p : ascii -> bool) (base : N) (tok : gostring) :
  tok <> [] -> forallb p tok = true -> p ";"%char = false -> prefix <> [] ->
  let re := Seq (lit prefix) (Seq (Group (plus true p)) (Lit ";"%char)) in
  let text := prefix ++ tok ++ [";"%char] in
  matchAt re [] = None ->
  ReplaceAllStringFunc re text (numericRef re base)
  = match Sscanf_int base tok with
    | Some code => stringOfRune code
    | None => text
    end.
Proof.
  intros Hne Hp Hs Hpre re text Hnil.
  pose proof (matchAt_reference prefix p tok Hne Hp Hs) as M. fold re text in M.
  unfold ReplaceAllStringFunc.
  rewrite <- (app_nil_r text) at 1. rewrite <- (app_nil_r text) in M at 1.
  rewrite (replaceAll_match re _ false text [] (Some tok) M)
    by (unfold text; destruct prefix; [contradiction | discriminate]).
  cbn [replaceAll]. rewrite Hnil, app_nil_r.
  rewrite app_nil_r in M. unfold numericRef.
  now rewrite (FindStringSubmatch_at _ _ _ _ M).
Qed.

(** X13: [restoreHTMLEntity] turns a hexadecimal character reference
    into the UTF-8 bytes of its code point (of the replacement character
    when the code point is no valid rune), in whatever order the named
    entities are visited; when the number does not fit the 64-bit [int]
    the reference is kept. *)
Theorem hex_reference (order : list (gostring * gostring)) (tok : gostring) :
  Permutation replacements order ->
  tok <> [] -> forallb hexdigit tok = true ->
  restoreHTMLEntity order (b "&#x" ++ tok ++ b ";")
  = match Sscanf_int 16 tok with
    | Some code => stringOfRune code
    | None => b "&#x" ++ tok ++ b ";"
    end.
Proof.
  intros Hperm Hne Hp. unfold restoreHTMLEntity.
  assert (Hamp : hasByte "&"%char (b "#x" ++ tok ++ b ";") = false).
  { rewrite !hasByte_app, (class_without hexdigit "&"%char tok eq_refl Hp). reflexivity. }
  rewrite named_entities_absent.
  - assert (D : ReplaceAllStringFunc reDec (b "&#x" ++ tok ++ b ";") (numericRef reDec 10)
                = b "&#x" ++ tok ++ b ";").
    { unfold ReplaceAllStringFunc.
      change (b "&#x" ++ tok ++ b ";") with ("&"%char :: b "#x" ++ tok ++ b ";").
      rewrite replaceAll_nomatch_cons by reflexivity. f_equal.
      now apply replaceAll_without with (c := "&"%char). }
    rewrite D. apply (reference_pass (b "&#x") hexdigit 16 tok Hne Hp eq_refl);
      [discriminate | reflexivity].
  - apply (Permutation_Forall Hperm). apply Forall_forall. intros ec Hin.
    change (b "&#x" ++ tok ++ b ";") with ("&"%char :: b "#x" ++ tok ++ b ";").
    cbn [Contains]. apply orb_false_iff. split.
    + unfold replacements in Hin. cbn [In] in Hin.
      repeat (destruct Hin as [<-|Hin]; [reflexivity|]). contradiction.
    + unfold replacements in Hin. cbn [In] in Hin.
      repeat (destruct Hin as [<-|Hin]; [now apply Contains_without_head|]).
      contradiction.
Qed.

Lemma hex_reference_witness :
  restoreHTMLEntity replacements (b "&#x" ++ b "3042" ++ b ";")
  = match Sscanf_int 16 (b "3042") with
    | Some code => stringOfRune code
    | None => b "&#x" ++ b "3042" ++ b ";"
    end.
Proof.
  apply (hex_reference replacements (b "3042")).
  - apply Permutation_refl.
  - discriminate.
  - reflexivity.
Defined.

Lemma HasPrefix_token (tok d t t' : gostring) :
  hasByte ";"%char tok = false -> hasByte ";"%char d = false ->
  strings.HasPrefix (tok ++ ";"%char :: t) (d ++ ";"%char :: t') = true -> tok = d.
Proof.
  revert tok. induction d as [|x d IH]; intros tok Ht Hd H.
  - destruct tok as [|y tok]; [reflexivity|]. exfalso.
    cbn [app strings.HasPrefix] in H. apply andb_true_iff in H. destruct H as [H _].
    unfold hasByte in Ht. cbn [existsb] in Ht. apply orb_false_iff in Ht.
    destruct Ht as [Ht _]. congruence.
  - unfold hasByte in Hd. cbn [existsb] in Hd. apply orb_false_iff in Hd.
    destruct Hd as [Hx Hd]. destruct tok as [|y tok].
    + exfalso. cbn [app strings.HasPrefix] in H. apply andb_true_iff in H.
      destruct H as [H _]. rewrite Ascii.eqb_sym in H. congruence.
    + cbn [app strings.HasPrefix] in H. apply andb_true_iff in H.
      destruct H as [H0 H]. apply Ascii.eqb_eq in H0. subst y.
      unfold hasByte in Ht. cbn [existsb] in Ht. apply orb_false_iff in Ht.
      destruct Ht as [_ Ht]. f_equal. now apply IH.
Qed.

Lemma named_pass_on_reference (order : list (gostring * gostring))
      (tok final : gostring) (ec0 : gostring * gostring) :
  Permutation replacements order ->
  In ec0 replacements ->
  strings.ReplaceAll (b "&#" ++ tok ++ b ";") (fst ec0) (snd ec0) = final ->
  forallb (fun ec => eqs (strings.ReplaceAll final (fst ec) (snd ec)) final)
          replacements = true ->
  forallb (fun ec =>
             eqs (strings.ReplaceAll (b "&#" ++ tok ++ b ";") (fst ec) (snd ec))
                 (b "&#" ++ tok ++ b ";")
             || eqs (strings.ReplaceAll (b "&#" ++ tok ++ b ";") (fst ec) (snd ec)) final)
          replacements = true ->
  fold_left (fun result ec => strings.ReplaceAll result (fst ec) (snd ec)) order
            (b "&#" ++ tok ++ b ";")
  = final.
Proof.
  intros Hperm Hin H0 Hy Hx. rewrite forallb_forall in Hy, Hx.
  apply fold_reaches.
  - intros e He. apply eqs_true. apply Hy.
    apply (Permutation_in e (Permutation_sym Hperm) He).
  - intros e He.
    specialize (Hx e (Permutation_in e (Permutation_sym Hperm) He)).
    apply orb_true_iff in Hx. destruct Hx as [Hx|Hx]; apply eqs_true in Hx; auto.
  - exists ec0. split; [apply (Permutation_in ec0 Hperm Hin) | exact H0].
Qed.

(** X14: [restoreHTMLEntity] turns a decimal character reference
    into the UTF-8 bytes of its code point, in whatever order the named
    entities are visited (for 34 and 39 the named pass does it); when
    the number does not fit the 64-bit [int] the reference is kept. *)
Theorem decimal_reference (order : list (gostring * gostring)) (tok : gostring) :
  Permutation replacements order ->
  tok <> [] -> forallb digit tok = true ->
  restoreHTMLEntity order (b "&#" ++ tok ++ b ";")
  = match Sscanf_int 10 tok with
    | Some code => stringOfRune code
    | None => b "&#" ++ tok ++ b ";"
    end.
Proof.
  intros Hperm Hne Hp.
  assert (Hsemi : hasByte ";"%char tok = false)
    by apply (class_without digit ";"%char tok eq_refl Hp).
  destruct (eqs tok (b "39")) eqn:E39; [|destruct (eqs tok (b "34")) eqn:E34].
  - apply eqs_true in E39. subst tok. unfold restoreHTMLEntity.
    rewrite (named_pass_on_reference order (b "39") (b "'") (b "&#39;", b "'") Hperm);
      [reflexivity | | reflexivity | reflexivity | reflexivity].
    unfold replacements. cbn [In]. tauto.
  - apply eqs_true in E34. subst tok. unfold restoreHTMLEntity.
    rewrite (named_pass_on_reference order (b "34") [DQUOTE] (b "&#34;", [DQUOTE]) Hperm);
      [reflexivity | | reflexivity | reflexivity | reflexivity].
    unfold replacements. cbn [In]. tauto.
  - unfold restoreHTMLEntity.
    assert (Hamp : hasByte "&"%char (b "#" ++ tok ++ b ";") = false).
    { rewrite !hasByte_app, (class_without digit "&"%char tok eq_refl Hp). reflexivity. }
    rewrite named_entities_absent.
    + assert (D : ReplaceAllStringFunc reDec (b "&#" ++ tok ++ b ";") (numericRef reDec 10)
                  = match Sscanf_int 10 tok with
                    | Some code => stringOfRune code
                    | None => b "&#" ++ tok ++ b ";"
                    end)
        by (apply (reference_pass (b "&#") digit 10 tok Hne Hp eq_refl);
            [discriminate | reflexivity]).
      rewrite D.
      destruct (Sscanf_int 10 tok) as [code|]; [apply hex_pass_on_rune|].
      apply ReplaceAllStringFunc_without with (c := "x"%char); [reflexivity|].
      rewrite !hasByte_app, (class_without digit "x"%char tok eq_refl Hp). reflexivity.
    + apply (Permutation_Forall Hperm). apply Forall_forall. intros ec Hin.
      change (b "&#" ++ tok ++ b ";") with ("&"%char :: b "#" ++ tok ++ b ";").
      cbn [Contains]. apply orb_false_iff. split.
      * unfold replacements in Hin. cbn [In] in Hin.
        assert (H39 : strings.HasPrefix ("&"%char :: b "#" ++ tok ++ b ";") (b "&#39;")
                      = false).
        { destruct (strings.HasPrefix _ (b "&#39;")) eqn:P; [|reflexivity]. exfalso.
          change (b "&#39;") with ("&"%char :: "#"%char :: b "39" ++ [";"%char]) in P.
          change (b "#" ++ tok ++ b ";") with ("#"%char :: tok ++ [";"%char]) in P.
          cbn [strings.HasPrefix] in P. rewrite !Ascii.eqb_refl in P. cbn [andb] in P.
          apply HasPrefix_token in P; [|exact Hsemi | reflexivity].
          subst tok. discriminate. }
        assert (H34 : strings.HasPrefix ("&"%char :: b "#" ++ tok ++ b ";") (b "&#34;")
                      = false).
        { destruct (strings.HasPrefix _ (b "&#34;")) eqn:P; [|reflexivity]. exfalso.
          change (b "&#34;") with ("&"%char :: "#"%char :: b "34" ++ [";"%char]) in P.
          change (b "#" ++ tok ++ b ";") with ("#"%char :: tok ++ [";"%char]) in P.
          cbn [strings.HasPrefix] in P. rewrite !Ascii.eqb_refl in P. cbn [andb] in P.
          apply HasPrefix_token in P; [|exact Hsemi | reflexivity].
          subst tok. discriminate. }
        repeat (destruct Hin as [<-|Hin];
                [first [exact H39 | exact H34 | reflexivity]|]).
        contradiction.
      * unfold replacements in Hin. cbn [In] in Hin.
        repeat (destruct Hin as [<-|Hin]; [now apply Contains_without_head|]).
        contradiction.
Qed.

Lemma decimal_reference_witness :
  restoreHTMLEntity replacements (b "&#" ++ b "12354" ++ b ";")
  = match Sscanf_int 10 (b "12354") with
    | Some code => stringOfRune code
    | None => b "&#" ++ b "12354" ++ b ";"
    end.
Proof.
  apply (decimal_reference replacements (b "12354")).
  - apply Permutation_refl.
  - discriminate.
  - reflexivity.
Defined.

(** *** Spans on one line *)

Lemma lit_match {A} (w : gostring) :
  forall (x : gostring) (g : Capture) (k : gostring -> Capture -> option A),
    matchK (lit w) x g k
    = if strings.HasPrefix x w then k (skipn (length w) x) g else None.
Proof.
  induction w as [|c w IH]; intros x g k; [reflexivity|].
  change (lit (c :: w)) with (Seq (Lit c) (lit w)). cbn [matchK].
  destruct x as [|x0 x']; [reflexivity|].
  cbn [strings.HasPrefix length skipn].
  destruct (Ascii.eqb c x0); [|reflexivity]. cbn [andb]. apply IH.
Qed.

Lemma border_free_tail (c : ascii) (w u v : gostring) :
  hasByte c w = false ->
  strings.HasPrefix u w = false ->
  strings.HasPrefix (u ++ c :: v) w = false.
Proof.
  revert w. induction u as [|y u IH]; intros w Hw H.
  - destruct w as [|d w]; [discriminate|].
    cbn [app strings.HasPrefix].
    unfold hasByte in Hw. cbn [existsb] in Hw. apply orb_false_iff in Hw.
    rewrite Ascii.eqb_sym. now rewrite (proj1 Hw).
  - destruct w as [|d w]; [discriminate|].
    cbn [app strings.HasPrefix] in *.
    destruct (Ascii.eqb d y); [|reflexivity]. cbn [andb] in *.
    apply IH; [|exact H].
    unfold hasByte in *. cbn [existsb] in Hw. now apply orb_false_iff in Hw.
Qed.

(** A word whose first byte does not come back in it cannot begin inside
    a text that holds no occurrence of it and end in a following
    occurrence. *)
Lemma border_free (c : ascii) (w u v : gostring) :
  hasByte c (tl w) = false ->
  u <> [] ->
  strings.HasPrefix u w = false ->
  strings.HasPrefix (u ++ c :: v) w = false.
Proof.
  intros Hw Hu H. destruct u as [|y u]; [contradiction|].
  destruct w as [|d w]; [discriminate|].
  cbn [app strings.HasPrefix tl] in *.
  destruct (Ascii.eqb d y); [|reflexivity]. cbn [andb] in *.
  now apply border_free_tail.
Qed.

Lemma not_inside (c : ascii) (w body v : gostring) :
  hasByte c (tl w) = false ->
  Contains body w = false ->
  forall p d t, body = p ++ d :: t ->
                strings.HasPrefix (d :: t ++ c :: v) w = false.
Proof.
  intros Hw Hno p d t E.
  change (d :: t ++ c :: v) with ((d :: t) ++ c :: v).
  apply border_free; [exact Hw | discriminate |].
  now apply (Contains_false _ _ Hno p (d :: t)).
Qed.

Lemma not_before (w body v : gostring) :
  hasByte (hd "000"%char w) (tl w) = false ->
  Contains body w = false ->
  forall p d t, body = p ++ d :: t ->
                strings.HasPrefix (d :: t ++ w ++ v) w = false.
Proof.
  intros Hw Hno p d t E. destruct w as [|c w].
  - destruct body; discriminate.
  - cbn [hd tl] in Hw. now apply (not_inside c (c :: w) body (w ++ v) Hw Hno p d t).
Qed.

Lemma matchK_startsWith {A} (c : ascii) (r : Regexp) :
  startsWith c r = true ->
  forall (s : gostring) (g : Capture) (k : gostring -> Capture -> option A),
    match s with
    | d :: _ => Ascii.eqb c d = false
    | [] => True
    end ->
    matchK r s g k = None.
Proof.
  induction r as [ | c' | p | r1 IH1 r2 IH2 | r1 IH1 r2 IH2 | r1 IH1 | gr p | r1 IH1 ];
    intros H s g k Hs; cbn [startsWith] in H; try discriminate; cbn [matchK].
  - apply Ascii.eqb_eq in H. subst c'. destruct s as [|d s]; [reflexivity|].
    now rewrite Hs.
  - now apply IH1.
  - apply andb_true_iff in H. destruct H as [H1 H2].
    rewrite (IH1 H1 s g k Hs). now apply IH2.
  - now apply IH1.
Qed.

Lemma matchAt_startsWith (c d : ascii) (r : Regexp) (s : gostring) :
  startsWith c r = true -> Ascii.eqb c d = false -> matchAt r (d :: s) = None.
Proof. intros H Hd. now apply (matchK_startsWith c r H). Qed.

(** A pass whose matches begin with [c] copies a stretch without [c]. *)
Lemma replaceAll_skips (c : ascii) (r : Regexp) (repl : gostring -> Capture -> gostring)
      (pre rest : gostring) (fresh : bool) :
  startsWith c r = true -> consumes r = true ->
  hasByte c pre = false ->
  replaceAll r repl 0 fresh (pre ++ rest) = pre ++ replaceAll r repl 0 fresh rest.
Proof.
  intros Hs Hc Hpre. apply replaceAll_prefix; [exact Hc|].
  intros p d t E. apply (matchAt_startsWith c d r _ Hs).
  now apply (hasByte_split c pre p t d).
Qed.

Lemma matchAt_reEm_span (body post : gostring) :
  body <> [] ->
  hasByte LF body = false ->
  Contains (tl body) (b "</em>") = false ->
  matchAt reEm (emOpen ++ body ++ b "</em>" ++ post) = Some (post, Some body).
Proof.
  intros Hne Hlf Hno. destruct body as [|c0 body]; [contradiction|]. cbn [tl] in Hno.
  unfold matchAt, reEm, emOpen. cbn [matchK].
  rewrite <- !app_assoc. rewrite matchK_lit. cbn [app]. rewrite Ascii.eqb_refl.
  rewrite matchK_lit. change (b ">") with [">"%char]. cbn [app].
  rewrite !Ascii.eqb_refl.
  unfold plus. cbn [matchK].
  assert (H0 : dot c0 = true).
  { unfold dot. rewrite Ascii.eqb_sym.
    now rewrite (hasByte_split LF (c0 :: body) [] body c0 Hlf eq_refl). }
  rewrite H0. rewrite starK_lazy_skip.
  - apply starK_lazy_stop. rewrite matchK_lit.
    change (c0 :: body ++ b "</em>" ++ post) with ((c0 :: body) ++ b "</em>" ++ post).
    now rewrite firstn_consumed.
  - intros v1 d v2 E. split.
    + unfold dot. rewrite Ascii.eqb_sym.
      now rewrite (hasByte_split LF (c0 :: body) (c0 :: v1) v2 d Hlf
                     (f_equal (cons c0) E)).
    + rewrite lit_match.
      now rewrite (not_before (b "</em>") body post eq_refl Hno v1 d v2 E).
Qed.

(** X15: [emToSesame] copies the text before the first [<], turns an
    emphasis span whose body is on one line into the body between the
    two emphasis notes, and goes on with the text after the span. *)
Theorem emToSesame_span (pre body post : gostring) :
  hasByte "<"%char pre = false ->
  body <> [] ->
  hasByte LF body = false ->
  Contains (tl body) (b "</em>") = false ->
  emToSesame (pre ++ emOpen ++ body ++ b "</em>" ++ post)
  = pre ++ b "［＃傍点］" ++ body ++ b "［＃傍点終わり］" ++ emToSesame post.
Proof.
  intros Hpre Hne Hlf Hno. unfold emToSesame, ReplaceAllString.
  rewrite (replaceAll_skips "<"%char) by (reflexivity || exact Hpre). f_equal.
  pose proof (matchAt_reEm_span body post Hne Hlf Hno) as M.
  replace (emOpen ++ body ++ b "</em>" ++ post)
    with ((emOpen ++ body ++ b "</em>") ++ post) in M |- *
    by now rewrite <- !app_assoc.
  rewrite (replaceAll_match _ _ false _ post (Some body) M)
    by (unfold emOpen; discriminate).
  unfold Expand. cbn [flat_map]. rewrite app_nil_r, <- !app_assoc.
  do 3 f_equal. now apply replaceAll_fresh.
Qed.

Lemma emToSesame_span_witness :
  emToSesame (b "a" ++ emOpen ++ b "xy" ++ b "</em>" ++ b "c")
  = b "a" ++ b "［＃傍点］" ++ b "xy" ++ b "［＃傍点終わり］" ++ emToSesame (b "c").
Proof.
  apply (emToSesame_span (b "a") (b "xy") (b "c")).
  - reflexivity.
  - discriminate.
  - reflexivity.
  - reflexivity.
Defined.

Lemma dot_of (s p : gostring) (d : ascii) (t : gostring) :
  hasByte LF s = false -> s = p ++ d :: t -> dot d = true.
Proof.
  intros H E. unfold dot. rewrite Ascii.eqb_sym.
  now rewrite (hasByte_split LF s p t d H E).
Qed.

Lemma matchAt_img_span (attrs src more post : gostring) :
  attrs <> [] -> hasByte LF attrs = false ->
  Contains (tl attrs) (b "src=") = false ->
  src <> [] -> hasByte LF src = false -> hasByte DQUOTE src = false ->
  hasByte LF more = false -> hasByte ">"%char more = false ->
  matchAt defaultIllustPattern
          (b "<img" ++ attrs ++ b "src=" ++ [DQUOTE] ++ src ++ [DQUOTE] ++ more
           ++ b ">" ++ post)
  = Some (post, Some src).
Proof.
  intros Ha Half Hano Hs Hslf Hsq Hmlf Hmgt.
  destruct attrs as [|a0 attrs]; [contradiction|]. cbn [tl] in Hano.
  destruct src as [|s0 src]; [contradiction|].
  unfold matchAt, defaultIllustPattern, plus. cbn [matchK].
  rewrite matchK_lit. cbn [app].
  rewrite (dot_of (a0 :: attrs) [] a0 attrs Half eq_refl).
  rewrite starK_lazy_skip.
  - apply starK_lazy_stop. rewrite matchK_lit. cbn [app]. rewrite Ascii.eqb_refl.
    rewrite (dot_of (s0 :: src) [] s0 src Hslf eq_refl).
    rewrite starK_lazy_skip.
    + apply starK_lazy_stop. cbn [matchK]. rewrite Ascii.eqb_refl.
      rewrite starK_lazy_skip.
      * apply starK_lazy_stop. change (b ">" ++ post) with (">"%char :: post).
        cbn [matchK]. rewrite Ascii.eqb_refl.
        change (s0 :: src ++ DQUOTE :: more ++ ">"%char :: post)
          with ((s0 :: src) ++ DQUOTE :: more ++ ">"%char :: post).
        now rewrite firstn_consumed.
      * intros v1 d v2 E. split; [exact (dot_of more v1 d v2 Hmlf E)|].
        cbn [matchK]. now rewrite (hasByte_split ">"%char more v1 v2 d Hmgt E).
    + intros v1 d v2 E. split.
      * exact (dot_of (s0 :: src) (s0 :: v1) d v2 Hslf (f_equal (cons s0) E)).
      * cbn [matchK].
        now rewrite (hasByte_split DQUOTE (s0 :: src) (s0 :: v1) v2 d Hsq
                       (f_equal (cons s0) E)).
  - intros v1 d v2 E. split.
    + exact (dot_of (a0 :: attrs) (a0 :: v1) d v2 Half (f_equal (cons a0) E)).
    + rewrite lit_match.
      now rewrite (not_before (b "src=") attrs _ eq_refl Hano v1 d v2 E).
Qed.

(** X16: with the default pattern, [imgToAozora] copies the text
    before the first [<], turns an image tag that lies on one line into
    an illustration note with the source of the image, resolved against
    the base URL when one is set and the resolution succeeds, and goes
    on with the text after the tag. *)
Theorem imgToAozora_span (resolveReference : gostring -> gostring -> option gostring)
      (h : HTMLConverter) (pre attrs src more post : gostring) :
  illustGrepPattern h = Some defaultIllustPattern ->
  hasByte "<"%char pre = false ->
  attrs <> [] -> hasByte LF attrs = false ->
  Contains (tl attrs) (b "src=") = false ->
  src <> [] -> hasByte LF src = false -> hasByte DQUOTE src = false ->
  hasByte LF more = false -> hasByte ">"%char more = false ->
  imgToAozora resolveReference h
    (pre ++ b "<img" ++ attrs ++ b "src=" ++ [DQUOTE] ++ src ++ [DQUOTE] ++ more
     ++ b ">" ++ post)
  = pre ++ b "［＃挿絵（" ++ illustSource resolveReference h src ++ b "）入る］"
    ++ imgToAozora resolveReference h post.
Proof.
  intros Hp Hpre Ha Half Hano Hs Hslf Hsq Hmlf Hmgt.
  unfold imgToAozora, ReplaceAllStringFunc. rewrite Hp.
  rewrite (replaceAll_skips "<"%char) by (reflexivity || exact Hpre). f_equal.
  pose proof (matchAt_img_span attrs src more post Ha Half Hano Hs Hslf Hsq Hmlf Hmgt)
    as M.
  pose proof (matchAt_img_span attrs src more [] Ha Half Hano Hs Hslf Hsq Hmlf Hmgt)
    as M0.
  set (m := b "<img" ++ attrs ++ b "src=" ++ [DQUOTE] ++ src ++ [DQUOTE] ++ more ++ b ">").
  assert (E : forall x, b "<img" ++ attrs ++ b "src=" ++ [DQUOTE] ++ src ++ [DQUOTE]
                        ++ more ++ b ">" ++ x = m ++ x)
    by (intros x; unfold m; now rewrite <- !app_assoc).
  rewrite E in M, M0 |- *. rewrite app_nil_r in M0.
  rewrite (replaceAll_match _ _ false m post (Some src) M) by (unfold m; discriminate).
  rewrite (replaceAll_fresh defaultIllustPattern _ post true false eq_refl).
  unfold imgReplace at 1. rewrite (FindStringSubmatch_at _ _ _ _ M0).
  change (NumSubexp defaultIllustPattern <? 1) with false.
  cbv beta iota zeta. unfold illustSource.
  now rewrite <- !app_assoc.
Qed.

Lemma imgToAozora_span_witness :
  imgToAozora noResolve (NewHTMLConverter [])
    (b "a" ++ b "<img" ++ b " " ++ b "src=" ++ [DQUOTE] ++ b "x.jpg" ++ [DQUOTE]
     ++ b " alt=y" ++ b ">" ++ b "c")
  = b "a" ++ b "［＃挿絵（" ++ illustSource noResolve (NewHTMLConverter []) (b "x.jpg")
    ++ b "）入る］" ++ imgToAozora noResolve (NewHTMLConverter []) (b "c").
Proof.
  apply (imgToAozora_span noResolve (NewHTMLConverter []) (b "a") (b " ") (b "x.jpg")
                          (b " alt=y") (b "c")).
  - reflexivity.
  - reflexivity.
  - discriminate.
  - reflexivity.
  - reflexivity.
  - discriminate.
  - reflexivity.
  - reflexivity.
  - reflexivity.
  - reflexivity.
Defined.

Lemma reP_not_at (c : ascii) (s : gostring) :
  Ascii.eqb "<"%char c = false -> Ascii.eqb LF c = false -> matchAt reP (c :: s) = None.
Proof.
  intros Hlt Hlf. unfold matchAt, reP. cbn [matchK]. rewrite Hlf.
  change (liti (b "</p>")) with (Seq (Lit "<"%char) (liti (b "/p>"))).
  cbn [matchK]. now rewrite Hlt.
Qed.

Lemma matchAt_reP_tag (nl tag post : gostring) :
  nl = [] \/ nl = [LF] -> isTag (b "</p>") tag ->
  matchAt reP (nl ++ tag ++ post) = Some (post, None).
Proof.
  intros Hnl Ht. pose proof (liti_at_tag (b "</p>") tag post eq_refl Ht) as M.
  unfold matchAt in M. unfold matchAt, reP. cbn [matchK].
  destruct Hnl as [->| ->]; cbn [app].
  - destruct (isTag_head _ _ Ht) as [tag' ->]. cbn [app] in *.
    change (Ascii.eqb LF "<"%char) with false. cbv iota. exact M.
  - rewrite Ascii.eqb_refl. now rewrite M.
Qed.

(** X17: [pToAozora] copies a text without [<] and without line feed,
    turns the closing paragraph tag after it, in any letter case and
    together with a line feed right before it, into one line feed, and
    goes on with the text after the tag. *)
Theorem pToAozora_paragraph_end (pre nl tag post : gostring) :
  hasByte "<"%char pre = false -> hasByte LF pre = false ->
  nl = [] \/ nl = [LF] -> isTag (b "</p>") tag ->
  pToAozora (pre ++ nl ++ tag ++ post) = pre ++ [LF] ++ pToAozora post.
Proof.
  intros Hlt Hlf Hnl Ht. unfold pToAozora, ReplaceAllString.
  rewrite replaceAll_prefix; [f_equal | reflexivity |].
  - pose proof (matchAt_reP_tag nl tag post Hnl Ht) as M.
    rewrite app_assoc in M |- *.
    rewrite (replaceAll_match _ _ false _ post None M).
    + cbn [Expand flat_map app]. f_equal. now apply replaceAll_fresh.
    + destruct (isTag_head _ _ Ht) as [tag' ->]. destruct nl; discriminate.
  - intros p c t E. apply reP_not_at.
    + exact (hasByte_split "<"%char pre p t c Hlt E).
    + exact (hasByte_split LF pre p t c Hlf E).
Qed.

Lemma pToAozora_paragraph_end_witness :
  pToAozora (b "a" ++ [LF] ++ b "</P>" ++ b "c") = b "a" ++ [LF] ++ pToAozora (b "c").
Proof.
  apply (pToAozora_paragraph_end (b "a") [LF] (b "</P>") (b "c")).
  - reflexivity.
  - reflexivity.
  - now right.
  - reflexivity.
Defined.

(** *** A paragraph through the whole conversion *)

Lemma Contains_cons_other (x : ascii) (s w : gostring) :
  w <> [] -> hasByte x w = false -> Contains (x :: s) w = Contains s w.
Proof.
  intros Hw Hx. destruct w as [|d w]; [contradiction|].
  cbn [Contains strings.HasPrefix].
  unfold hasByte in Hx. cbn [existsb] in Hx. apply orb_false_iff in Hx.
  destruct Hx as [Hx _]. rewrite Ascii.eqb_sym, Hx. reflexivity.
Qed.

Lemma HasPrefix_app_other (w : gostring) :
  forall u z,
    forallb (fun x => negb (hasByte x w)) z = true ->
    strings.HasPrefix u w = false ->
    strings.HasPrefix (u ++ z) w = false.
Proof.
  induction w as [|d w IH]; intros u z Hz H; [destruct u; discriminate|].
  destruct u as [|y u].
  - destruct z as [|x z]; [reflexivity|].
    cbn [app strings.HasPrefix]. cbn [forallb] in Hz.
    apply andb_true_iff in Hz. destruct Hz as [Hx _]. apply negb_true_iff in Hx.
    unfold hasByte in Hx. cbn [existsb] in Hx. apply orb_false_iff in Hx.
    destruct Hx as [Hx _]. rewrite Ascii.eqb_sym, Hx. reflexivity.
  - cbn [app strings.HasPrefix] in *.
    destruct (Ascii.eqb d y); [|reflexivity]. cbn [andb] in *.
    apply IH; [|exact H]. revert Hz. apply forallb_impl. intros x Hx.
    apply negb_true_iff in Hx. apply negb_true_iff.
    unfold hasByte in *. cbn [existsb] in Hx. now apply orb_false_iff in Hx.
Qed.

Lemma Contains_app_other (t z w : gostring) :
  w <> [] ->
  forallb (fun x => negb (hasByte x w)) z = true ->
  Contains t w = false ->
  Contains (t ++ z) w = false.
Proof.
  intros Hw Hz. induction t as [|c t IH]; intros H.
  - cbn [app]. clear H. induction z as [|x z IHz].
    + destruct w; [contradiction | reflexivity].
    + cbn [forallb] in Hz. apply andb_true_iff in Hz. destruct Hz as [Hx Hz].
      apply negb_true_iff in Hx. rewrite (Contains_cons_other x z w Hw Hx).
      now apply IHz.
  - cbn [Contains] in H. apply orb_false_iff in H. destruct H as [H1 H2].
    change ((c :: t) ++ z) with (c :: t ++ z). cbn [Contains].
    apply orb_false_iff. split; [|now apply IH].
    change (c :: t ++ z) with ((c :: t) ++ z). now apply HasPrefix_app_other.
Qed.

Lemma restoreHTMLEntity_without_amp (order : list (gostring * gostring)) (s : gostring) :
  Permutation replacements order ->
  hasByte "&"%char s = false ->
  restoreHTMLEntity order s = s.
Proof.
  intros Hperm Hs. unfold restoreHTMLEntity. rewrite named_entities_absent.
  - rewrite (ReplaceAllStringFunc_without "&"%char reDec s _ eq_refl Hs).
    exact (ReplaceAllStringFunc_without "&"%char reHex s _ eq_refl Hs).
  - apply (Permutation_Forall Hperm). apply Forall_forall. intros ec Hin.
    unfold replacements in Hin. cbn [In] in Hin.
    repeat (destruct Hin as [<-|Hin]; [now apply Contains_without_head|]).
    contradiction.
Qed.

(** A pass whose matches begin with [<] and that does not match at
    [<p>] copies an opening paragraph tag and the plain text after it. *)
Lemma pass_paragraph (r : Regexp) (repl : gostring -> Capture -> gostring)
      (t z : gostring) :
  startsWith "<"%char r = true -> consumes r = true ->
  (forall x, matchAt r ("<"%char :: "p"%char :: ">"%char :: x) = None) ->
  hasByte "<"%char t = false ->
  replaceAll r repl 0 false (b "<p>" ++ t ++ z)
  = b "<p>" ++ t ++ replaceAll r repl 0 false z.
Proof.
  intros Hs Hc Hp Ht.
  change (b "<p>" ++ t ++ z) with ("<"%char :: ("p"%char :: ">"%char :: t) ++ z).
  rewrite replaceAll_nomatch_cons by apply Hp.
  rewrite (replaceAll_skips "<"%char r repl _ z false Hs Hc); [reflexivity|].
  unfold hasByte in *. cbn [existsb]. now rewrite Ht.
Qed.

Ltac paragraph_pass :=
  rewrite pass_paragraph by (reflexivity || assumption || (intros; reflexivity)).

Lemma decoration_on_paragraph (w1 w2 t1 t2 t : gostring) :
  startsWith "<"%char (liti w1) = true -> consumes (liti w1) = true ->
  startsWith "<"%char (liti w2) = true -> consumes (liti w2) = true ->
  (forall x, matchAt (liti w1) ("<"%char :: "p"%char :: ">"%char :: x) = None) ->
  (forall x, matchAt (liti w2) ("<"%char :: "p"%char :: ">"%char :: x) = None) ->
  matchAt (liti w1) [LF] = None -> matchAt (liti w1) [] = None ->
  matchAt (liti w2) [LF] = None -> matchAt (liti w2) [] = None ->
  hasByte "<"%char t = false ->
  ReplaceAllString (liti w2) (ReplaceAllString (liti w1) (b "<p>" ++ t ++ [LF]) [TText t1])
                   [TText t2]
  = b "<p>" ++ t ++ [LF].
Proof.
  intros S1 C1 S2 C2 P1 P2 L1 N1 L2 N2 Ht. unfold ReplaceAllString.
  rewrite (pass_paragraph (liti w1) _ t [LF] S1 C1 P1 Ht).
  cbn [replaceAll]. rewrite L1, N1.
  rewrite (pass_paragraph (liti w2) _ t [LF] S2 C2 P2 Ht).
  cbn [replaceAll]. now rewrite L2, N2.
Qed.

(** X18: the whole conversion turns one paragraph of plain text
    (no tag, no entity, no line break, no ruby bracket) into the text
    followed by one line feed, with or without the decoration passes and
    in whatever order the named entities are visited. *)
Theorem ToAozora_paragraph (resolveReference : gostring -> gostring -> option gostring)
      (order : list (gostring * gostring)) (strip : bool) (t : gostring) :
  Permutation replacements order ->
  hasByte "<"%char t = false -> hasByte "&"%char t = false ->
  hasByte CR t = false -> hasByte LF t = false ->
  Contains t (b "《") = false -> Contains t (b "》") = false ->
  ToAozora resolveReference order
           (SetStripDecorationTag (NewHTMLConverter (b "<p>" ++ t ++ b "</p>")) strip)
           false
  = t ++ [LF].
Proof.
  intros Hperm Hlt Hamp Hcr Hlf Ho Hc.
  unfold ToAozora, SetStripDecorationTag, NewHTMLConverter.
  cbn [text stripDecorationTag illustCurrentURL illustGrepPattern negb].
  (* line breaks *)
  assert (E1 : brToAozora (b "<p>" ++ t ++ b "</p>") = b "<p>" ++ t ++ b "</p>").
  { unfold brToAozora. rewrite replaceAll_reNewlines_none
      by (rewrite !hasByte_app; (rewrite Hcr || rewrite Hlf); reflexivity).
    unfold ReplaceAllString. now paragraph_pass. }
  rewrite E1.
  (* paragraph ends *)
  assert (E2 : pToAozora (b "<p>" ++ t ++ b "</p>") = b "<p>" ++ t ++ [LF]).
  { unfold pToAozora, ReplaceAllString.
    change (b "<p>" ++ t ++ b "</p>")
      with ("<"%char :: ("p"%char :: ">"%char :: t) ++ b "</p>").
    rewrite replaceAll_nomatch_cons by reflexivity.
    rewrite replaceAll_prefix; [reflexivity | reflexivity |].
    intros p c u E. apply reP_not_at.
    - apply (hasByte_split "<"%char ("p"%char :: ">"%char :: t) p u c); [|exact E].
      unfold hasByte in *. cbn [existsb]. now rewrite Hlt.
    - apply (hasByte_split LF ("p"%char :: ">"%char :: t) p u c); [|exact E].
      unfold hasByte in *. cbn [existsb]. now rewrite Hlf. }
  rewrite E2.
  (* ruby *)
  assert (E3 : rubyToAozora (b "<p>" ++ t ++ [LF]) = b "<p>" ++ t ++ [LF]).
  { unfold rubyToAozora.
    assert (K : forall w, w <> [] ->
                          forallb (fun x => negb (hasByte x w)) (b "<p>") = true ->
                          forallb (fun x => negb (hasByte x w)) [LF] = true ->
                          Contains t w = false ->
                          Contains (b "<p>" ++ t ++ [LF]) w = false).
    { intros w Hw Ha Hz Hn.
      change (b "<p>" ++ t ++ [LF])
        with ("<"%char :: "p"%char :: ">"%char :: t ++ [LF]).
      cbn [forallb] in Ha. apply andb_true_iff in Ha. destruct Ha as [A1 Ha].
      apply andb_true_iff in Ha. destruct Ha as [A2 Ha].
      apply andb_true_iff in Ha. destruct Ha as [A3 _].
      apply negb_true_iff in A1, A2, A3.
      rewrite !Contains_cons_other by assumption.
      now apply Contains_app_other. }
    rewrite (ReplaceAll_absent (b "<p>" ++ t ++ [LF]) (b "《"))
      by (apply K; (discriminate || reflexivity || assumption)).
    rewrite (ReplaceAll_absent (b "<p>" ++ t ++ [LF]) (b "》"))
      by (apply K; (discriminate || reflexivity || assumption)).
    unfold ReplaceAllStringFunc. now paragraph_pass. }
  rewrite E3.
  (* decoration *)
  assert (E4 : (if negb strip
                then sToAozora (iToAozora (bToAozora (b "<p>" ++ t ++ [LF])))
                else b "<p>" ++ t ++ [LF]) = b "<p>" ++ t ++ [LF]).
  { destruct strip; [reflexivity|]. cbn [negb]. unfold sToAozora, iToAozora, bToAozora.
    rewrite !decoration_on_paragraph;
      (reflexivity || assumption || (intros; reflexivity)). }
  rewrite E4.
  (* illustrations and emphasis *)
  assert (E5 : imgToAozora resolveReference
                 {| text := b "<p>" ++ t ++ b "</p>"; stripDecorationTag := strip;
                    illustCurrentURL := [];
                    illustGrepPattern := Some defaultIllustPattern |}
                 (b "<p>" ++ t ++ [LF]) = b "<p>" ++ t ++ [LF]).
  { unfold imgToAozora, ReplaceAllStringFunc. cbn [illustGrepPattern].
    now paragraph_pass. }
  rewrite E5.
  assert (E6 : emToSesame (b "<p>" ++ t ++ [LF]) = b "<p>" ++ t ++ [LF]).
  { unfold emToSesame, ReplaceAllString. now paragraph_pass. }
  rewrite E6.
  (* residual tags *)
  assert (E7 : deleteTag (b "<p>" ++ t ++ [LF]) = t ++ [LF]).
  { change (b "<p>" ++ t ++ [LF]) with ("<"%char :: "p"%char :: ">"%char :: t ++ [LF]).
    rewrite deleteTag_cons, matchAt_reTag. cbn [tagEnd option_map].
    change (Ascii.eqb "<"%char "<"%char && dot "p"%char) with true.
    change (Ascii.eqb ">"%char ">"%char) with true. cbv iota.
    apply ReplaceAllString_without with (c := "<"%char); [reflexivity|].
    rewrite hasByte_app, Hlt. reflexivity. }
  rewrite E7.
  apply restoreHTMLEntity_without_amp; [exact Hperm|].
  rewrite hasByte_app, Hamp. reflexivity.
Qed.

Lemma ToAozora_paragraph_witness :
  ToAozora noResolve replacements
           (SetStripDecorationTag (NewHTMLConverter (b "<p>" ++ b "こんにちは" ++ b "</p>"))
                                  false)
           false
  = b "こんにちは" ++ [LF].
Proof.
  apply (ToAozora_paragraph noResolve replacements false (b "こんにちは")).
  - apply Permutation_refl.
  - reflexivity.
  - reflexivity.
  - reflexivity.
  - reflexivity.
  - reflexivity.
  - reflexivity.
Defined.

(** ** Tags removed by the scraper *)

Lemma starK_notGt (s : gostring) :
  starK true notGt s
    (fun s' => matchK (Lit ">"%char) s' None (fun s'' g => Some (s'', g)))
  = if hasByte ">"%char s then Some (afterGt s, None) else None.
Proof.
  induction s as [|c s IH]; [reflexivity|].
  cbn [starK afterGt]. change (notGt c) with (negb (Ascii.eqb ">"%char c)).
  unfold hasByte at 1. cbn [existsb]. fold (hasByte ">"%char s).
  destruct (Ascii.eqb ">"%char c) eqn:E; cbn [negb orb].
  - cbn [matchK]. now rewrite E.
  - rewrite IH. destruct (hasByte ">"%char s); [reflexivity|].
    cbn [matchK]. now rewrite E.
Qed.

Lemma matchAt_reHTMLTag (c : ascii) (s : gostring) :
  matchAt reHTMLTag (c :: s)
  = if Ascii.eqb "<"%char c && hasByte ">"%char s then Some (afterGt s, None) else None.
Proof.
  unfold matchAt, reHTMLTag. cbn [matchK].
  destruct (Ascii.eqb "<"%char c); [|reflexivity]. cbn [andb]. apply starK_notGt.
Qed.

Lemma afterGt_length (s : gostring) : length (afterGt s) <= length s.
Proof.
  induction s as [|c s IH]; [reflexivity|]. cbn [afterGt length].
  destruct (Ascii.eqb ">"%char c); lia.
Qed.

Lemma strip_cons (c : ascii) (s : gostring) :
  ReplaceAllString reHTMLTag (c :: s) []
  = if Ascii.eqb "<"%char c && hasByte ">"%char s
    then ReplaceAllString reHTMLTag (afterGt s) []
    else c :: ReplaceAllString reHTMLTag s [].
Proof.
  unfold ReplaceAllString. pose proof (matchAt_reHTMLTag c s) as M.
  destruct (Ascii.eqb "<"%char c && hasByte ">"%char s).
  - destruct (matchAt_inv _ _ _ _ M) as [u [Hu Hne]]. specialize (Hne eq_refl).
    rewrite Hu in M |- *. rewrite (replaceAll_match _ _ false u _ None M Hne).
    cbn [Expand flat_map app]. now apply replaceAll_fresh.
  - now rewrite replaceAll_nomatch_cons.
Qed.

Lemma bytes_kept (c : ascii) (r : Regexp) (s : gostring) :
  hasByte c s = false -> hasByte c (ReplaceAllString r s []) = false.
Proof.
  intros H.
  assert (F : forallb (fun x => negb (Ascii.eqb c x)) (ReplaceAllString r s []) = true).
  { apply replaceAll_bytes; [reflexivity|].
    rewrite forallb_forall. intros x Hx. apply negb_true_iff.
    destruct (Ascii.eqb c x) eqn:E; [|reflexivity].
    apply Ascii.eqb_eq in E. subst x. apply hasByte_false in H. contradiction. }
  unfold hasByte. destruct (existsb _ _) eqn:X; [|reflexivity].
  apply existsb_exists in X. destruct X as [x [Hin Hx]].
  rewrite forallb_forall in F. specialize (F x Hin). now rewrite Hx in F.
Qed.

Lemma strip_leaves_no_tag (n : nat) :
  forall s, length s <= n -> noTagLeft (ReplaceAllString reHTMLTag s []) = true.
Proof.
  induction n as [|n IH]; intros s Hl.
  - destruct s; [reflexivity | cbn [length] in Hl; lia].
  - destruct s as [|c s]; [reflexivity|]. cbn [length] in Hl.
    rewrite strip_cons.
    destruct (Ascii.eqb "<"%char c) eqn:Ec; cbn [andb].
    + destruct (hasByte ">"%char s) eqn:Hg.
      * apply IH. pose proof (afterGt_length s). lia.
      * cbn [noTagLeft]. rewrite Ec, (bytes_kept ">"%char _ s Hg).
        cbn [negb orb andb]. apply IH. lia.
    + cbn [noTagLeft]. rewrite Ec. cbn [negb orb andb]. apply IH. lia.
Qed.

(** X19: on a text without ampersand, [removeHTMLTags] is the tag
    pass alone, and its result holds no [<] that is followed, however
    far, by a [>]: no tag is left, although the pass never looks again
    at what it has joined. *)
Theorem removeHTMLTags_leaves_no_tag (s : gostring) :
  hasByte "&"%char s = false ->
  removeHTMLTags s = ReplaceAllString reHTMLTag s []
  /\ noTagLeft (removeHTMLTags s) = true.
Proof.
  intros H. pose proof (bytes_kept "&"%char reHTMLTag s H) as Hk.
  assert (E : removeHTMLTags s = ReplaceAllString reHTMLTag s []).
  { unfold removeHTMLTags. cbv zeta.
    rewrite (ReplaceAll_absent (ReplaceAllString reHTMLTag s []) (b "&lt;"))
      by now apply Contains_without_head.
    rewrite (ReplaceAll_absent (ReplaceAllString reHTMLTag s []) (b "&gt;"))
      by now apply Contains_without_head.
    rewrite (ReplaceAll_absent (ReplaceAllString reHTMLTag s []) (b "&amp;"))
      by now apply Contains_without_head.
    rewrite (ReplaceAll_absent (ReplaceAllString reHTMLTag s []) (b "&quot;"))
      by now apply Contains_without_head.
    now rewrite (ReplaceAll_absent (ReplaceAllString reHTMLTag s []) (b "&nbsp;"))
      by now apply Contains_without_head. }
  split; [exact E|]. rewrite E. now apply (strip_leaves_no_tag (length s)).
Qed.

Lemma removeHTMLTags_leaves_no_tag_witness :
  removeHTMLTags (b "a<b>c</b>") = ReplaceAllString reHTMLTag (b "a<b>c</b>") []
  /\ noTagLeft (removeHTMLTags (b "a<b>c</b>")) = true.
Proof.
  apply (removeHTMLTags_leaves_no_tag (b "a<b>c</b>")).
  reflexivity.
Defined.

(** ** Retries, downloads and short novels *)

Section DownloadFacts.

Variable scrapeChapterWithHTMLOnce :
  nat -> gostring -> (gostring * gostring * gostring) + gostring.
Variable osWriteFile : nat -> gostring -> gostring -> option gostring.
Variable filepathJoin : list gostring -> gostring.
Variable encodeText : gostring -> gostring -> gostring + gostring.
Variable formatChapterContent : gostring -> gostring -> gostring -> gostring -> gostring.
Variable formatChapterContentForCombined : gostring -> gostring -> gostring.
Variable convertRubyToAozora : gostring -> gostring.

Ltac prefix_of t t0 :=
  lazymatch t with
  | t0 => constr:(@nil Event)
  | ?e :: ?t' => let p := prefix_of t' t0 in constr:(e :: p)
  end.

(** Rewrites [newEvents w w'] into the events that [w'] has on top of
    [w]. *)
Ltac new_events :=
  match goal with
  | |- context [newEvents ?w ?w'] =>
      let t := eval cbn [trace] in (trace w') in
      let t0 := eval cbn [trace] in (trace w) in
      let p := prefix_of t t0 in
      rewrite (newEvents_app p w w' eq_refl)
  end.

(** X20: [ScrapeChapterWithHTML] touches no file; it makes [n]
    requests, between one and three, of which the first [n - 1] failed,
    and sleeps 1 second before the second and 2 before the third.  It
    returns the answer of the last request when that one succeeded, and
    otherwise (only after three requests) an error that names the URL
    and the last failure. *)
Theorem ScrapeChapterWithHTML_retries (url : gostring) (w : World) :
  let (r, w') := ScrapeChapterWithHTML scrapeChapterWithHTMLOnce url w in
  files w' = files w /\ writes w' = writes w
  /\ exists n,
      1 <= n <= maxRetries
      /\ requests w' = requests w + n
      /\ forallb (fun k => negb (isOk (scrapeChapterWithHTMLOnce (requests w + k) url)))
                 (seq 0 (n - 1)) = true
      /\ sleepSeconds (newEvents w w') = n * (n - 1) / 2
      /\ match r with
         | inl x => scrapeChapterWithHTMLOnce (requests w + (n - 1)) url = inl x
         | inr e =>
             n = maxRetries
             /\ exists err,
                 scrapeChapterWithHTMLOnce (requests w + (n - 1)) url = inr err
                 /\ e = scrapeError url err
         end.
Proof.
  destruct w as [fl rq wr tr].
  unfold ScrapeChapterWithHTML, maxRetries.
  cbv beta iota zeta delta [scrapeLoop bind emit when ret scrapeOnce Nat.ltb Nat.leb
                            files requests writes trace].
  destruct (scrapeChapterWithHTMLOnce rq url) as [x|e0] eqn:E0;
    [|destruct (scrapeChapterWithHTMLOnce (S rq) url) as [x|e1] eqn:E1;
      [|destruct (scrapeChapterWithHTMLOnce (S (S rq)) url) as [x|e2] eqn:E2]];
    cbv beta iota zeta delta [isOk files requests writes trace];
    (split; [reflexivity|]); (split; [reflexivity|]);
    [exists 1 | exists 2 | exists 3 | exists 3];
    (split; [lia|]); (split; [lia|]);
    cbn [Nat.sub seq forallb];
    rewrite ?Nat.add_0_r, ?Nat.add_1_r;
    replace (rq + 2) with (S (S rq)) by lia;
    rewrite ?E0, ?E1, ?E2;
    (split; [reflexivity|]); (split; [new_events; reflexivity|]);
    try reflexivity.
  split; [reflexivity | now exists e2].
Qed.

Lemma eqs_refl (x : gostring) : eqs x x = true.
Proof. now apply eqs_true. Qed.


(** *** Footprints *)

Lemma footprint_ret {A} (x : A) (created : gostring -> Prop) :
  footprint (ret x) 0 0 created.
Proof. intros w. cbn. repeat split; auto; lia. Qed.

Lemma footprint_emit (e : Event) (created : gostring -> Prop) :
  footprint (emit e) 0 0 created.
Proof. intros w. cbn. repeat split; auto; lia. Qed.

Lemma footprint_statOk (p : gostring) (created : gostring -> Prop) :
  footprint (statOk p) 0 0 created.
Proof. intros w. cbn. repeat split; auto; lia. Qed.

Lemma footprint_weaken {A} (m : M A) (R W R' W' : nat) (created : gostring -> Prop) :
  footprint m R W created -> R <= R' -> W <= W' -> footprint m R' W' created.
Proof.
  intros H HR HW w. destruct (H w) as [H1 [H2 [H3 H4]]]. repeat split; auto; lia.
Qed.

Lemma footprint_bind {A B} (m : M A) (k : A -> M B) (R1 W1 R2 W2 : nat)
      (created : gostring -> Prop) :
  footprint m R1 W1 created ->
  (forall x, footprint (k x) R2 W2 created) ->
  footprint (bind m k) (R1 + R2) (W1 + W2) created.
Proof.
  intros Hm Hk w. unfold bind. destruct (Hm w) as [H1 [H2 [H3 H4]]].
  destruct (m w) as [x w1]. cbn [snd] in *.
  destruct (Hk x w1) as [K1 [K2 [K3 K4]]].
  split; [lia|]. split; [lia|]. split.
  - intros p Hp. now apply K3, H3.
  - intros p Hp. destruct (K4 p Hp) as [Hp'|Hp']; [now apply H4 | now right].
Qed.

Lemma footprint_split {A B} (m : M A) (k : A -> M B) (R1 W1 R2 W2 R W : nat)
      (created : gostring -> Prop) :
  footprint m R1 W1 created ->
  (forall x, footprint (k x) R2 W2 created) ->
  R1 + R2 <= R -> W1 + W2 <= W ->
  footprint (bind m k) R W created.
Proof.
  intros Hm Hk HR HW.
  apply (footprint_weaken _ (R1 + R2) (W1 + W2)); [|exact HR | exact HW].
  now apply footprint_bind.
Qed.

Lemma footprint_seq {A B} (m : M A) (k : A -> M B) (R W : nat)
      (created : gostring -> Prop) :
  footprint m 0 0 created ->
  (forall x, footprint (k x) R W created) ->
  footprint (bind m k) R W created.
Proof. intros Hm Hk. now apply (footprint_bind m k 0 0 R W). Qed.

Lemma footprint_when (c : bool) (m : M unit) (created : gostring -> Prop) :
  footprint m 0 0 created -> footprint (when c m) 0 0 created.
Proof. destruct c; cbn; [auto | intros _; apply footprint_ret]. Qed.

Lemma footprint_scrapeOnce (url : gostring) (created : gostring -> Prop) :
  footprint (scrapeOnce scrapeChapterWithHTMLOnce url) 1 0 created.
Proof. intros w. cbn. repeat split; auto; lia. Qed.

Lemma footprint_WriteFileM (path data : gostring) (created : gostring -> Prop) :
  created path -> footprint (WriteFileM osWriteFile path data) 0 1 created.
Proof.
  intros Hc w. cbn. repeat split; try lia.
  - intros p Hp. rewrite Hp. apply orb_true_r.
  - intros p Hp. apply orb_true_iff in Hp. destruct Hp as [Hp|Hp]; [right | now left].
    apply andb_true_iff in Hp. destruct Hp as [_ Hp]. apply eqs_true in Hp. now subst p.
Qed.

Ltac quiet_step :=
  lazymatch goal with
  | |- footprint _ 0 0 _ =>
      first [ apply footprint_ret
            | apply footprint_emit
            | apply footprint_statOk
            | apply footprint_when
            | apply footprint_seq; [|intros ?] ]
  end.

(** Closes a goal about code that makes neither a request nor a write. *)
Ltac quiet := apply (footprint_weaken _ 0 0); [repeat quiet_step | lia | lia].

Lemma footprint_scrapeLoop (created : gostring -> Prop) (fuel : nat) :
  forall retry url lastErr,
    footprint (scrapeLoop scrapeChapterWithHTMLOnce fuel retry url lastErr) fuel 0 created.
Proof.
  induction fuel as [|fuel IH]; intros retry url lastErr; cbn [scrapeLoop].
  - apply footprint_ret.
  - apply footprint_seq; [repeat quiet_step | intros _].
    apply (footprint_bind _ _ 1 0 fuel 0); [apply footprint_scrapeOnce | intros r].
    destruct r as [x|err]; [quiet |].
    apply footprint_seq; [repeat quiet_step | intros _]. apply IH.
Qed.

Lemma footprint_ScrapeChapterWithHTML (created : gostring -> Prop) (url : gostring) :
  footprint (ScrapeChapterWithHTML scrapeChapterWithHTMLOnce url) 3 0 created.
Proof.
  unfold ScrapeChapterWithHTML.
  apply (footprint_bind _ _ 3 0 0 0); [apply footprint_scrapeLoop | intros r].
  repeat quiet_step.
Qed.

Lemma footprint_saveTextFile (created : gostring -> Prop)
      (savePath title content encoding lineEnding : gostring) :
  created (textFilePath filepathJoin savePath title) ->
  footprint (saveTextFile osWriteFile filepathJoin encodeText
                          savePath title content encoding lineEnding) 0 1 created.
Proof.
  intros Hc. unfold saveTextFile.
  destruct (encodeText _ _) as [data|err].
  - apply (footprint_bind _ _ 0 1 0 0); [now apply footprint_WriteFileM | intros r].
    destruct r; repeat quiet_step.
  - quiet.
Qed.

Lemma footprint_saveLoop (created : gostring -> Prop)
      (savePath title content encoding lineEnding : gostring) (fuel : nat) :
  created (textFilePath filepathJoin savePath title) ->
  forall retry lastErr,
    footprint (saveLoop osWriteFile filepathJoin encodeText fuel retry
                        savePath title content encoding lineEnding lastErr)
              0 fuel created.
Proof.
  intros Hc. induction fuel as [|fuel IH]; intros retry lastErr; cbn [saveLoop].
  - apply footprint_ret.
  - apply footprint_seq; [repeat quiet_step | intros _].
    apply (footprint_bind _ _ 0 1 0 fuel); [now apply footprint_saveTextFile | intros r].
    destruct r as [err|]; [|quiet].
    apply footprint_seq; [repeat quiet_step | intros _]. apply IH.
Qed.

Lemma footprint_shouldSkipEpisode (created : gostring -> Prop)
      (savePath fileName episodeNumber : gostring) (createHtml createTxt : bool) :
  footprint (shouldSkipEpisode filepathJoin savePath fileName episodeNumber
                               createHtml createTxt) 0 0 created.
Proof.
  unfold shouldSkipEpisode, isFileAlreadySaved.
  destruct createHtml, createTxt; repeat quiet_step.
Qed.

Lemma footprint_chapterStep savePath result createHtml createTxt encoding lineEnding
      firstURL totalChapters i chapter st :
  footprint (chapterStep scrapeChapterWithHTMLOnce osWriteFile filepathJoin encodeText
                         formatChapterContent formatChapterContentForCombined
                         savePath result createHtml createTxt encoding lineEnding
                         (extractNovelCodeFromURL firstURL) totalChapters i chapter st)
            3 (if createTxt then 3 else 0)
            (downloadedFile filepathJoin savePath).
Proof.
  unfold chapterStep.
  apply footprint_seq; [repeat quiet_step | intros _].
  apply footprint_seq; [repeat quiet_step | intros _].
  apply footprint_seq; [apply footprint_shouldSkipEpisode | intros skip].
  destruct skip; [quiet|].
  apply footprint_seq; [repeat quiet_step | intros _].
  apply (footprint_split _ _ 3 0 0 (if createTxt then 3 else 0));
    [apply footprint_ScrapeChapterWithHTML | intros r | lia | lia].
  destruct r as [[[content rawHTML] fullPageHTML]|err].
  - apply footprint_seq; [repeat quiet_step | intros _].
    apply (footprint_split _ _ 0 (if createTxt then 3 else 0) 0 0);
      [|intros _; apply footprint_ret | lia | lia].
    destruct createTxt; [|apply footprint_ret].
    apply (footprint_split _ _ 0 3 0 0); [| |lia|lia].
    + apply footprint_saveLoop. eexists. split; [reflexivity | right].
      apply file_name_bytes, episodeNumberAt_digits.
    + intros e. destruct e; repeat quiet_step.
  - apply footprint_seq; [repeat quiet_step | intros _].
    destruct (maxFailures <=? S (failedChapters st)); quiet.
Qed.

Lemma footprint_chapterLoop savePath result createHtml createTxt encoding lineEnding
      firstURL totalChapters rest :
  forall i st,
    footprint (chapterLoop scrapeChapterWithHTMLOnce osWriteFile filepathJoin encodeText
                           formatChapterContent formatChapterContentForCombined
                           savePath result createHtml createTxt encoding lineEnding
                           (extractNovelCodeFromURL firstURL) totalChapters i rest st)
              (3 * length rest) (if createTxt then 3 * length rest else 0)
              (downloadedFile filepathJoin savePath).
Proof.
  induction rest as [|chapter rest IH]; intros i st; cbn [chapterLoop].
  - quiet.
  - apply (footprint_split _ _ 3 (if createTxt then 3 else 0)
                           (3 * length rest) (if createTxt then 3 * length rest else 0));
      [apply footprint_chapterStep | intros r
       | cbn [length]; lia | cbn [length]; destruct createTxt; lia].
    destruct r as [st'|err]; [apply IH | quiet].
Qed.

(** X22: whatever the site and the file system answer, a serial
    download makes at most three requests and at most three writes per
    chapter, three more writes for the combined file and no write at all
    without [createTxt]; it removes no file, and a file that it creates
    is a text file of the save directory, named [all] or with upper-case
    letters, digits and hyphens only. *)
Theorem downloadRensai_footprint savePath result createHtml createTxt encoding lineEnding
      createCombined :
  footprint (downloadRensai scrapeChapterWithHTMLOnce osWriteFile filepathJoin encodeText
                            formatChapterContent formatChapterContentForCombined
                            convertRubyToAozora
                            savePath result createHtml createTxt encoding lineEnding
                            createCombined)
            (3 * length (ScrapeResult.Chapters result))
            (if createTxt then 3 * length (ScrapeResult.Chapters result) + 3 else 0)
            (downloadedFile filepathJoin savePath).
Proof.
  unfold downloadRensai.
  destruct (ScrapeResult.Chapters result) as [|first rest] eqn:E; [quiet|].
  apply footprint_seq; [repeat quiet_step | intros _].
  apply footprint_seq; [repeat quiet_step | intros _].
  apply (footprint_split _ _ (3 * length (first :: rest))
                         (if createTxt then 3 * length (first :: rest) else 0)
                         0 (if createTxt then 3 else 0));
    [apply footprint_chapterLoop | intros r | lia | destruct createTxt; lia].
  destruct r as [st|err]; [|quiet].
  apply (footprint_split _ _ 0 (if createTxt then 3 else 0) 0 0); [| |lia|lia].
  - destruct (createCombined && _); [|quiet].
    apply footprint_seq; [repeat quiet_step | intros _].
    apply footprint_seq; [repeat quiet_step | intros _].
    apply footprint_seq; [repeat quiet_step | intros _].
    destruct createTxt; [|apply footprint_ret].
    apply (footprint_split _ _ 0 3 0 0); [| |lia|lia].
    + apply footprint_saveLoop. exists (b "all"). split; [reflexivity | now left].
    + intros e. destruct e; repeat quiet_step.
  - intros e. destruct e; repeat quiet_step.
Qed.

(** X23: [downloadShort] makes no request and at most three writes
    (none without [createTxt]); it removes no file, and the only file
    that it can create is the text file named by the novel code and the
    episode number 1. *)
Theorem downloadShort_footprint savePath result createHtml createTxt encoding lineEnding
      originalURL :
  footprint (downloadShort osWriteFile filepathJoin encodeText formatChapterContent
                           savePath result createHtml createTxt encoding lineEnding
                           originalURL)
            0 (if createTxt then 3 else 0)
            (fun p => p = textFilePath filepathJoin savePath
                           (generateFileName (extractNovelCodeFromURL originalURL) (b "1"))).
Proof.
  unfold downloadShort.
  apply footprint_seq; [repeat quiet_step | intros _].
  apply footprint_seq; [apply footprint_shouldSkipEpisode | intros skip].
  destruct skip; [quiet|].
  apply (footprint_split _ _ 0 (if createTxt then 3 else 0) 0 0); [| |lia|lia].
  - destruct createTxt; [|apply footprint_ret].
    destruct (eqs _ []); [quiet|].
    now apply footprint_saveLoop.
  - intros e. destruct e; repeat quiet_step.
Qed.

(** *** Short novels *)

(** X24: when every requested file of a short novel exists already
    (the text file, and the HTML file [html/1.html]), [downloadShort]
    returns no error and only reports the skip: no request, no write. *)
Theorem downloadShort_skip savePath result createHtml createTxt encoding lineEnding
      originalURL w :
  (createTxt = true ->
   files w (filepathJoin [savePath;
                          generateFileName (extractNovelCodeFromURL originalURL) (b "1")
                          ++ b ".txt"]) = true) ->
  (createHtml = true ->
   files w (filepathJoin [savePath; b "html"; b "1" ++ b ".html"]) = true) ->
  downloadShort osWriteFile filepathJoin encodeText formatChapterContent
                savePath result createHtml createTxt encoding lineEnding originalURL w
  = (None, addTrace shortSkipEvents w).
Proof.
  intros Ht Hh. destruct w as [fl rq wr tr]. cbn [files] in Ht, Hh.
  destruct createHtml, createTxt;
    try specialize (Ht eq_refl); try specialize (Hh eq_refl);
    cbv beta iota zeta delta [downloadShort shouldSkipEpisode isFileAlreadySaved bind emit
                              statOk ret files requests writes trace fst snd addTrace];
    rewrite ?Ht, ?Hh;
    cbv beta iota zeta delta [andb files requests writes trace];
    reflexivity.
Qed.

(** X25: with [createTxt] set, the text file missing and no text
    scraped, [downloadShort] returns the error that the text could not
    be fetched, after logging it, and writes nothing. *)
Theorem downloadShort_no_content savePath result createHtml encoding lineEnding
      originalURL w :
  files w (filepathJoin [savePath;
                         generateFileName (extractNovelCodeFromURL originalURL) (b "1")
                         ++ b ".txt"]) = false ->
  Join (ScrapeResult.TextContent result) [LF] = [] ->
  downloadShort osWriteFile filepathJoin encodeText formatChapterContent
                savePath result createHtml true encoding lineEnding originalURL w
  = (Some (b "本文を取得できませんでした"),
     addTrace [EmitLog (b "本文を取得できませんでした");
               EmitProgressText (b "短編小説処理中")] w).
Proof.
  intros Ht Hc. destruct w as [fl rq wr tr]. cbn [files] in Ht.
  destruct createHtml;
    cbv beta iota zeta delta [downloadShort shouldSkipEpisode isFileAlreadySaved bind emit
                              statOk ret files requests writes trace fst snd addTrace];
    rewrite Ht, Hc;
    cbv beta iota zeta delta [andb eqs files requests writes trace];
    [destruct (fl (filepathJoin [savePath; b "html"; _]))|]; reflexivity.
Qed.

(** X26: with [createHtml] alone and the HTML file missing,
    [downloadShort] reports that the files were saved and returns no
    error, although it writes nothing: the HTML file is never created. *)
Theorem downloadShort_html_only savePath result encoding lineEnding originalURL w :
  files w (filepathJoin [savePath; b "html"; b "1" ++ b ".html"]) = false ->
  downloadShort osWriteFile filepathJoin encodeText formatChapterContent
                savePath result true false encoding lineEnding originalURL w
  = (None,
     addTrace [EmitLog (b "ファイルの保存が完了しました");
               EmitProgressText (b "完了");
               EmitProgress (Percent 100);
               EmitProgressText (b "短編小説処理中")] w).
Proof.
  intros Hh. destruct w as [fl rq wr tr]. cbn [files] in Hh.
  cbv beta iota zeta delta [downloadShort shouldSkipEpisode isFileAlreadySaved bind emit
                            statOk ret files requests writes trace fst snd addTrace].
  rewrite Hh. reflexivity.
Qed.

(** A save that reports no error has created the text file. *)
Lemma saveLoop_creates (savePath title content encoding lineEnding : gostring)
      (fuel : nat) :
  forall retry lastErr w,
    let run := saveLoop osWriteFile filepathJoin encodeText fuel retry
                        savePath title content encoding lineEnding lastErr w in
    fst run = None ->
    files (snd run) (textFilePath filepathJoin savePath title) = true.
Proof.
  induction fuel as [|fuel IH]; intros retry lastErr w; cbn [saveLoop];
    [intros H; discriminate H|].
  destruct w as [fl rq wr tr]. unfold textFilePath in *.
  cbv beta iota zeta delta [saveTextFile bind emit when ret WriteFileM
                            files requests writes trace].
  destruct (0 <? retry);
    (destruct (encodeText encoding _) as [data|err];
     [destruct (osWriteFile wr _ data) as [e0|]|]);
    cbv beta iota zeta delta [files requests writes trace fst snd];
    try apply IH;
    intros _; now rewrite eqs_refl.
Qed.

(** X27: with [createTxt] set and the text file missing, a run of
    [downloadShort] that returns no error has created the text file. *)
Theorem downloadShort_saved savePath result createHtml encoding lineEnding originalURL w :
  let name := generateFileName (extractNovelCodeFromURL originalURL) (b "1") in
  let run := downloadShort osWriteFile filepathJoin encodeText formatChapterContent
                           savePath result createHtml true encoding lineEnding
                           originalURL w in
  files w (filepathJoin [savePath; name ++ b ".txt"]) = false ->
  fst run = None ->
  files (snd run) (textFilePath filepathJoin savePath name) = true.
Proof.
  intros name run Ht. subst run.
  destruct (downloadShort _ _ _ _ _ _ _ _ _ _ _ w) as [r w'] eqn:E.
  cbn [fst snd]. intros ->.
  unfold downloadShort in E. fold name in E.
  unfold bind at 1 in E. unfold emit at 1 in E. unfold bind at 1 in E.
  set (w1 := {| files := files w; requests := requests w; writes := writes w;
                trace := EmitProgressText (b "短編小説処理中") :: trace w |}) in E.
  assert (Hs : shouldSkipEpisode filepathJoin savePath name (b "1") createHtml true w1
               = (false, w1)).
  { unfold shouldSkipEpisode, isFileAlreadySaved, bind, statOk, ret.
    destruct createHtml; cbn [files w1 fst snd]; rewrite Ht;
      now rewrite ?andb_false_r. }
  rewrite Hs in E. unfold bind at 1 in E.
  destruct (eqs (Join (ScrapeResult.TextContent result) [LF]) []);
    [cbn in E; discriminate E|].
  pose proof (saveLoop_creates savePath name
                (formatChapterContent (ScrapeResult.Title result)
                                      (ScrapeResult.Author result) []
                                      (Join (ScrapeResult.TextContent result) [LF]))
                encoding lineEnding maxRetries 0 [] w1) as H.
  cbv zeta in H. unfold saveTextFileWithRetry in E.
  destruct (saveLoop _ _ _ _ _ _ _ _ _ _ _ w1) as [r w2].
  destruct r as [err|]; [cbn in E; discriminate E|].
  cbn in E. injection E as <-. cbn [files]. now apply H.
Qed.

(** *** Returned errors *)

Lemma returns_ret {A} (x : A) (Q : A -> Prop) : Q x -> returns (ret x) Q.
Proof. intros H w. exact H. Qed.

Lemma returns_bind {A B} (m : M A) (k : A -> M B) (Q : B -> Prop) :
  (forall x, returns (k x) Q) -> returns (bind m k) Q.
Proof. intros H w. unfold bind. destruct (m w) as [x w1]. apply H. Qed.

Lemma chapterStep_errors savePath result createHtml createTxt encoding lineEnding
      novelCode totalChapters i chapter st :
  returns (chapterStep scrapeChapterWithHTMLOnce osWriteFile filepathJoin encodeText
                       formatChapterContent formatChapterContentForCombined
                       savePath result createHtml createTxt encoding lineEnding
                       novelCode totalChapters i chapter st)
          (fun r => match r with
                    | inl _ => True
                    | inr e => exists lastErr, e = abortError lastErr
                    end).
Proof.
  unfold chapterStep.
  apply returns_bind; intros _. apply returns_bind; intros _.
  apply returns_bind; intros skip. destruct skip.
  - apply returns_bind; intros _. now apply returns_ret.
  - apply returns_bind; intros _. apply returns_bind; intros r.
    destruct r as [[[content rawHTML] fullPageHTML]|err].
    + apply returns_bind; intros _. apply returns_bind; intros _. now apply returns_ret.
    + apply returns_bind; intros _.
      destruct (maxFailures <=? S (failedChapters st)); apply returns_ret; [|exact I].
      now exists err.
Qed.

Lemma returns_then {A B} (m : M A) (k : A -> M B) (P : A -> Prop) (Q : B -> Prop) :
  returns m P -> (forall x, P x -> returns (k x) Q) -> returns (bind m k) Q.
Proof.
  intros Hm Hk w. unfold bind. specialize (Hm w).
  destruct (m w) as [x w1]. now apply Hk.
Qed.

Lemma chapterLoop_errors savePath result createHtml createTxt encoding lineEnding
      novelCode totalChapters rest :
  forall i st,
    returns (chapterLoop scrapeChapterWithHTMLOnce osWriteFile filepathJoin encodeText
                         formatChapterContent formatChapterContentForCombined
                         savePath result createHtml createTxt encoding lineEnding
                         novelCode totalChapters i rest st)
            (fun r => match r with
                      | inl _ => True
                      | inr e => exists lastErr, e = abortError lastErr
                      end).
Proof.
  induction rest as [|chapter rest IH]; intros i st; cbn [chapterLoop].
  - now apply returns_ret.
  - eapply returns_then; [apply chapterStep_errors|].
    intros r Hr. destruct r as [st'|err]; [apply IH | now apply returns_ret].
Qed.

(** X28: an error returned by [downloadRensai] is one of three: the
    chapter list is empty, three fetches in a row have failed, or the
    combined text file could not be saved (only with [createTxt] and
    [createCombined] set).  A failure to save the text file of a chapter
    is not among them. *)
Theorem downloadRensai_errors savePath result createHtml createTxt encoding lineEnding
      createCombined :
  returns (downloadRensai scrapeChapterWithHTMLOnce osWriteFile filepathJoin encodeText
                          formatChapterContent formatChapterContentForCombined
                          convertRubyToAozora
                          savePath result createHtml createTxt encoding lineEnding
                          createCombined)
          (fun r => match r with
                    | None => True
                    | Some e => rensaiError result createTxt createCombined e
                    end).
Proof.
  unfold downloadRensai.
  destruct (ScrapeResult.Chapters result) as [|first rest] eqn:E.
  - apply returns_ret. left. now split.
  - apply returns_bind; intros _. apply returns_bind; intros _.
    eapply returns_then; [apply chapterLoop_errors|].
    intros r Hr. destruct r as [st|err]; [|apply returns_ret; right; now left].
    apply returns_then
      with (P := fun e => match e with
                          | None => True
                          | Some x => createTxt = true /\ createCombined = true
                                      /\ exists err,
                                          x = b "連結TXTファイルの保存に失敗しました: " ++ err
                          end).
    + destruct createCombined; cbn [andb]; [|now apply returns_ret].
      destruct (0 <? length (allChapterContents st)); [|now apply returns_ret].
      apply returns_bind; intros _. apply returns_bind; intros _.
      apply returns_bind; intros _.
      destruct createTxt; [|now apply returns_ret].
      apply returns_bind; intros e. destruct e as [err|]; apply returns_ret; [|exact I].
      repeat split. now exists err.
    + intros e He. destruct e as [err|].
      * apply returns_ret. right. right. exact He.
      * apply returns_bind; intros _. apply returns_bind; intros _.
        apply returns_bind; intros _. now apply returns_ret.
Qed.

End DownloadFacts.

Lemma downloadShort_skip_witness :
  downloadShort sampleWrite sampleJoin sampleEncode sampleFormat4
                (b "out") sampleShort false true (b "UTF-8") (b "LF") sampleShortURL
                sampleWorld
  = (None, addTrace shortSkipEvents sampleWorld).
Proof.
  apply downloadShort_skip.
  - intros _. reflexivity.
  - discriminate.
Defined.

Lemma downloadShort_no_content_witness :
  downloadShort sampleWrite sampleJoin sampleEncode sampleFormat4
                (b "out") emptyShort false true (b "UTF-8") (b "LF") sampleShortURL
                newWorld
  = (Some (b "本文を取得できませんでした"),
     addTrace [EmitLog (b "本文を取得できませんでした");
               EmitProgressText (b "短編小説処理中")] newWorld).
Proof.
  apply downloadShort_no_content.
  - reflexivity.
  - reflexivity.
Defined.

Lemma downloadShort_html_only_witness :
  downloadShort sampleWrite sampleJoin sampleEncode sampleFormat4
                (b "out") sampleShort true false (b "UTF-8") (b "LF") sampleShortURL
                newWorld
  = (None,
     addTrace [EmitLog (b "ファイルの保存が完了しました");
               EmitProgressText (b "完了");
               EmitProgress (Percent 100);
               EmitProgressText (b "短編小説処理中")] newWorld).
Proof.
  apply downloadShort_html_only.
  reflexivity.
Defined.

Lemma downloadShort_saved_witness :
  files (snd (downloadShort sampleWrite sampleJoin sampleEncode sampleFormat4
                            (b "out") sampleShort false true (b "UTF-8") (b "LF")
                            sampleShortURL newWorld))
        (textFilePath sampleJoin (b "out")
                      (generateFileName (extractNovelCodeFromURL sampleShortURL) (b "1")))
  = true.
Proof.
  apply (downloadShort_saved sampleWrite sampleJoin sampleEncode sampleFormat4
                             (b "out") sampleShort false (b "UTF-8") (b "LF")
                             sampleShortURL newWorld).
  - reflexivity.
  - reflexivity.
Defined.
